(** * helios-backups-provider: the slow-loris guard and the server pipeline

    A shallow embedding of [SlowLorisProtection] (connection tracker,
    download tracker, slow-download watchdog, periodic cleanup), of the
    constants of [SECURITY_CONFIG] it reads, of the middleware
    pipeline built by [BackupServer.setupMiddleware], of the file-name
    checks of [SecurityValidator] and of the option parsers of [CLI],
    followed by the properties that were checked against them.

    Conventions of the embedding.
    - Time is [Z], in milliseconds, as returned by [Date.now()].  Each
      handler of the source runs to completion on the event loop; the
      reads of [Date.now()] inside one invocation are modelled by one
      argument [now].  The [retryAfter] of a denial is therefore the one
      of the first read; the source reads the clock again for it and can
      only report a smaller value.
    - Counters are JavaScript numbers holding integers; they are [Z]
      (exact below 2^53, which no counter of a running process reaches).
    - The two ratios compared against 0.5 and 0.7 and the transfer rate are
      exact rationals ([Q]); IEEE rounding is not modelled.  For
      integer operands below 2^49 the comparisons agree with the doubles.
    - [connectionMap] is a map from client address to tracker.  Nothing
      retains a connection tracker outside the map, so a mutation of the
      tracker found under a key is an update of the map at that key.
    - [downloadMap] holds references: the closures installed by
      [setupDownloadMonitoring] keep the tracker object they found at
      set-up, whatever the map holds later.  Download trackers live in
      an object store ([trackerHeap]) and the map holds indices in it. *)

From Stdlib Require Import ZArith QArith Ascii String List Lia Bool.
From Stdlib Require DecimalString DecimalN.
From stdpp Require Import base option gmap strings list.

Open Scope string_scope.
Open Scope Z_scope.

(** ** Constants of [SECURITY_CONFIG] (src/config/security.ts) *)

Module SECURITY_CONFIG.
Definition MAX_CONCURRENT_DOWNLOADS : Z := 10.
Definition MAX_CONCURRENT_CONNECTIONS : Z := 100.
Definition MAX_SLOW_CONNECTIONS : Z := 50.
Definition REQUEST_TIMEOUT : Z := 60000.
Definition RESPONSE_TIMEOUT : Z := 120000.
Definition CONNECTION_TIMEOUT : Z := 300000.
Definition SLOW_LORIS_BLOCK_DURATION : Z := 600000.
Definition SLOW_LORIS_GRACE_PERIOD : Z := 30000.

Module DOWNLOAD_SLOW_LORIS.
Definition MAX_SLOW_DOWNLOADS : Z := 5.
Definition MIN_TRANSFER_RATE : Z := 256.
Definition MAX_DOWNLOAD_DURATION : Z := 3600000.
Definition SLOW_DOWNLOAD_THRESHOLD : Z := 128.
Definition BLOCK_DURATION : Z := 300000.
End DOWNLOAD_SLOW_LORIS.
End SECURITY_CONFIG.

(** ** JavaScript numbers that result from a division *)

Module JsNum.
(** A quotient of two numbers is finite, infinite or NaN. *)
Inductive t : Type :=
| Fin (q : Q)
| PosInf
| NegInf
| NaN.

Definition zero : t := Fin 0%Q.

(** [a / b] for an integer [a] and a rational [b]; [b] is never the
    negative zero here (it is itself an integer divided by 1000). *)
Definition div (a : Z) (b : Q) : t :=
  if Qeq_bool b 0%Q then
    if 0 <? a then PosInf else if a <? 0 then NegInf else NaN
  else Fin (Qred (inject_Z a / b)).

(** [x < c] for an integer constant [c]; false on NaN. *)
Definition ltb (x : t) (c : Z) : bool :=
  match x with
  | Fin q => negb (Qle_bool (inject_Z c) q)
  | PosInf => false
  | NegInf => true
  | NaN => false
  end.

(** Same number (rationals up to [Qeq]). *)
Definition same (x y : t) : Prop :=
  match x, y with
  | Fin p, Fin q => Qeq p q
  | PosInf, PosInf | NegInf, NegInf | NaN, NaN => True
  | _, _ => False
  end.
End JsNum.

(** [Math.ceil(x / 1000)] for an integer [x]. *)
Definition ceil_div_1000 (x : Z) : Z := - ((- x) / 1000).

(** [a > r] for the ratio [a = num / den] of two counters, [den > 0]. *)
Definition ratio (num den : Z) : Q := (inject_Z num / inject_Z den)%Q.
Definition Qgtb (a r : Q) : bool := negb (Qle_bool a r).

(** ** Tracker records (interfaces [ConnectionTracker], [DownloadTracker]) *)

Record ConnectionTracker : Type := mkConnectionTracker {
  c_ip : string;
  connections : Z;
  slowConnections : Z;
  c_lastActivity : Z;
  c_isBlocked : bool;
  c_blockUntil : Z;
  firstConnection : Z;
  requestCount : Z;
  timeoutCount : Z
}.

Record DownloadTracker : Type := mkDownloadTracker {
  d_ip : string;
  activeDownloads : Z;
  slowDownloads : Z;
  totalBytesTransferred : Z;
  d_lastActivity : Z;
  d_isBlocked : bool;
  d_blockUntil : Z;
  downloadStartTime : Z;
  lastTransferTime : Z;
  transferRate : JsNum.t
}.

(** The static state of the class.  [cleanupInterval] is true while the
    30-second interval set in the static initialiser is scheduled. *)
Record Guard : Type := mkGuard {
  connectionMap : gmap string ConnectionTracker;
  downloadMap : gmap string nat;
  trackerHeap : list DownloadTracker;
  cleanupInterval : bool
}.

Definition guard_init : Guard :=
  {| connectionMap := ∅; downloadMap := ∅; trackerHeap := [];
     cleanupInterval := true |}.

Definition with_connectionMap (m : gmap string ConnectionTracker) (g : Guard) : Guard :=
  {| connectionMap := m; downloadMap := downloadMap g;
     trackerHeap := trackerHeap g; cleanupInterval := cleanupInterval g |}.

Definition with_downloadMap (m : gmap string nat) (g : Guard) : Guard :=
  {| connectionMap := connectionMap g; downloadMap := m;
     trackerHeap := trackerHeap g; cleanupInterval := cleanupInterval g |}.

Definition with_trackerHeap (h : list DownloadTracker) (g : Guard) : Guard :=
  {| connectionMap := connectionMap g; downloadMap := downloadMap g;
     trackerHeap := h; cleanupInterval := cleanupInterval g |}.

(** The download tracker a client's map entry refers to. *)
Definition downloadTracker (ip : string) (g : Guard) : option DownloadTracker :=
  match downloadMap g !! ip with
  | Some l => trackerHeap g !! l
  | None => None
  end.

(** ** Connection tracker (SlowLorisProtection, lines 71-182) *)

Import SECURITY_CONFIG.

Definition c_unblock (t : ConnectionTracker) : ConnectionTracker :=
  {| c_ip := c_ip t; connections := connections t;
     slowConnections := slowConnections t; c_lastActivity := c_lastActivity t;
     c_isBlocked := false; c_blockUntil := 0;
     firstConnection := firstConnection t; requestCount := requestCount t;
     timeoutCount := timeoutCount t |}.

Definition c_block (until : Z) (t : ConnectionTracker) : ConnectionTracker :=
  {| c_ip := c_ip t; connections := connections t;
     slowConnections := slowConnections t; c_lastActivity := c_lastActivity t;
     c_isBlocked := true; c_blockUntil := until;
     firstConnection := firstConnection t; requestCount := requestCount t;
     timeoutCount := timeoutCount t |}.

(** [isIpBlocked]: the answer, and the map after the lazy unblocking. *)
Definition isIpBlocked (ip : string) (now : Z) (g : Guard) : bool * Guard :=
  match connectionMap g !! ip with
  | None => (false, g)
  | Some t =>
      if c_isBlocked t && (now <? c_blockUntil t) then (true, g)
      else if c_isBlocked t && (c_blockUntil t <=? now)
           then (false, with_connectionMap (<[ip := c_unblock t]> (connectionMap g)) g)
           else (false, g)
  end.

(** [getBlockTime]: [tracker?.blockUntil || 0]. *)
Definition getBlockTime (ip : string) (g : Guard) : Z :=
  match connectionMap g !! ip with
  | Some t => c_blockUntil t
  | None => 0
  end.

Definition newConnectionTracker (ip : string) (now : Z) : ConnectionTracker :=
  {| c_ip := ip; connections := 0; slowConnections := 0;
     c_lastActivity := now; c_isBlocked := false; c_blockUntil := 0;
     firstConnection := now; requestCount := 0; timeoutCount := 0 |}.

(** Lines 110-112: the three counter updates of a register. *)
Definition c_touch (now : Z) (t : ConnectionTracker) : ConnectionTracker :=
  {| c_ip := c_ip t; connections := connections t + 1;
     slowConnections := slowConnections t; c_lastActivity := now;
     c_isBlocked := c_isBlocked t; c_blockUntil := c_blockUntil t;
     firstConnection := firstConnection t;
     requestCount := requestCount t + 1; timeoutCount := timeoutCount t |}.

(** Lines 117-120. *)
Definition adaptiveThreshold (timeSinceFirstConnection : Z) : Z :=
  Z.min MAX_CONCURRENT_CONNECTIONS
        (Z.max 20 (timeSinceFirstConnection / 5000)).

(** Line 122. *)
Definition timeoutRatio (t : ConnectionTracker) : Q :=
  ratio (timeoutCount t) (Z.max (requestCount t) 1).

(** Lines 123-125, on the tracker after the counter updates. *)
Definition shouldBlock (now : Z) (t : ConnectionTracker) : bool :=
  let timeSinceFirstConnection := now - firstConnection t in
  (adaptiveThreshold timeSinceFirstConnection <? connections t)
  && (SLOW_LORIS_GRACE_PERIOD <? timeSinceFirstConnection)
  && (Qgtb (timeoutRatio t) (1 # 2) || (MAX_SLOW_CONNECTIONS <? connections t)).

(** What [addConnection] does to the tracker it found or created. *)
Definition addConnection_tracker (now : Z) (t0 : ConnectionTracker) : ConnectionTracker :=
  let t := c_touch now t0 in
  if shouldBlock now t then c_block (now + SLOW_LORIS_BLOCK_DURATION) t else t.

Definition addConnection (ip : string) (now : Z) (g : Guard) : Guard :=
  let t0 := match connectionMap g !! ip with
            | Some t => t
            | None => newConnectionTracker ip now
            end in
  with_connectionMap (<[ip := addConnection_tracker now t0]> (connectionMap g)) g.

Definition c_release (now : Z) (t : ConnectionTracker) : ConnectionTracker :=
  {| c_ip := c_ip t; connections := connections t - 1;
     slowConnections := slowConnections t; c_lastActivity := now;
     c_isBlocked := c_isBlocked t; c_blockUntil := c_blockUntil t;
     firstConnection := firstConnection t; requestCount := requestCount t;
     timeoutCount := timeoutCount t |}.

Definition removeConnection (ip : string) (now : Z) (g : Guard) : Guard :=
  match connectionMap g !! ip with
  | Some t =>
      if 0 <? connections t
      then with_connectionMap (<[ip := c_release now t]> (connectionMap g)) g
      else g
  | None => g
  end.

Definition c_timeout (t : ConnectionTracker) : ConnectionTracker :=
  {| c_ip := c_ip t; connections := connections t;
     slowConnections := slowConnections t + 1;
     c_lastActivity := c_lastActivity t;
     c_isBlocked := c_isBlocked t; c_blockUntil := c_blockUntil t;
     firstConnection := firstConnection t; requestCount := requestCount t;
     timeoutCount := timeoutCount t + 1 |}.

Definition recordTimeout (ip : string) (now : Z) (g : Guard) : Guard :=
  match connectionMap g !! ip with
  | Some t0 =>
      let t := c_timeout t0 in
      let t' := if Qgtb (timeoutRatio t) (7 # 10) && (10 <? timeoutCount t)
                then c_block (now + SLOW_LORIS_BLOCK_DURATION) t else t in
      with_connectionMap (<[ip := t']> (connectionMap g)) g
  | None => g
  end.

(** ** Download tracker (SlowLorisProtection, lines 184-268) *)

Import DOWNLOAD_SLOW_LORIS.

Definition set_activeDownloads (n : Z) (t : DownloadTracker) : DownloadTracker :=
  {| d_ip := d_ip t; activeDownloads := n; slowDownloads := slowDownloads t;
     totalBytesTransferred := totalBytesTransferred t;
     d_lastActivity := d_lastActivity t; d_isBlocked := d_isBlocked t;
     d_blockUntil := d_blockUntil t; downloadStartTime := downloadStartTime t;
     lastTransferTime := lastTransferTime t; transferRate := transferRate t |}.

Definition set_slowDownloads (n : Z) (t : DownloadTracker) : DownloadTracker :=
  {| d_ip := d_ip t; activeDownloads := activeDownloads t; slowDownloads := n;
     totalBytesTransferred := totalBytesTransferred t;
     d_lastActivity := d_lastActivity t; d_isBlocked := d_isBlocked t;
     d_blockUntil := d_blockUntil t; downloadStartTime := downloadStartTime t;
     lastTransferTime := lastTransferTime t; transferRate := transferRate t |}.

Definition set_totalBytesTransferred (n : Z) (t : DownloadTracker) : DownloadTracker :=
  {| d_ip := d_ip t; activeDownloads := activeDownloads t;
     slowDownloads := slowDownloads t; totalBytesTransferred := n;
     d_lastActivity := d_lastActivity t; d_isBlocked := d_isBlocked t;
     d_blockUntil := d_blockUntil t; downloadStartTime := downloadStartTime t;
     lastTransferTime := lastTransferTime t; transferRate := transferRate t |}.

Definition set_d_lastActivity (n : Z) (t : DownloadTracker) : DownloadTracker :=
  {| d_ip := d_ip t; activeDownloads := activeDownloads t;
     slowDownloads := slowDownloads t;
     totalBytesTransferred := totalBytesTransferred t;
     d_lastActivity := n; d_isBlocked := d_isBlocked t;
     d_blockUntil := d_blockUntil t; downloadStartTime := downloadStartTime t;
     lastTransferTime := lastTransferTime t; transferRate := transferRate t |}.

Definition set_d_block (b : bool) (until : Z) (t : DownloadTracker) : DownloadTracker :=
  {| d_ip := d_ip t; activeDownloads := activeDownloads t;
     slowDownloads := slowDownloads t;
     totalBytesTransferred := totalBytesTransferred t;
     d_lastActivity := d_lastActivity t; d_isBlocked := b;
     d_blockUntil := until; downloadStartTime := downloadStartTime t;
     lastTransferTime := lastTransferTime t; transferRate := transferRate t |}.

Definition set_downloadStartTime (n : Z) (t : DownloadTracker) : DownloadTracker :=
  {| d_ip := d_ip t; activeDownloads := activeDownloads t;
     slowDownloads := slowDownloads t;
     totalBytesTransferred := totalBytesTransferred t;
     d_lastActivity := d_lastActivity t; d_isBlocked := d_isBlocked t;
     d_blockUntil := d_blockUntil t; downloadStartTime := n;
     lastTransferTime := lastTransferTime t; transferRate := transferRate t |}.

Definition set_lastTransferTime (n : Z) (t : DownloadTracker) : DownloadTracker :=
  {| d_ip := d_ip t; activeDownloads := activeDownloads t;
     slowDownloads := slowDownloads t;
     totalBytesTransferred := totalBytesTransferred t;
     d_lastActivity := d_lastActivity t; d_isBlocked := d_isBlocked t;
     d_blockUntil := d_blockUntil t; downloadStartTime := downloadStartTime t;
     lastTransferTime := n; transferRate := transferRate t |}.

Definition set_transferRate (r : JsNum.t) (t : DownloadTracker) : DownloadTracker :=
  {| d_ip := d_ip t; activeDownloads := activeDownloads t;
     slowDownloads := slowDownloads t;
     totalBytesTransferred := totalBytesTransferred t;
     d_lastActivity := d_lastActivity t; d_isBlocked := d_isBlocked t;
     d_blockUntil := d_blockUntil t; downloadStartTime := downloadStartTime t;
     lastTransferTime := lastTransferTime t; transferRate := r |}.

(** [this.downloadMap.get(ip)]: the reference and the object behind it.
    A map entry always refers to an allocated tracker ([heap_wf] below),
    so the answer is [None] exactly when the key is absent. *)
Definition downloadRef (ip : string) (g : Guard) : option (nat * DownloadTracker) :=
  match downloadMap g !! ip with
  | Some l => match trackerHeap g !! l with
              | Some t => Some (l, t)
              | None => None
              end
  | None => None
  end.

(** Assignment to fields of the object at reference [l]. *)
Definition store (l : nat) (t : DownloadTracker) (g : Guard) : Guard :=
  with_trackerHeap (<[l := t]> (trackerHeap g)) g.

Definition isDownloadBlocked (ip : string) (now : Z) (g : Guard) : bool * Guard :=
  match downloadRef ip g with
  | None => (false, g)
  | Some (l, t) =>
      if d_isBlocked t && (now <? d_blockUntil t) then (true, g)
      else if d_isBlocked t && (d_blockUntil t <=? now)
           then (false, store l (set_d_block false 0 t) g)
           else (false, g)
  end.

(** [getDownloadBlockTime]: [tracker?.blockUntil || 0]. *)
Definition getDownloadBlockTime (ip : string) (g : Guard) : Z :=
  match downloadRef ip g with
  | Some (_, t) => d_blockUntil t
  | None => 0
  end.

Definition newDownloadTracker (ip : string) (now : Z) : DownloadTracker :=
  {| d_ip := ip; activeDownloads := 0; slowDownloads := 0;
     totalBytesTransferred := 0; d_lastActivity := now; d_isBlocked := false;
     d_blockUntil := 0; downloadStartTime := now; lastTransferTime := now;
     transferRate := JsNum.zero |}.

(** Lines 249-259, on the tracker found or created. *)
Definition addDownload_tracker (now : Z) (t0 : DownloadTracker) : DownloadTracker :=
  let t := set_lastTransferTime now
             (set_downloadStartTime now
                (set_d_lastActivity now
                   (set_activeDownloads (activeDownloads t0 + 1) t0))) in
  if MAX_SLOW_DOWNLOADS <? activeDownloads t
  then set_d_block true (now + BLOCK_DURATION) t
  else t.

Definition addDownload (ip : string) (now : Z) (g : Guard) : Guard :=
  match downloadRef ip g with
  | Some (l, t0) => store l (addDownload_tracker now t0) g
  | None =>
      let l := length (trackerHeap g) in
      with_downloadMap (<[ip := l]> (downloadMap g))
        (with_trackerHeap
           (trackerHeap g ++ [addDownload_tracker now (newDownloadTracker ip now)]) g)
  end.

Definition removeDownload (ip : string) (now : Z) (g : Guard) : Guard :=
  match downloadRef ip g with
  | Some (l, t) =>
      if 0 <? activeDownloads t
      then store l (set_d_lastActivity now
                      (set_activeDownloads (activeDownloads t - 1) t)) g
      else g
  | None => g
  end.

(** ** The response object and the monitoring closures (lines 270-325) *)

(** The part of an Express response the guard reads and writes. *)
Record Response : Type := mkResponse {
  headersSent : bool;
  statusCode : Z;
  writableEnded : bool
}.

Definition fresh_response : Response :=
  {| headersSent := false; statusCode := 200; writableEnded := false |}.

(** The [chunk] argument of [res.write] and [res.end]. *)
Inductive Chunk : Type :=
| Buf (len : N)         (* a Buffer of that length *)
| Str (s : string)      (* a string: not counted by the guard *)
| NoChunk.              (* undefined *)

(** A timer created by [setTimeout]. *)
Inductive Timer : Type :=
| Armed (due : Z)
| Cleared
| Fired.

Definition clearTimeout (t : Timer) : Timer :=
  match t with
  | Armed _ => Cleared
  | other => other
  end.

(** The variables captured by the closures of one download:
    the [tracker] object, [bytesTransferred], [startTime] and the
    watchdog [downloadTimeout]. *)
Record DownloadMonitor : Type := mkDownloadMonitor {
  m_tracker : nat;
  bytesTransferred : Z;
  startTime : Z;
  downloadTimeout : Timer
}.

Definition set_bytesTransferred (n : Z) (m : DownloadMonitor) : DownloadMonitor :=
  {| m_tracker := m_tracker m; bytesTransferred := n; startTime := startTime m;
     downloadTimeout := downloadTimeout m |}.

Definition set_downloadTimeout (t : Timer) (m : DownloadMonitor) : DownloadMonitor :=
  {| m_tracker := m_tracker m; bytesTransferred := bytesTransferred m;
     startTime := startTime m; downloadTimeout := t |}.

(** The unpatched [res.write] and [res.end] of the HTTP response. *)
Definition originalWrite (res : Response) : Response :=
  if writableEnded res then res
  else {| headersSent := true; statusCode := statusCode res; writableEnded := false |}.

Definition originalEnd (res : Response) : Response :=
  if writableEnded res then res
  else {| headersSent := true; statusCode := statusCode res; writableEnded := true |}.

Definition set_status (s : Z) (res : Response) : Response :=
  {| headersSent := headersSent res; statusCode := s;
     writableEnded := writableEnded res |}.

(** [setupDownloadMonitoring]: [None] is the early return of line 272. *)
Definition setupDownloadMonitoring (ip : string) (now : Z) (g : Guard) : option DownloadMonitor :=
  match downloadRef ip g with
  | Some (l, _) =>
      Some {| m_tracker := l; bytesTransferred := 0; startTime := now;
              downloadTimeout := Armed (now + MAX_DOWNLOAD_DURATION) |}
  | None => None
  end.

(** Line 289: [bytesTransferred / ((now - startTime) / 1000)]. *)
Definition measuredRate (bytes now start : Z) : JsNum.t :=
  JsNum.div bytes (inject_Z (now - start) / inject_Z 1000)%Q.

(** Lines 283-297 on the captured tracker, [bytes] being the value of
    [bytesTransferred] after line 282. *)
Definition sample (len : N) (bytes now start : Z) (t0 : DownloadTracker) : DownloadTracker :=
  let t := set_totalBytesTransferred (totalBytesTransferred t0 + Z.of_N len) t0 in
  let timeElapsed := now - lastTransferTime t in
  if 1000 <? timeElapsed then
    let t1 := set_lastTransferTime now
                (set_transferRate (measuredRate bytes now start) t) in
    if JsNum.ltb (transferRate t1) SLOW_DOWNLOAD_THRESHOLD
    then set_slowDownloads (slowDownloads t1 + 1) t1
    else t1
  else t.

(** The patched [res.write] (lines 280-300). *)
Definition res_write (chunk : Chunk) (now : Z)
    (m : DownloadMonitor) (g : Guard) (res : Response)
  : DownloadMonitor * Guard * Response :=
  match chunk with
  | Buf len =>
      let bytes := bytesTransferred m + Z.of_N len in
      let g' := match trackerHeap g !! m_tracker m with
                | Some t => store (m_tracker m) (sample len bytes now (startTime m) t) g
                | None => g
                end in
      (set_bytesTransferred bytes m, g', originalWrite res)
  | _ => (m, g, originalWrite res)
  end.

(** The patched [res.end] (lines 302-308). *)
Definition res_end (chunk : Chunk)
    (m : DownloadMonitor) (g : Guard) (res : Response)
  : DownloadMonitor * Guard * Response :=
  match chunk with
  | Buf len =>
      let g' := match trackerHeap g !! m_tracker m with
                | Some t =>
                    store (m_tracker m)
                      (set_totalBytesTransferred
                         (totalBytesTransferred t + Z.of_N len) t) g
                | None => g
                end in
      (set_bytesTransferred (bytesTransferred m + Z.of_N len) m, g', originalEnd res)
  | _ => (m, g, originalEnd res)
  end.

(** [res.status(s).json(body)] on a monitored response: Express sends the
    serialised body through [res.end], which is the patched one;
    [body] is the chunk Express hands to it. *)
Definition res_status_json (s : Z) (body : Chunk)
    (m : DownloadMonitor) (g : Guard) (res : Response)
  : DownloadMonitor * Guard * Response :=
  res_end body m g (set_status s res).

(** The callback of the watchdog (lines 310-321). *)
Definition downloadTimeout_callback (now : Z) (body : Chunk)
    (m : DownloadMonitor) (g : Guard) (res : Response)
  : DownloadMonitor * Guard * Response :=
  match trackerHeap g !! m_tracker m with
  | Some t =>
      if JsNum.ltb (transferRate t) MIN_TRANSFER_RATE then
        let g1 := store (m_tracker m) (set_d_block true (now + BLOCK_DURATION) t) g in
        let '(m2, g2, res2) :=
          if negb (headersSent res)
          then res_status_json 408 body m g1 res
          else (m, g1, res) in
        res_end NoChunk m2 g2 res2
      else (m, g, res)
  | None => (m, g, res)
  end.

(** The event loop runs the callback of an armed timer once its delay
    has passed; a cleared or spent timer never runs. *)
Definition downloadTimeout_fire (now : Z) (body : Chunk)
    (m : DownloadMonitor) (g : Guard) (res : Response)
  : DownloadMonitor * Guard * Response :=
  match downloadTimeout m with
  | Armed due =>
      if due <=? now
      then downloadTimeout_callback now body (set_downloadTimeout Fired m) g res
      else (m, g, res)
  | _ => (m, g, res)
  end.

(** The listeners of lines 323-324. *)
Definition monitor_completed (m : DownloadMonitor) : DownloadMonitor :=
  set_downloadTimeout (clearTimeout (downloadTimeout m)) m.

(** ** Requests and the middleware (lines 40-69, 141-166, 184-207) *)

Record Request : Type := mkRequest {
  req_ip : option string;            (* req.ip *)
  req_remoteAddress : option string; (* req.connection.remoteAddress *)
  req_path : string;
  req_method : string;
  req_userAgent : option string;     (* req.get('User-Agent') *)
  req_accept : option string         (* req.get('Accept') *)
}.

(** [a || b] on strings: undefined and the empty string are falsy. *)
Definition or_else (a : option string) (b : string) : string :=
  match a with
  | Some s => if String.eqb s "" then b else s
  | None => b
  end.

Definition clientIp (req : Request) : string :=
  or_else (req_ip req) (or_else (req_remoteAddress req) "unknown").

(** [req.path.startsWith('/snapshots/') && req.method === 'GET'] *)
Definition isSnapshotGet (req : Request) : bool :=
  String.prefix "/snapshots/" (req_path req) && String.eqb (req_method req) "GET".

(** What the listeners of one admitted request close over. *)
Record ConnectionRequest : Type := mkConnectionRequest {
  cr_ip : string;
  connectionTimeout : Timer
}.

Record DownloadRequest : Type := mkDownloadRequest {
  dr_ip : string;
  dr_monitor : option DownloadMonitor
}.

(** The outcome of the middleware for one request: a 429 reply without
    [next()], or [next()] with the listeners installed. *)
Inductive Verdict : Type :=
| Rejected (status : Z) (retryAfter : Z)
| ConnectionAdmitted (r : ConnectionRequest)
| DownloadAdmitted (r : DownloadRequest).

Definition setupConnectionTimeouts (ip : string) (now : Z) : ConnectionRequest :=
  {| cr_ip := ip; connectionTimeout := Armed (now + CONNECTION_TIMEOUT) |}.

Definition handleDownloadProtection (ip : string) (now : Z) (g : Guard) : Verdict * Guard :=
  let '(blocked, g1) := isDownloadBlocked ip now g in
  if blocked
  then (Rejected 429 (ceil_div_1000 (getDownloadBlockTime ip g1 - now)), g1)
  else
    let g2 := addDownload ip now g1 in
    (DownloadAdmitted
       {| dr_ip := ip; dr_monitor := setupDownloadMonitoring ip now g2 |}, g2).

Definition middleware (req : Request) (now : Z) (g : Guard) : Verdict * Guard :=
  let ip := clientIp req in
  if isSnapshotGet req then handleDownloadProtection ip now g
  else
    let '(blocked, g1) := isIpBlocked ip now g in
    if blocked
    then (Rejected 429 (ceil_div_1000 (getBlockTime ip g1 - now)), g1)
    else (ConnectionAdmitted (setupConnectionTimeouts ip now),
          addConnection ip now g1).

(** The listeners on 'finish' and on 'close' of an admitted request; the
    source registers the same two actions for both events. *)
Definition connection_listeners (r : ConnectionRequest) (now : Z) (g : Guard)
  : ConnectionRequest * Guard :=
  ({| cr_ip := cr_ip r; connectionTimeout := clearTimeout (connectionTimeout r) |},
   removeConnection (cr_ip r) now g).

Definition download_listeners (r : DownloadRequest) (now : Z) (g : Guard)
  : DownloadRequest * Guard :=
  ({| dr_ip := dr_ip r; dr_monitor := monitor_completed <$> dr_monitor r |},
   removeDownload (dr_ip r) now g).

Definition on_finish := connection_listeners.
Definition on_close := connection_listeners.
Definition on_download_finish := download_listeners.
Definition on_download_close := download_listeners.

(** The callbacks of [req.setTimeout], [res.setTimeout] (lines 142-154)
    and of the connection timer (lines 156-162), on an unpatched response. *)
Definition timeout_reply (res : Response) : Response :=
  if headersSent res then res else originalEnd (set_status 408 res).

Definition socketTimeout_callback (ip : string) (now : Z) (g : Guard) (res : Response)
  : Guard * Response :=
  (recordTimeout ip now g, timeout_reply res).

Definition connectionTimeout_callback (ip : string) (now : Z) (g : Guard) (res : Response)
  : Guard * Response :=
  (recordTimeout ip now g, originalEnd (timeout_reply res)).

(** ** The periodic cleanup and the teardown (lines 327-362, 413-419) *)

Definition connectionExpired (now : Z) (t : ConnectionTracker) : bool :=
  let isExpired := (600000 <? now - c_lastActivity t) && (connections t =? 0) in
  let isBlockExpired := c_isBlocked t && (c_blockUntil t <=? now) in
  isExpired || isBlockExpired.

Definition downloadExpired (now : Z) (t : DownloadTracker) : bool :=
  let isExpired := (1800000 <? now - d_lastActivity t) && (activeDownloads t =? 0) in
  let isBlockExpired := d_isBlocked t && (d_blockUntil t <=? now) in
  isExpired || isBlockExpired.

Definition expiredIps (now : Z) (g : Guard) : list string :=
  (filter (λ p, connectionExpired now p.2 = true) (map_to_list (connectionMap g))).*1.

(** The test of lines 342-345 on the tracker behind a map entry. *)
Definition downloadExpiredAt (now : Z) (g : Guard) (l : nat) : bool :=
  match trackerHeap g !! l with
  | Some t => downloadExpired now t
  | None => false
  end.

Definition expiredDownloadIps (now : Z) (g : Guard) : list string :=
  (filter (λ p, downloadExpiredAt now g p.2 = true) (map_to_list (downloadMap g))).*1.

Definition cleanupExpiredConnections (now : Z) (g : Guard) : Guard :=
  let ips := expiredIps now g in
  let dips := expiredDownloadIps now g in
  with_downloadMap (foldr delete (downloadMap g) dips)
    (with_connectionMap (foldr delete (connectionMap g) ips) g).

(** The interval callback runs only while the interval is scheduled. *)
Definition tick (now : Z) (g : Guard) : Guard :=
  if cleanupInterval g then cleanupExpiredConnections now g else g.

Definition destroy (g : Guard) : Guard :=
  {| connectionMap := ∅; downloadMap := ∅; trackerHeap := trackerHeap g;
     cleanupInterval := false |}.

(** ** The statistics snapshot (lines 364-411) *)

Module Stats.
Record t : Type := mk {
  totalConnections : Z;
  blockedIps : Z;
  activeIps : Z;
  totalDownloads : Z;
  blockedDownloadIps : Z;
  activeDownloadIps : Z;
  slowDownloads : Z
}.
End Stats.

(** [n] plus one when [b] holds: the [if (...) { n++ }] of the loops. *)
Definition count_if (b : bool) (n : Z) : Z := if b then n + 1 else n.

(** The values of [downloadMap]: the trackers its entries refer to. *)
Definition downloadTrackers (g : Guard) : list DownloadTracker :=
  omap (λ p, trackerHeap g !! p.2) (map_to_list (downloadMap g)).

Definition getStats (now : Z) (g : Guard) : Stats.t :=
  let cs := (map_to_list (connectionMap g)).*2 in
  let ds := downloadTrackers g in
  {| Stats.totalConnections := foldr (λ t acc, acc + connections t) 0 cs;
     Stats.blockedIps :=
       foldr (λ t, count_if (c_isBlocked t && (now <? c_blockUntil t))) 0 cs;
     Stats.activeIps := foldr (λ t, count_if (0 <? connections t)) 0 cs;
     Stats.totalDownloads := foldr (λ t acc, acc + activeDownloads t) 0 ds;
     Stats.blockedDownloadIps :=
       foldr (λ t, count_if (d_isBlocked t && (now <? d_blockUntil t))) 0 ds;
     Stats.activeDownloadIps := foldr (λ t, count_if (0 <? activeDownloads t)) 0 ds;
     Stats.slowDownloads := foldr (λ t acc, acc + slowDownloads t) 0 ds |}.

(** ** Arbitrary interleavings of the guard's operations *)

Inductive Op : Type :=
| OpIsIpBlocked (ip : string) (now : Z)
| OpAddConnection (ip : string) (now : Z)
| OpRemoveConnection (ip : string) (now : Z)
| OpRecordTimeout (ip : string) (now : Z)
| OpIsDownloadBlocked (ip : string) (now : Z)
| OpAddDownload (ip : string) (now : Z)
| OpRemoveDownload (ip : string) (now : Z)
| OpWrite (m : DownloadMonitor) (chunk : Chunk) (now : Z)
| OpEnd (m : DownloadMonitor) (chunk : Chunk)
| OpWatchdog (m : DownloadMonitor) (res : Response) (body : Chunk) (now : Z)
| OpMiddleware (req : Request) (now : Z)
| OpCleanup (now : Z)
| OpDestroy.

Definition step (g : Guard) (op : Op) : Guard :=
  match op with
  | OpIsIpBlocked ip now => (isIpBlocked ip now g).2
  | OpAddConnection ip now => addConnection ip now g
  | OpRemoveConnection ip now => removeConnection ip now g
  | OpRecordTimeout ip now => recordTimeout ip now g
  | OpIsDownloadBlocked ip now => (isDownloadBlocked ip now g).2
  | OpAddDownload ip now => addDownload ip now g
  | OpRemoveDownload ip now => removeDownload ip now g
  | OpWrite m chunk now => (res_write chunk now m g fresh_response).1.2
  | OpEnd m chunk => (res_end chunk m g fresh_response).1.2
  | OpWatchdog m res body now => (downloadTimeout_callback now body m g res).1.2
  | OpMiddleware req now => (middleware req now g).2
  | OpCleanup now => cleanupExpiredConnections now g
  | OpDestroy => destroy g
  end.

Definition run (ops : list Op) (g : Guard) : Guard := foldl step g ops.

(** Both counters of every tracker, in the maps or only held by a
    closure, are non-negative. *)
Definition counters_nonneg (g : Guard) : Prop :=
  map_Forall (λ _ t, 0 <= connections t) (connectionMap g)
  ∧ Forall (λ t, 0 <= activeDownloads t) (trackerHeap g).

(** Every reference in [downloadMap] is allocated. *)
Definition heap_wf (g : Guard) : Prop :=
  map_Forall (λ _ l, (l < length (trackerHeap g))%nat) (downloadMap g).

(** ** The request-rate limiter ([SECURITY_CONFIG.RATE_LIMIT]) *)

(** How a middleware leaves a request: it calls [next()] or it replies. *)
Inductive Passage : Type :=
| Continue
| Replied (status : Z).

(** The options of [rateLimit] the server sets that decide who is
    counted (src/config/security.ts, lines 21-39). *)
Record RateLimitOptions : Type := mkRateLimitOptions {
  windowMs : Z;
  max : Z;
  keyGenerator : Request → option string;
  skip : Request → bool;
  handler : Z                        (* the status the handler replies with *)
}.

Definition RATE_LIMIT : RateLimitOptions :=
  {| windowMs := 60 * 1000;
     max := 200;
     keyGenerator := λ req, req_ip req;
     skip := λ req,
       String.prefix "/snapshots/" (req_path req)
       && String.eqb (req_method req) "GET";
     handler := 429 |}.

(** The middleware returned by express-rate-limit, as its documentation
    describes it: a request for which [skip] answers true goes on
    without being counted; any other request adds one hit under its key
    and is handed to [handler] once the hits exceed [max]. *)
Definition rateLimit (o : RateLimitOptions) (req : Request)
    (hits : gmap (option string) Z) : Passage * gmap (option string) Z :=
  if skip o req then (Continue, hits)
  else
    let key := keyGenerator o req in
    let n := default 0 (hits !! key) + 1 in
    (if max o <? n then Replied (handler o) else Continue, <[key := n]> hits).

(** ** The server ([BackupServer], lines 30-56 and 311-344) *)

Inductive Middleware : Type :=
| Helmet
| SlowLorisMiddleware
| Morgan
| Limiter
| JsonParser
| UrlencodedParser
| RequestValidation.

(** The [app.use] calls of [setupMiddleware], in order; line 32 is a
    comment in the source. *)
Definition setupMiddleware : list Middleware :=
  [Helmet; Morgan; Limiter; JsonParser; UrlencodedParser; RequestValidation].

(** [SecurityValidator.isRequestValid] (src/cli/commands.ts, lines 120-133). *)
Definition isRequestValid (req : Request) : bool :=
  match req_userAgent req with
  | None => false
  | Some ua =>
      if String.eqb ua "" || (500 <? Z.of_nat (String.length ua)) then false
      else match req_accept req with
           | Some a =>
               negb (negb (String.eqb a "") && (1000 <? Z.of_nat (String.length a)))
           | None => true
           end
  end.

Record Server : Type := mkServer {
  guard : Guard;
  hits : gmap (option string) Z;
  inflight : list Verdict;   (* admitted requests whose listeners are installed *)
  isShuttingDown : bool;
  exited : option Z          (* the code given to process.exit *)
}.

Definition server_init : Server :=
  {| guard := guard_init; hits := ∅; inflight := [];
     isShuttingDown := false; exited := None |}.

Definition with_guard (g : Guard) (s : Server) : Server :=
  {| guard := g; hits := hits s; inflight := inflight s;
     isShuttingDown := isShuttingDown s; exited := exited s |}.

Definition with_hits (h : gmap (option string) Z) (s : Server) : Server :=
  {| guard := guard s; hits := h; inflight := inflight s;
     isShuttingDown := isShuttingDown s; exited := exited s |}.

Definition with_inflight (l : list Verdict) (s : Server) : Server :=
  {| guard := guard s; hits := hits s; inflight := l;
     isShuttingDown := isShuttingDown s; exited := exited s |}.

Definition with_exited (c : Z) (s : Server) : Server :=
  {| guard := guard s; hits := hits s; inflight := inflight s;
     isShuttingDown := isShuttingDown s; exited := Some c |}.

(** One middleware on one request.  Helmet, morgan and the body parsers
    neither reply nor touch the guard or the limiter; the body parsers
    are taken on a request whose body they accept (a body they refuse
    goes to the error handler and reaches neither the validation nor a
    route). *)
Definition apply_middleware (mw : Middleware) (req : Request) (now : Z) (s : Server)
  : Passage * Server :=
  match mw with
  | Helmet | Morgan | JsonParser | UrlencodedParser => (Continue, s)
  | SlowLorisMiddleware =>
      match middleware req now (guard s) with
      | (Rejected status _, g) => (Replied status, with_guard g s)
      | (v, g) => (Continue, with_inflight (inflight s ++ [v]) (with_guard g s))
      end
  | Limiter =>
      let '(p, h) := rateLimit RATE_LIMIT req (hits s) in (p, with_hits h s)
  | RequestValidation =>
      (if isRequestValid req then Continue else Replied 400, s)
  end.

Fixpoint pipeline (mws : list Middleware) (req : Request) (now : Z) (s : Server)
  : Passage * Server :=
  match mws with
  | [] => (Continue, s)
  | mw :: rest =>
      match apply_middleware mw req now s with
      | (Continue, s') => pipeline rest req now s'
      | replied => replied
      end
  end.

(** The listeners of the [i]-th admitted request, on 'finish' or 'close'. *)
Definition completion (i : nat) (now : Z) (s : Server) : Server :=
  match inflight s !! i with
  | Some (ConnectionAdmitted r) =>
      let '(r', g) := connection_listeners r now (guard s) in
      with_inflight (<[i := ConnectionAdmitted r']> (inflight s)) (with_guard g s)
  | Some (DownloadAdmitted r) =>
      let '(r', g) := download_listeners r now (guard s) in
      with_inflight (<[i := DownloadAdmitted r']> (inflight s)) (with_guard g s)
  | _ => s
  end.

(** [gracefulShutdown] (lines 324-340). *)
Definition gracefulShutdown (s : Server) : Server :=
  if isShuttingDown s then with_exited 1 s
  else {| guard := destroy (guard s); hits := hits s; inflight := inflight s;
          isShuttingDown := true; exited := exited s |}.

Inductive Event : Type :=
| Incoming (req : Request) (now : Z)
| ResponseFinish (i : nat) (now : Z)
| ResponseClose (i : nat) (now : Z)
| CleanupTick (now : Z)
| Signal                  (* SIGTERM or SIGINT *)
| ServerClosed            (* the callback of server.close *)
| ForcedExit.             (* the 5-second timer of gracefulShutdown *)

(** One event of the process built by [new BackupServer(...)] with the
    middleware list [mws]; nothing runs after [process.exit]. *)
Definition server_step (mws : list Middleware) (s : Server) (e : Event) : Server :=
  match exited s with
  | Some _ => s
  | None =>
      match e with
      | Incoming req now => (pipeline mws req now s).2
      | ResponseFinish i now => completion i now s
      | ResponseClose i now => completion i now s
      | CleanupTick now => with_guard (tick now (guard s)) s
      | Signal => gracefulShutdown s
      | ServerClosed => if isShuttingDown s then with_exited 0 s else s
      | ForcedExit => if isShuttingDown s then with_exited 1 s else s
      end
  end.

Definition server_run (mws : list Middleware) (es : list Event) (s : Server) : Server :=
  foldl (server_step mws) s es.

(** What holds of the process at every moment of its life. *)
Definition server_inv (s : Server) : Prop :=
  connectionMap (guard s) = ∅
  ∧ downloadMap (guard s) = ∅
  ∧ inflight s = []
  ∧ (isShuttingDown s = false → exited s = None)
  ∧ (isShuttingDown s = true → cleanupInterval (guard s) = false).

(** ** The sampling rule in the words of the specification *)

(** [transferRate = totalBytesInWindow / elapsedSeconds], the window being
    the time since the previous sample. *)
Definition spec_windowRate (bytesInWindow elapsedMs : Z) : JsNum.t :=
  JsNum.div bytesInWindow (inject_Z elapsedMs / inject_Z 1000)%Q.

(** ** The blocking rule in the words of the specification *)

(** [connections > adaptiveThreshold AND elapsed > gracePeriod AND
    (timeoutRatio > ratioThreshold OR connections > hardCap)] with
    [adaptiveThreshold = min(hardCap, max(baseline, floor(elapsed / rampWindow)))],
    one [hardCap] in both places. *)
Definition spec_shouldBlock (hardCap baseline rampWindow gracePeriod : Z)
    (ratioThreshold : Q) (now : Z) (t : ConnectionTracker) : bool :=
  let elapsed := now - firstConnection t in
  let threshold := Z.min hardCap (Z.max baseline (elapsed / rampWindow)) in
  (threshold <? connections t)
  && (gracePeriod <? elapsed)
  && (Qgtb (ratio (timeoutCount t) (Z.max (requestCount t) 1)) ratioThreshold
      || (hardCap <? connections t)).

(** ** Consistency of the tracker maps *)

(** What every connection tracker stored under [ip] satisfies. *)
Definition connection_tracker_ok (ip : string) (t : ConnectionTracker) : Prop :=
  c_ip t = ip
  ∧ 0 <= connections t <= requestCount t
  ∧ 0 <= timeoutCount t
  ∧ slowConnections t = timeoutCount t
  ∧ (c_isBlocked t = false → c_blockUntil t = 0).

(** What every download tracker object satisfies. *)
Definition download_tracker_ok (t : DownloadTracker) : Prop :=
  0 <= activeDownloads t
  ∧ 0 <= slowDownloads t
  ∧ 0 <= totalBytesTransferred t
  ∧ (d_isBlocked t = false → d_blockUntil t = 0).

Definition guard_ok (g : Guard) : Prop :=
  map_Forall connection_tracker_ok (connectionMap g)
  ∧ Forall download_tracker_ok (trackerHeap g)
  ∧ heap_wf g
  ∧ (∀ ip l t, downloadMap g !! ip = Some l → trackerHeap g !! l = Some t →
               d_ip t = ip).

(** A later state of the same download tracker object: same client, and
    neither cumulative counter smaller. *)
Definition tracker_grows (t t' : DownloadTracker) : Prop :=
  d_ip t' = d_ip t
  ∧ totalBytesTransferred t <= totalBytesTransferred t'
  ∧ slowDownloads t <= slowDownloads t'.

(** ** File names: [SecurityValidator] (src/cli/commands.ts, lines 55-118)
       and the file-name fields of [SECURITY_CONFIG] *)

(** A JavaScript string is modelled by a [string] whose characters are
    its code units, taken below 256; [chars] lists them in order and
    [String.length] is the [.length] of the source. *)
Definition chars (s : string) : list ascii := list_ascii_of_string s.

Definition inRange (lo hi : N) (c : ascii) : bool :=
  ((lo <=? N_of_ascii c) && (N_of_ascii c <=? hi))%N.

Definition isDigit (c : ascii) : bool := inRange 48 57 c.
Definition isUpper (c : ascii) : bool := inRange 65 90 c.
Definition isLower (c : ascii) : bool := inRange 97 122 c.

(** The character class [[a-zA-Z0-9._-]]. *)
Definition filenameChar (c : ascii) : bool :=
  isLower c || isUpper c || isDigit c
  || Ascii.eqb c "."%char || Ascii.eqb c "_"%char || Ascii.eqb c "-"%char.

(** Regular expressions without back-references, and whether one matches
    a whole string: what [re.test(s)] computes for a pattern written
    between [^] and [$].  The matcher takes derivatives character by
    character. *)
Inductive Regex : Type :=
| RNone
| REps
| RChar (c : ascii)
| RClass (p : ascii → bool)
| RSeq (r1 r2 : Regex)
| RAlt (r1 r2 : Regex)
| RStar (r : Regex).

Definition RPlus (r : Regex) : Regex := RSeq r (RStar r).

Fixpoint RLit (w : list ascii) : Regex :=
  match w with
  | [] => REps
  | c :: w' => RSeq (RChar c) (RLit w')
  end.

Fixpoint nullable (r : Regex) : bool :=
  match r with
  | RNone => false
  | REps => true
  | RChar _ => false
  | RClass _ => false
  | RSeq r1 r2 => nullable r1 && nullable r2
  | RAlt r1 r2 => nullable r1 || nullable r2
  | RStar _ => true
  end.

Fixpoint deriv (c : ascii) (r : Regex) : Regex :=
  match r with
  | RNone => RNone
  | REps => RNone
  | RChar d => if Ascii.eqb c d then REps else RNone
  | RClass p => if p c then REps else RNone
  | RSeq r1 r2 =>
      if nullable r1 then RAlt (RSeq (deriv c r1) r2) (deriv c r2)
      else RSeq (deriv c r1) r2
  | RAlt r1 r2 => RAlt (deriv c r1) (deriv c r2)
  | RStar r1 => RSeq (deriv c r1) (RStar r1)
  end.

Definition test_chars (r : Regex) (l : list ascii) : bool :=
  nullable (foldl (λ r c, deriv c r) r l).

Definition test (r : Regex) (s : string) : bool := test_chars r (chars s).

(** The strings a regular expression denotes. *)
Inductive matches : Regex → list ascii → Prop :=
| MEps : matches REps []
| MChar c : matches (RChar c) [c]
| MClass (p : ascii → bool) c : p c = true → matches (RClass p) [c]
| MSeq r1 r2 l1 l2 :
    matches r1 l1 → matches r2 l2 → matches (RSeq r1 r2) (l1 ++ l2)
| MAltL r1 r2 l : matches r1 l → matches (RAlt r1 r2) l
| MAltR r1 r2 l : matches r2 l → matches (RAlt r1 r2) l
| MStarNil r : matches (RStar r) []
| MStarApp r l1 l2 :
    matches r l1 → matches (RStar r) l2 → matches (RStar r) (l1 ++ l2).

(** [/^[a-zA-Z0-9._-]+\.(gz|tar\.gz|header\.json)$/]
    (src/config/security.ts, line 87). *)
Definition FILENAME_REGEX : Regex :=
  RSeq (RPlus (RClass filenameChar))
    (RSeq (RChar "."%char)
       (RAlt (RLit (chars "gz"))
          (RAlt (RLit (chars "tar.gz")) (RLit (chars "header.json"))))).

Definition MAX_FILENAME_LENGTH : Z := 255.
Definition ALLOWED_EXTENSIONS : list string := [".gz"; ".tar.gz"].
Definition ALLOWED_MIME_TYPES : list string :=
  ["application/gzip"; "application/octet-stream"; "application/json"].

(** [s.startsWith(x)], [s.endsWith(x)] and [s.includes(x)] on code units. *)
Fixpoint startsWith_chars (x l : list ascii) : bool :=
  match x, l with
  | [], _ => true
  | _ :: _, [] => false
  | a :: x', b :: l' => Ascii.eqb a b && startsWith_chars x' l'
  end.

Definition endsWith_chars (x l : list ascii) : bool :=
  startsWith_chars (rev x) (rev l).

Fixpoint includes_chars (x l : list ascii) : bool :=
  startsWith_chars x l
  || match l with
     | [] => false
     | _ :: l' => includes_chars x l'
     end.

Definition endsWith (s x : string) : bool := endsWith_chars (chars x) (chars s).
Definition includes (s x : string) : bool := includes_chars (chars x) (chars s).

(** [c.toLowerCase()] of one code unit below 256: the letters A-Z, and
    the Latin-1 capitals 192-222 other than the multiplication sign 215,
    move up by 32; nothing else changes. *)
Definition lowerChar (c : ascii) : ascii :=
  let n := N_of_ascii c in
  if isUpper c || (inRange 192 222 c && negb (n =? 215)%N)
  then ascii_of_N (n + 32)
  else c.

Definition toLowerCase (s : string) : string :=
  string_of_list_ascii (map lowerChar (chars s)).

(** Lines 56-60. *)
Definition isValidFileExtension (filename : string) : bool :=
  existsb (λ allowed, endsWith (toLowerCase filename) allowed) ALLOWED_EXTENSIONS.

Definition dangerousChars : list string :=
  [".."; "\"; "/"; ":"; "*"; "?"; String (ascii_of_N 34) EmptyString; "<"; ">"; "|"].

(** Lines 62-73. *)
Definition isValidFilename (filename : string) : bool :=
  if String.eqb filename ""
     || (MAX_FILENAME_LENGTH <? Z.of_nat (String.length filename))
  then false
  else if negb (test FILENAME_REGEX filename) then false
  else negb (existsb (λ char, includes filename char) dangerousChars).

(** Lines 75-82.  [path.extname] is Node's; the model takes it as an
    argument.  It returns either the empty string or a string that
    starts with a dot, so a lookup in the object literal never reaches
    an inherited property. *)
Definition getMimeType (extname : string → string) (filename : string) : string :=
  let ext := toLowerCase (extname filename) in
  if String.eqb ext ".gz" then "application/gzip"
  else if String.eqb ext ".tar.gz" then "application/gzip"
  else "application/octet-stream".

(** Lines 111-114. *)
Definition validateMimeType (extname : string → string) (filename : string) : bool :=
  existsb (String.eqb (getMimeType extname filename)) ALLOWED_MIME_TYPES.

(** Lines 116-118: [filename.replace(/[^a-zA-Z0-9._-]/g, '')]. *)
Definition sanitizeFilename (filename : string) : string :=
  string_of_list_ascii (List.filter filenameChar (chars filename)).

(** ** The checks of the download route that do not touch the disk
       (src/services/BackupServer.ts, lines 129-152) *)

(** [Some error]: the route answers 400 with this message;
    [None]: it goes on to the checks on the file itself. *)
Definition snapshotRoute_checks (extname : string → string) (fileName : string)
  : option string :=
  if negb (isValidFilename fileName) then
    Some "Invalid filename format. Only alphanumeric characters, dots, underscores, and hyphens are allowed."
  else if negb (isValidFileExtension fileName) then
    Some "Invalid file type. Only backup files (.gz, .tar.gz) are allowed."
  else if negb (validateMimeType extname fileName) then
    Some "Invalid file type."
  else None.

(** The same for the header route (lines 59-80), on the route parameter
    (the part of the last path segment before [.header.json]). *)
Definition headerRoute_checks (fileName : string) : option string :=
  if negb (isValidFilename fileName) then
    Some "Invalid filename format."
  else if negb (existsb (λ ext, endsWith (toLowerCase fileName) ext) ALLOWED_EXTENSIONS) then
    Some "Invalid file type. Only backup files (.gz, .tar.gz) are allowed."
  else None.

(** ** [extractBlockId] (src/services/BackupServer.ts, lines 352-355) *)

(** The longest run of digits at the head of [l], and what follows it. *)
Fixpoint spanDigits (l : list ascii) : list ascii * list ascii :=
  match l with
  | c :: l' =>
      if isDigit c then let '(ds, rest) := spanDigits l' in (c :: ds, rest)
      else ([], l)
  | [] => ([], [])
  end.

Fixpoint dropPrefix (x l : list ascii) : option (list ascii) :=
  match x, l with
  | [], _ => Some l
  | _ :: _, [] => None
  | a :: x', b :: l' => if Ascii.eqb a b then dropPrefix x' l' else None
  end.

(** A match of [snapshot_(\d+)_] that starts at the head of [l]: the
    greedy [\d+] takes the whole run of digits, and giving digits back
    cannot help, since what follows a shorter run is a digit, not [_]. *)
Definition matchHere (l : list ascii) : option (list ascii) :=
  match dropPrefix (chars "snapshot_") l with
  | Some rest =>
      match spanDigits rest with
      | ((_ :: _) as ds, c :: _) => if Ascii.eqb c "_"%char then Some ds else None
      | _ => None
      end
  | None => None
  end.

(** [filename.match(/snapshot_(\d+)_/)]: the leftmost match; the result
    is the first capture group. *)
Fixpoint matchFirst (l : list ascii) : option (list ascii) :=
  match matchHere l with
  | Some ds => Some ds
  | None =>
      match l with
      | [] => None
      | _ :: l' => matchFirst l'
      end
  end.

(** [parseInt(ds, 10)] on a non-empty string of digits: its value in
    base ten (exact as a JavaScript number below 2^53). *)
Definition digitValue (c : ascii) : Z := Z.of_N (N_of_ascii c) - 48.

Definition decimalValue (ds : list ascii) : Z :=
  foldl (λ acc c, 10 * acc + digitValue c) 0 ds.

Definition extractBlockId (filename : string) : Z :=
  match matchFirst (chars filename) with
  | Some ds => decimalValue ds
  | None => 0
  end.

(** ** Command line (class [CLI], lines 21-49) *)

(** [args.indexOf(x)]. *)
Fixpoint indexOf_from (x : string) (args : list string) (i : Z) : Z :=
  match args with
  | [] => -1
  | a :: args' => if String.eqb a x then i else indexOf_from x args' (i + 1)
  end.

Definition indexOf (args : list string) (x : string) : Z := indexOf_from x args 0.

(** [a || b] on two results of [indexOf]: [0] is the only falsy one. *)
Definition index_or (a b : Z) : Z := if a =? 0 then b else a.

(** [args[i]]. *)
Definition at_index (args : list string) (i : Z) : option string :=
  if i <? 0 then None else args !! Z.to_nat i.

(** [parseInt] is the language's; the model takes it as an argument,
    [None] standing for NaN. *)
Definition parsePort (parseInt : string → option Z)
    (env_PORT : option string) (args : list string) : option Z :=
  let portIndex := index_or (indexOf args "-p") (indexOf args "--port") in
  let fromEnv := parseInt (or_else env_PORT "3000") in
  if negb (portIndex =? -1) && (portIndex + 1 <? Z.of_nat (length args)) then
    match at_index args (portIndex + 1) with
    | Some a =>
        match parseInt a with
        | Some port => if (0 <? port) && (port <=? 65535) then Some port else fromEnv
        | None => fromEnv
        end
    | None => fromEnv
    end
  else fromEnv.

Definition parseDownloadRate (parseInt : string → option Z)
    (args : list string) : Z :=
  let rateIndex := index_or (indexOf args "-r") (indexOf args "--rate") in
  if negb (rateIndex =? -1) && (rateIndex + 1 <? Z.of_nat (length args)) then
    match at_index args (rateIndex + 1) with
    | Some a =>
        match parseInt a with
        | Some rate => if 0 <? rate then rate * 1024 * 1024 else 1024 * 1024
        | None => 1024 * 1024
        end
    | None => 1024 * 1024
    end
  else 1024 * 1024.

Definition parseHost (env_HOST : option string) (args : list string) : string :=
  let hostIndex := index_or (indexOf args "-H") (indexOf args "--host") in
  if negb (hostIndex =? -1) && (hostIndex + 1 <? Z.of_nat (length args)) then
    match at_index args (hostIndex + 1) with
    | Some a => a
    | None => or_else env_HOST "localhost"
    end
  else or_else env_HOST "localhost".

(** A [parseInt] for the examples: the value of a string of digits. *)
Definition parseDigits (s : string) : option Z :=
  match chars s with
  | [] => None
  | l => if forallb isDigit l then Some (decimalValue l) else None
  end.

(** ** Concrete inputs used by the examples *)

(** A GET request as a client such as curl sends it. *)
Definition get (ip path : string) : Request :=
  {| req_ip := Some ip; req_remoteAddress := None; req_path := path;
     req_method := "GET"; req_userAgent := Some "curl/8.0"; req_accept := None |}.

(** The closure variables of the first download of a client, set up at
    time 0 in the initial state. *)
Definition first_monitor : DownloadMonitor :=
  {| m_tracker := 0; bytesTransferred := 0; startTime := 0;
     downloadTimeout := Armed (0 + MAX_DOWNLOAD_DURATION) |}.

(** A download that has delivered 128000 bytes after 2000 seconds:
    64 bytes per second. *)
Definition trickle : DownloadMonitor * Guard * Response :=
  res_write (Buf 128000) 2000000 first_monitor
    (middleware (get "10.0.0.1" "/snapshots/snapshot_1.gz") 0 guard_init).2
    fresh_response.

(** A download that delivers 1000 bytes in its first two seconds and 100
    bytes in the next two. *)
Definition first_sample : DownloadMonitor * Guard * Response :=
  res_write (Buf 1000) 2000 first_monitor
    (middleware (get "10.0.0.1" "/snapshots/snapshot_1.gz") 0 guard_init).2
    fresh_response.

Definition second_sample : DownloadMonitor * Guard * Response :=
  res_write (Buf 100) 4000 first_sample.1.1 first_sample.1.2 first_sample.2.

(** A connection tracker with one open connection, idle since time 0. *)
Definition idle_since_1970 : ConnectionTracker :=
  {| c_ip := "10.0.0.1"; connections := 1; slowConnections := 0;
     c_lastActivity := 0; c_isBlocked := false; c_blockUntil := 0;
     firstConnection := 0; requestCount := 1; timeoutCount := 0 |}.

(** * Properties *)

(** ** Basic facts about the object store *)

Lemma downloadRef_Some ip g l t :
  downloadRef ip g = Some (l, t) →
  downloadMap g !! ip = Some l ∧ trackerHeap g !! l = Some t.
Proof.
  unfold downloadRef. intros H.
  destruct (downloadMap g !! ip) as [l'|]; [|discriminate].
  destruct (trackerHeap g !! l') as [t'|] eqn:E; [|discriminate].
  by simplify_eq.
Qed.

Lemma downloadRef_intro ip g l t :
  downloadMap g !! ip = Some l → trackerHeap g !! l = Some t →
  downloadRef ip g = Some (l, t).
Proof. unfold downloadRef. by intros -> ->. Qed.

Lemma downloadTracker_ref ip g t :
  downloadTracker ip g = Some t ↔ ∃ l, downloadRef ip g = Some (l, t).
Proof.
  unfold downloadTracker, downloadRef. split.
  - destruct (downloadMap g !! ip) as [l|]; [|done].
    intros ->. by exists l.
  - intros [l H]. destruct (downloadMap g !! ip) as [l'|]; [|done].
    destruct (trackerHeap g !! l'); by simplify_eq.
Qed.

Lemma store_lookup l t g t0 :
  trackerHeap g !! l = Some t0 → trackerHeap (store l t g) !! l = Some t.
Proof.
  intros H. unfold store; simpl.
  apply list_lookup_insert_eq. by eapply lookup_lt_Some.
Qed.

Lemma store_downloadRef ip l t g t0 :
  downloadRef ip g = Some (l, t0) → downloadRef ip (store l t g) = Some (l, t).
Proof.
  intros [Hm Hh]%downloadRef_Some.
  apply downloadRef_intro; [done|]. by eapply store_lookup.
Qed.

(** ** Non-negative counters *)

Section Counters.

Lemma store_counters l t g :
  counters_nonneg g → 0 <= activeDownloads t → counters_nonneg (store l t g).
Proof.
  intros [Hc Hd] Ht. split; simpl; [done|]. by apply Forall_insert.
Qed.

Lemma insert_counters ip t g :
  counters_nonneg g → 0 <= connections t →
  counters_nonneg (with_connectionMap (<[ip := t]> (connectionMap g)) g).
Proof.
  intros [Hc Hd] Ht. split; simpl; [|done]. by apply map_Forall_insert_2.
Qed.

Lemma lookup_connections g ip t :
  counters_nonneg g → connectionMap g !! ip = Some t → 0 <= connections t.
Proof. intros [Hc _] H. exact (Hc ip t H). Qed.

Lemma lookup_activeDownloads g l t :
  counters_nonneg g → trackerHeap g !! l = Some t → 0 <= activeDownloads t.
Proof. intros [_ Hd] H. exact (Forall_lookup_1 _ _ _ _ Hd H). Qed.

Lemma isIpBlocked_counters ip now g :
  counters_nonneg g → counters_nonneg (isIpBlocked ip now g).2.
Proof.
  intros Hg. unfold isIpBlocked.
  destruct (connectionMap g !! ip) as [t|] eqn:E; [|done].
  repeat case_match; simpl; try done.
  apply insert_counters; [done|]. simpl. by eapply lookup_connections.
Qed.

Lemma addConnection_tracker_connections now t :
  connections (addConnection_tracker now t) = connections t + 1.
Proof. unfold addConnection_tracker. by case_match. Qed.

Lemma addConnection_counters ip now g :
  counters_nonneg g → counters_nonneg (addConnection ip now g).
Proof.
  intros Hg. unfold addConnection. apply insert_counters; [done|].
  rewrite addConnection_tracker_connections.
  destruct (connectionMap g !! ip) as [t|] eqn:E; simpl; [|lia].
  pose proof (lookup_connections _ _ _ Hg E). lia.
Qed.

Lemma removeConnection_counters ip now g :
  counters_nonneg g → counters_nonneg (removeConnection ip now g).
Proof.
  intros Hg. unfold removeConnection.
  destruct (connectionMap g !! ip) as [t|] eqn:E; [|done].
  destruct (0 <? connections t) eqn:Hpos; [|done].
  apply insert_counters; [done|]. simpl. apply Z.ltb_lt in Hpos. lia.
Qed.

Lemma recordTimeout_counters ip now g :
  counters_nonneg g → counters_nonneg (recordTimeout ip now g).
Proof.
  intros Hg. unfold recordTimeout.
  destruct (connectionMap g !! ip) as [t|] eqn:E; [|done].
  apply insert_counters; [done|].
  pose proof (lookup_connections _ _ _ Hg E). by case_match.
Qed.

Lemma isDownloadBlocked_counters ip now g :
  counters_nonneg g → counters_nonneg (isDownloadBlocked ip now g).2.
Proof.
  intros Hg. unfold isDownloadBlocked.
  destruct (downloadRef ip g) as [[l t]|] eqn:E; [|done].
  apply downloadRef_Some in E as [_ E].
  repeat case_match; simpl; try done.
  apply store_counters; [done|]. simpl. by eapply lookup_activeDownloads.
Qed.

Lemma addDownload_tracker_activeDownloads now t :
  activeDownloads (addDownload_tracker now t) = activeDownloads t + 1.
Proof. unfold addDownload_tracker. by case_match. Qed.

Lemma addDownload_counters ip now g :
  counters_nonneg g → counters_nonneg (addDownload ip now g).
Proof.
  intros Hg. unfold addDownload.
  destruct (downloadRef ip g) as [[l t]|] eqn:E.
  - apply downloadRef_Some in E as [_ E].
    apply store_counters; [done|].
    rewrite addDownload_tracker_activeDownloads.
    pose proof (lookup_activeDownloads _ _ _ Hg E). lia.
  - destruct Hg as [Hc Hd]. split; simpl; [done|].
    apply Forall_app. split; [done|].
    constructor; [|constructor].
    by rewrite addDownload_tracker_activeDownloads.
Qed.

Lemma removeDownload_counters ip now g :
  counters_nonneg g → counters_nonneg (removeDownload ip now g).
Proof.
  intros Hg. unfold removeDownload.
  destruct (downloadRef ip g) as [[l t]|] eqn:E; [|done].
  destruct (0 <? activeDownloads t) eqn:Hpos; [|done].
  apply store_counters; [done|]. simpl. apply Z.ltb_lt in Hpos. lia.
Qed.

Lemma sample_activeDownloads len bytes now start t :
  activeDownloads (sample len bytes now start t) = activeDownloads t.
Proof. unfold sample. by repeat case_match. Qed.

Lemma res_write_counters chunk now m g res :
  counters_nonneg g → counters_nonneg (res_write chunk now m g res).1.2.
Proof.
  intros Hg. unfold res_write. destruct chunk; simpl; try done.
  destruct (trackerHeap g !! m_tracker m) as [t|] eqn:E; [|done].
  apply store_counters; [done|]. rewrite sample_activeDownloads.
  by eapply lookup_activeDownloads.
Qed.

Lemma res_end_counters chunk m g res :
  counters_nonneg g → counters_nonneg (res_end chunk m g res).1.2.
Proof.
  intros Hg. unfold res_end. destruct chunk; simpl; try done.
  destruct (trackerHeap g !! m_tracker m) as [t|] eqn:E; [|done].
  apply store_counters; [done|]. simpl. by eapply lookup_activeDownloads.
Qed.

Lemma downloadTimeout_callback_counters now body m g res :
  counters_nonneg g →
  counters_nonneg (downloadTimeout_callback now body m g res).1.2.
Proof.
  intros Hg. unfold downloadTimeout_callback.
  destruct (trackerHeap g !! m_tracker m) as [t|] eqn:E; [|done].
  destruct (JsNum.ltb (transferRate t) MIN_TRANSFER_RATE); [|done].
  assert (counters_nonneg
            (store (m_tracker m) (set_d_block true (now + BLOCK_DURATION) t) g)) as Hg1.
  { apply store_counters; [done|]. simpl. by eapply lookup_activeDownloads. }
  destruct (negb (headersSent res)).
  - unfold res_status_json.
    pose proof (res_end_counters body m _ (set_status 408 res) Hg1) as H2.
    destruct (res_end body m _ (set_status 408 res)) as [[m2 g2] res2].
    by apply res_end_counters.
  - by apply res_end_counters.
Qed.

Lemma cleanup_counters now g :
  counters_nonneg g → counters_nonneg (cleanupExpiredConnections now g).
Proof.
  intros [Hc Hd]. split; simpl; [|done]. by apply map_Forall_foldr_delete.
Qed.

Lemma destroy_counters g : counters_nonneg g → counters_nonneg (destroy g).
Proof. intros [Hc Hd]. split; simpl; [apply map_Forall_empty|done]. Qed.

Lemma middleware_counters req now g :
  counters_nonneg g → counters_nonneg (middleware req now g).2.
Proof.
  intros Hg. unfold middleware, handleDownloadProtection.
  destruct (isSnapshotGet req).
  - pose proof (isDownloadBlocked_counters (clientIp req) now g Hg) as H1.
    destruct (isDownloadBlocked (clientIp req) now g) as [[] g1]; simpl in *;
      [done|]. by apply addDownload_counters.
  - pose proof (isIpBlocked_counters (clientIp req) now g Hg) as H1.
    destruct (isIpBlocked (clientIp req) now g) as [[] g1]; simpl in *;
      [done|]. by apply addConnection_counters.
Qed.

Lemma step_counters g op : counters_nonneg g → counters_nonneg (step g op).
Proof.
  intros Hg. destruct op; simpl;
    eauto using isIpBlocked_counters, addConnection_counters,
      removeConnection_counters, recordTimeout_counters,
      isDownloadBlocked_counters, addDownload_counters,
      removeDownload_counters, res_write_counters, res_end_counters,
      downloadTimeout_callback_counters, middleware_counters,
      cleanup_counters, destroy_counters.
Qed.

Lemma run_counters ops g : counters_nonneg g → counters_nonneg (run ops g).
Proof.
  revert g. induction ops as [|op ops IH]; intros g Hg; [done|].
  simpl. apply IH. by apply step_counters.
Qed.

Lemma guard_init_counters : counters_nonneg guard_init.
Proof. split; simpl; [apply map_Forall_empty|constructor]. Qed.

Lemma sum_nonneg {A} (f : A → Z) (l : list A) :
  Forall (λ x, 0 <= f x) l → 0 <= foldr (λ x acc, acc + f x) 0 l.
Proof. induction 1 as [|x l Hx _ IH]; simpl; lia. Qed.

Lemma getStats_totals now g :
  counters_nonneg g →
  0 <= Stats.totalConnections (getStats now g)
  ∧ 0 <= Stats.totalDownloads (getStats now g).
Proof.
  intros [Hc Hd]. split; simpl; apply sum_nonneg.
  - apply Forall_fmap, Forall_forall. intros [ip t] Hin.
    apply elem_of_map_to_list in Hin. exact (Hc ip t Hin).
  - apply Forall_forall. intros t Hin. unfold downloadTrackers in Hin.
    apply list_elem_of_omap in Hin as ([ip l] & _ & Hl). simpl in Hl.
    exact (Forall_lookup_1 _ _ _ _ Hd Hl).
Qed.

End Counters.

(** C7: along every interleaving of the guard's operations from the
    initial state (registers, unregisters in any number and order,
    timeouts, samples, watchdogs, cleanups), [connections] of every
    connection tracker and [activeDownloads] of every download tracker,
    whether reached through the map or only held by a closure, is at
    least 0, and so are the totals reported by [getStats]. *)
Theorem counters_never_negative (ops : list Op) :
  let g := run ops guard_init in
  (∀ ip t, connectionMap g !! ip = Some t → 0 <= connections t)
  ∧ (∀ ip t, downloadTracker ip g = Some t → 0 <= activeDownloads t)
  ∧ (∀ l t, trackerHeap g !! l = Some t → 0 <= activeDownloads t)
  ∧ (∀ now, 0 <= Stats.totalConnections (getStats now g)
            ∧ 0 <= Stats.totalDownloads (getStats now g)).
Proof.
  intros g.
  assert (counters_nonneg g) as Hg by apply run_counters, guard_init_counters.
  split; [|split; [|split]].
  - intros ip t. by apply lookup_connections.
  - intros ip t [l [_ H]%downloadRef_Some]%downloadTracker_ref.
    by eapply lookup_activeDownloads.
  - intros l t. by apply lookup_activeDownloads.
  - intros now. by apply getStats_totals.
Qed.

Lemma counters_never_negative_witness :
  ∃ t, connectionMap
         (run [OpAddConnection "10.0.0.1" 0; OpRemoveConnection "10.0.0.1" 5;
               OpRemoveConnection "10.0.0.1" 6; OpRemoveConnection "10.0.0.2" 7]
              guard_init) !! "10.0.0.1" = Some t
       ∧ 0 <= connections t.
Proof.
  eexists. split; [vm_compute; reflexivity|].
  eapply (proj1 (counters_never_negative
                   [OpAddConnection "10.0.0.1" 0; OpRemoveConnection "10.0.0.1" 5;
                    OpRemoveConnection "10.0.0.1" 6; OpRemoveConnection "10.0.0.2" 7])
                "10.0.0.1").
  vm_compute; reflexivity.
Defined.

(** ** The periodic cleanup *)

Lemma elem_of_expiredIps now g ip :
  ip ∈ expiredIps now g ↔
  ∃ t, connectionMap g !! ip = Some t ∧ connectionExpired now t = true.
Proof.
  unfold expiredIps. rewrite list_elem_of_fmap. split.
  - intros [[ip' t] [-> [Hexp Hin]%list_elem_of_filter]].
    apply elem_of_map_to_list in Hin. by exists t.
  - intros [t [Hl Hexp]]. exists (ip, t). split; [done|].
    apply list_elem_of_filter. split; [done|]. by apply elem_of_map_to_list.
Qed.

Lemma elem_of_expiredDownloadIps now g ip :
  ip ∈ expiredDownloadIps now g ↔
  ∃ l, downloadMap g !! ip = Some l ∧ downloadExpiredAt now g l = true.
Proof.
  unfold expiredDownloadIps. rewrite list_elem_of_fmap. split.
  - intros [[ip' l] [-> [Hexp Hin]%list_elem_of_filter]].
    apply elem_of_map_to_list in Hin. by exists l.
  - intros [l [Hl Hexp]]. exists (ip, l). split; [done|].
    apply list_elem_of_filter. split; [done|]. by apply elem_of_map_to_list.
Qed.

(** What the sweep does to one connection entry. *)
Lemma cleanup_connection_lookup now g ip t :
  connectionMap g !! ip = Some t →
  connectionMap (cleanupExpiredConnections now g) !! ip
  = if connectionExpired now t then None else Some t.
Proof.
  intros Hl. simpl. destruct (connectionExpired now t) eqn:Hexp.
  - apply lookup_foldr_delete, elem_of_expiredIps. by exists t.
  - rewrite lookup_foldr_delete_not_elem_of; [done|].
    intros [t' [Hl' Hexp']]%elem_of_expiredIps. congruence.
Qed.

(** What the sweep does to one download entry. *)
Lemma cleanup_download_lookup now g ip l t :
  downloadRef ip g = Some (l, t) →
  downloadMap (cleanupExpiredConnections now g) !! ip
  = if downloadExpired now t then None else Some l.
Proof.
  intros [Hm Hh]%downloadRef_Some. simpl.
  assert (downloadExpiredAt now g l = downloadExpired now t) as Hat
    by (unfold downloadExpiredAt; by rewrite Hh).
  destruct (downloadExpired now t) eqn:Hexp.
  - apply lookup_foldr_delete, elem_of_expiredDownloadIps. by exists l.
  - rewrite lookup_foldr_delete_not_elem_of; [done|].
    intros [l' [Hl' Hexp']]%elem_of_expiredDownloadIps. congruence.
Qed.

Lemma cleanup_trackerHeap now g :
  trackerHeap (cleanupExpiredConnections now g) = trackerHeap g.
Proof. done. Qed.

Lemma connectionExpired_true now t :
  connectionExpired now t = true ↔
  (600000 < now - c_lastActivity t ∧ connections t = 0)
  ∨ (c_isBlocked t = true ∧ c_blockUntil t <= now).
Proof.
  unfold connectionExpired.
  rewrite orb_true_iff, !andb_true_iff, Z.ltb_lt, Z.eqb_eq, Z.leb_le. tauto.
Qed.

Lemma downloadExpired_true now t :
  downloadExpired now t = true ↔
  (1800000 < now - d_lastActivity t ∧ activeDownloads t = 0)
  ∨ (d_isBlocked t = true ∧ d_blockUntil t <= now).
Proof.
  unfold downloadExpired.
  rewrite orb_true_iff, !andb_true_iff, Z.ltb_lt, Z.eqb_eq, Z.leb_le. tauto.
Qed.

(** A scheduled tick removes an entry exactly on the test of the source. *)
Lemma tick_removes_iff now g :
  cleanupInterval g = true →
  (∀ ip t, connectionMap g !! ip = Some t →
     connectionMap (tick now g) !! ip = None ↔
     (600000 < now - c_lastActivity t ∧ connections t = 0)
     ∨ (c_isBlocked t = true ∧ c_blockUntil t <= now))
  ∧ (∀ ip l t, downloadRef ip g = Some (l, t) →
     downloadMap (tick now g) !! ip = None ↔
     (1800000 < now - d_lastActivity t ∧ activeDownloads t = 0)
     ∨ (d_isBlocked t = true ∧ d_blockUntil t <= now)).
Proof.
  intros Hint. unfold tick. rewrite Hint. split.
  - intros ip t Hl. rewrite (cleanup_connection_lookup _ _ _ _ Hl).
    rewrite <- connectionExpired_true. by destruct (connectionExpired now t).
  - intros ip l t Hl. rewrite (cleanup_download_lookup _ _ _ _ _ Hl).
    rewrite <- downloadExpired_true. by destruct (downloadExpired now t).
Qed.

(** C1 (as the code has it): a tick removes an entry of either map only
    when its active-unit counter is 0 or the entry is blocked and its
    block has lapsed ([isBlocked] and [now >= blockUntil]); an entry with
    a positive counter that is not blocked, or whose block has not
    lapsed, is kept unchanged by every tick, however old its
    [lastActivity] is. *)
Theorem tick_keeps_active_unless_block_lapsed (now : Z) (g : Guard) :
  (∀ ip t, connectionMap g !! ip = Some t →
     connectionMap (tick now g) !! ip = None →
     connections t = 0 ∨ (c_isBlocked t = true ∧ c_blockUntil t <= now))
  ∧ (∀ ip t, connectionMap g !! ip = Some t →
     0 < connections t →
     ¬ (c_isBlocked t = true ∧ c_blockUntil t <= now) →
     connectionMap (tick now g) !! ip = Some t)
  ∧ (∀ ip l t, downloadRef ip g = Some (l, t) →
     downloadMap (tick now g) !! ip = None →
     activeDownloads t = 0 ∨ (d_isBlocked t = true ∧ d_blockUntil t <= now))
  ∧ (∀ ip l t, downloadRef ip g = Some (l, t) →
     0 < activeDownloads t →
     ¬ (d_isBlocked t = true ∧ d_blockUntil t <= now) →
     downloadRef ip (tick now g) = Some (l, t)).
Proof.
  unfold tick. destruct (cleanupInterval g).
  - split; [|split; [|split]].
    + intros ip t Hl. rewrite (cleanup_connection_lookup _ _ _ _ Hl).
      destruct (connectionExpired now t) eqn:E; [|done].
      apply connectionExpired_true in E. tauto.
    + intros ip t Hl Hpos Hnb. rewrite (cleanup_connection_lookup _ _ _ _ Hl).
      destruct (connectionExpired now t) eqn:E; [|done].
      apply connectionExpired_true in E. destruct E as [[_ E]|E]; [lia|done].
    + intros ip l t Hl. rewrite (cleanup_download_lookup _ _ _ _ _ Hl).
      destruct (downloadExpired now t) eqn:E; [|done].
      apply downloadExpired_true in E. tauto.
    + intros ip l t Hl Hpos Hnb.
      pose proof (cleanup_download_lookup now _ _ _ _ Hl) as Hc.
      destruct (downloadExpired now t) eqn:E.
      * apply downloadExpired_true in E. destruct E as [[_ E]|E]; [lia|done].
      * apply downloadRef_Some in Hl as [_ Hh]. by apply downloadRef_intro.
  - split; [|split; [|split]]; try done.
    + intros ip t Hl. by rewrite Hl.
    + intros ip l t [Hm _]%downloadRef_Some. by rewrite Hm.
Qed.

Lemma tick_keeps_active_unless_block_lapsed_witness :
  connectionMap
    (tick 999999999 (with_connectionMap {[ "10.0.0.1" := idle_since_1970 ]} guard_init))
    !! "10.0.0.1" = Some idle_since_1970.
Proof.
  apply (proj1 (proj2 (tick_keeps_active_unless_block_lapsed 999999999
           (with_connectionMap {[ "10.0.0.1" := idle_since_1970 ]} guard_init)))).
  - vm_compute; reflexivity.
  - simpl; lia.
  - simpl. intros [H _]. discriminate.
Defined.

(** C1, as stated, fails: a client blocked on its 51st connection (after
    the grace period) still has 51 open connections when its block lapses
    ten minutes later, and the tick at that instant deletes its entry;
    likewise for a client blocked on its 6th download. *)
Lemma tick_removes_entry_with_open_connections :
  let g := run (OpAddConnection "10.0.0.1" 0
                :: replicate 50 (OpAddConnection "10.0.0.1" 40000)) guard_init in
  let d := run (replicate 6 (OpAddDownload "10.0.0.1" 0)) guard_init in
  (∃ t, connectionMap g !! "10.0.0.1" = Some t ∧ connections t = 51)
  ∧ connectionMap (tick 640000 g) !! "10.0.0.1" = None
  ∧ (∃ t, downloadTracker "10.0.0.1" d = Some t ∧ activeDownloads t = 6)
  ∧ downloadMap (tick 300000 d) !! "10.0.0.1" = None.
Proof.
  intros g d. split; [|split; [|split]].
  - eexists. split; vm_compute; reflexivity.
  - vm_compute; reflexivity.
  - eexists. split; vm_compute; reflexivity.
  - vm_compute; reflexivity.
Qed.

(** ** The blocking rule of a register *)

Lemma Qgtb_true a r : Qgtb a r = true ↔ (r < a)%Q.
Proof.
  unfold Qgtb. rewrite negb_true_iff. split.
  - intros H. apply Qnot_le_lt. intros Hle.
    apply Qle_bool_iff in Hle. congruence.
  - intros H. destruct (Qle_bool a r) eqn:E; [|done].
    apply Qle_bool_iff in E. by apply Qlt_not_le in H.
Qed.

Lemma shouldBlock_true now t :
  shouldBlock now t = true ↔
  connections t > Z.min MAX_CONCURRENT_CONNECTIONS
                    (Z.max 20 ((now - firstConnection t) / 5000))
  ∧ now - firstConnection t > SLOW_LORIS_GRACE_PERIOD
  ∧ ((1 # 2 < ratio (timeoutCount t) (Z.max (requestCount t) 1))%Q
     ∨ connections t > MAX_SLOW_CONNECTIONS).
Proof.
  unfold shouldBlock, adaptiveThreshold, timeoutRatio.
  rewrite !andb_true_iff, orb_true_iff, !Z.ltb_lt, Qgtb_true, !Z.gt_lt_iff.
  tauto.
Qed.

(** C3 (as the code has it): a register increments [connections] and
    [requestCount], then sets [isBlocked] with
    [blockUntil = now + SLOW_LORIS_BLOCK_DURATION] exactly when
    [connections > min(MAX_CONCURRENT_CONNECTIONS, max(20, floor(elapsed / 5000)))]
    and [elapsed > SLOW_LORIS_GRACE_PERIOD] and
    ([timeoutCount / max(requestCount, 1) > 0.5] or
    [connections > MAX_SLOW_CONNECTIONS]); otherwise it leaves both fields
    as they were.  The cap of the threshold is MAX_CONCURRENT_CONNECTIONS
    (100); the cap of the last clause is MAX_SLOW_CONNECTIONS (50). *)
Theorem addConnection_blocks_exactly_when (ip : string) (now : Z) (g : Guard) :
  let before := default (newConnectionTracker ip now) (connectionMap g !! ip) in
  let elapsed := now - firstConnection before in
  let n := connections before + 1 in
  let r := requestCount before + 1 in
  let adaptive := Z.min MAX_CONCURRENT_CONNECTIONS (Z.max 20 (elapsed / 5000)) in
  let exceeded :=
    n > adaptive
    ∧ elapsed > SLOW_LORIS_GRACE_PERIOD
    ∧ ((1 # 2 < ratio (timeoutCount before) (Z.max r 1))%Q
       ∨ n > MAX_SLOW_CONNECTIONS) in
  MAX_CONCURRENT_CONNECTIONS = 100 ∧ MAX_SLOW_CONNECTIONS = 50
  ∧ ∃ t, connectionMap (addConnection ip now g) !! ip = Some t
      ∧ connections t = n ∧ requestCount t = r
      ∧ timeoutCount t = timeoutCount before
      ∧ firstConnection t = firstConnection before
      ∧ c_lastActivity t = now
      ∧ (exceeded →
         c_isBlocked t = true ∧ c_blockUntil t = now + SLOW_LORIS_BLOCK_DURATION)
      ∧ (¬ exceeded →
         c_isBlocked t = c_isBlocked before ∧ c_blockUntil t = c_blockUntil before).
Proof.
  intros before elapsed n r adaptive exceeded.
  split; [done|]. split; [done|].
  exists (addConnection_tracker now before). split.
  { unfold addConnection; simpl. rewrite lookup_insert_eq.
    subst before. by destruct (connectionMap g !! ip). }
  unfold addConnection_tracker.
  pose proof (shouldBlock_true now (c_touch now before)) as Hsb. simpl in Hsb.
  fold elapsed n r adaptive in Hsb. fold exceeded in Hsb.
  destruct (shouldBlock now (c_touch now before)); simpl;
    (do 5 (split; [done|])); split.
  - done.
  - intros Hn. destruct Hn. by apply Hsb.
  - intros He. apply Hsb in He. discriminate.
  - done.
Qed.

Lemma addConnection_blocks_exactly_when_witness :
  ∃ t, connectionMap
         (addConnection "10.0.0.1" 40000
            (run (OpAddConnection "10.0.0.1" 0
                  :: replicate 49 (OpAddConnection "10.0.0.1" 1)) guard_init))
         !! "10.0.0.1" = Some t
       ∧ c_isBlocked t = true ∧ c_blockUntil t = 640000.
Proof.
  destruct (addConnection_blocks_exactly_when "10.0.0.1" 40000
              (run (OpAddConnection "10.0.0.1" 0
                    :: replicate 49 (OpAddConnection "10.0.0.1" 1)) guard_init))
    as (_ & _ & t & Hl & _ & _ & _ & _ & _ & Hyes & _).
  exists t. split; [exact Hl|]. apply Hyes.
  vm_compute. split; [reflexivity|]. split; [reflexivity|]. right. reflexivity.
Defined.

(** C3, as stated, fails: with no timeouts, 40 seconds after its first
    connection, a client's 60th concurrent connection is blocked by the
    code, while the rule with one cap of 100 does not block it; and no
    choice of a single cap makes the rule of the specification agree with
    the code on every register. *)
Lemma shouldBlock_has_two_caps :
  let t := {| c_ip := "10.0.0.1"; connections := 60; slowConnections := 0;
              c_lastActivity := 40000; c_isBlocked := false; c_blockUntil := 0;
              firstConnection := 0; requestCount := 60; timeoutCount := 0 |} in
  shouldBlock 40000 t = true
  ∧ spec_shouldBlock MAX_CONCURRENT_CONNECTIONS 20 5000
      SLOW_LORIS_GRACE_PERIOD (1 # 2) 40000 t = false
  ∧ ¬ ∃ hardCap, ∀ now t',
        shouldBlock now t'
        = spec_shouldBlock hardCap 20 5000 SLOW_LORIS_GRACE_PERIOD (1 # 2) now t'.
Proof.
  intros t. split; [vm_compute; reflexivity|]. split; [vm_compute; reflexivity|].
  intros [h H].
  destruct (Z_le_gt_dec h 50) as [Hle|Hgt].
  - specialize (H 500000
      {| c_ip := ""; connections := 100; slowConnections := 0;
         c_lastActivity := 0; c_isBlocked := false; c_blockUntil := 0;
         firstConnection := 0; requestCount := 100; timeoutCount := 0 |}).
    assert (spec_shouldBlock h 20 5000 SLOW_LORIS_GRACE_PERIOD (1 # 2) 500000
      {| c_ip := ""; connections := 100; slowConnections := 0;
         c_lastActivity := 0; c_isBlocked := false; c_blockUntil := 0;
         firstConnection := 0; requestCount := 100; timeoutCount := 0 |} = true) as E.
    { unfold spec_shouldBlock; simpl.
      rewrite !andb_true_iff, !Z.ltb_lt.
      change ((500000 - 0) / 5000) with 100.
      unfold SLOW_LORIS_GRACE_PERIOD. lia. }
    rewrite E in H. vm_compute in H. discriminate.
  - specialize (H 40000
      {| c_ip := ""; connections := 51; slowConnections := 0;
         c_lastActivity := 0; c_isBlocked := false; c_blockUntil := 0;
         firstConnection := 0; requestCount := 51; timeoutCount := 0 |}).
    assert (spec_shouldBlock h 20 5000 SLOW_LORIS_GRACE_PERIOD (1 # 2) 40000
      {| c_ip := ""; connections := 51; slowConnections := 0;
         c_lastActivity := 0; c_isBlocked := false; c_blockUntil := 0;
         firstConnection := 0; requestCount := 51; timeoutCount := 0 |} = false) as E.
    { unfold spec_shouldBlock; simpl.
      apply andb_false_iff. right. apply Z.ltb_ge. lia. }
    rewrite E in H. vm_compute in H. discriminate.
Qed.

(** ** A flood of connections from a fresh client *)

Section Flood.
Variable req : Request.
Hypothesis Hnot_download : isSnapshotGet req = false.

Lemma middleware_not_blocked now g t :
  connectionMap g !! clientIp req = Some t →
  c_isBlocked t = false →
  middleware req now g
  = (ConnectionAdmitted (setupConnectionTimeouts (clientIp req) now),
     with_connectionMap
       (<[clientIp req := addConnection_tracker now t]> (connectionMap g)) g).
Proof.
  intros Hl Hb. unfold middleware, isIpBlocked, addConnection.
  by rewrite Hnot_download, Hl, Hb; simpl; rewrite Hl.
Qed.

Lemma middleware_fresh now g :
  connectionMap g !! clientIp req = None →
  middleware req now g
  = (ConnectionAdmitted (setupConnectionTimeouts (clientIp req) now),
     with_connectionMap
       (<[clientIp req :=
            addConnection_tracker now (newConnectionTracker (clientIp req) now)]>
          (connectionMap g)) g).
Proof.
  intros Hl. unfold middleware, isIpBlocked, addConnection.
  by rewrite Hnot_download, Hl; simpl; rewrite Hl.
Qed.

Lemma middleware_blocked now g t :
  connectionMap g !! clientIp req = Some t →
  c_isBlocked t = true → now < c_blockUntil t →
  middleware req now g
  = (Rejected 429 (ceil_div_1000 (c_blockUntil t - now)), g).
Proof.
  intros Hl Hb Hlt. unfold middleware, isIpBlocked, getBlockTime.
  rewrite Hnot_download, Hl, Hb. apply Z.ltb_lt in Hlt. rewrite Hlt. simpl.
  by rewrite Hl.
Qed.

(** No register inside the grace period blocks. *)
Lemma grace_tracker now t :
  now - firstConnection t <= SLOW_LORIS_GRACE_PERIOD →
  addConnection_tracker now t = c_touch now t.
Proof.
  intros Hg. unfold addConnection_tracker.
  destruct (shouldBlock now (c_touch now t)) eqn:E; [|done].
  apply shouldBlock_true in E. simpl in E. lia.
Qed.

Lemma registers_within_grace times g t :
  connectionMap g !! clientIp req = Some t →
  c_isBlocked t = false →
  Forall (λ x, x - firstConnection t <= SLOW_LORIS_GRACE_PERIOD) times →
  ∃ t', connectionMap (run (map (OpMiddleware req) times) g) !! clientIp req
        = Some t'
    ∧ connections t' = connections t + Z.of_nat (length times)
    ∧ requestCount t' = requestCount t + Z.of_nat (length times)
    ∧ timeoutCount t' = timeoutCount t
    ∧ firstConnection t' = firstConnection t
    ∧ c_isBlocked t' = false.
Proof.
  intros Hl Hb Hall. revert g t Hl Hb Hall.
  induction times as [|x times IH]; intros g t Hl Hb Hall.
  - exists t. simpl. repeat split; try done; lia.
  - apply Forall_cons in Hall as [Hx Hall]. simpl.
    rewrite (middleware_not_blocked x g t Hl Hb); simpl.
    rewrite (grace_tracker _ _ Hx).
    edestruct (IH (with_connectionMap
                     (<[clientIp req := c_touch x t]> (connectionMap g)) g)
                  (c_touch x t)) as (t' & Hl' & Hc & Hr & Ht & Hf & Hb').
    { simpl. apply lookup_insert_eq. }
    { done. }
    { done. }
    exists t'. simpl in *. repeat split; try done; lia.
Qed.

Lemma ceil_div_1000_bounds x :
  0 < x <= 600000 → 1 <= ceil_div_1000 x <= 600.
Proof. unfold ceil_div_1000. intros H. Z.div_mod_to_equations. lia. Qed.

Lemma ceil_div_1000_top x :
  599000 < x <= 600000 → ceil_div_1000 x = 600.
Proof. unfold ceil_div_1000. intros H. Z.div_mod_to_equations. lia. Qed.

End Flood.

(** C2 (as the code has it): a fresh client, first seen at [t0], whose
    first 100 concurrent non-download connections are registered within
    the grace period and whose 101st is registered after it
    ([now - t0 > SLOW_LORIS_GRACE_PERIOD]) is admitted 101 times; the
    101st register sets [isBlocked] with
    [blockUntil = now + SLOW_LORIS_BLOCK_DURATION]; the next request of
    that client, at [now'] before [blockUntil], is denied with 429 and
    [retryAfter = ceil((blockUntil - now') / 1000)], between 1 and
    600 = blockDuration/1000, and equal to 600 within the first second.
    If instead the 101st register also falls within the grace period, it
    does not block and the next request of the client is admitted. *)
Theorem blocked_on_101st_register_after_grace
    (req : Request) (g : Guard) (t0 : Z) (times : list Z) (now now' : Z) :
  isSnapshotGet req = false →
  connectionMap g !! clientIp req = None →
  length times = 99%nat →
  Forall (λ x, x - t0 <= SLOW_LORIS_GRACE_PERIOD) times →
  now - t0 > SLOW_LORIS_GRACE_PERIOD →
  now <= now' < now + SLOW_LORIS_BLOCK_DURATION →
  let g100 := run (map (OpMiddleware req) (t0 :: times)) g in
  let g101 := (middleware req now g100).2 in
  let retryAfter := ceil_div_1000 (now + SLOW_LORIS_BLOCK_DURATION - now') in
  (∃ t, connectionMap g100 !! clientIp req = Some t
        ∧ connections t = 100 ∧ c_isBlocked t = false)
  ∧ (∃ r, (middleware req now g100).1 = ConnectionAdmitted r)
  ∧ (∃ t, connectionMap g101 !! clientIp req = Some t
        ∧ connections t = 101 ∧ c_isBlocked t = true
        ∧ c_blockUntil t = now + SLOW_LORIS_BLOCK_DURATION)
  ∧ middleware req now' g101 = (Rejected 429 retryAfter, g101)
  ∧ 1 <= retryAfter <= SLOW_LORIS_BLOCK_DURATION / 1000
  ∧ (now' - now < 1000 → retryAfter = SLOW_LORIS_BLOCK_DURATION / 1000)
  ∧ (∀ early next,
       early - t0 <= SLOW_LORIS_GRACE_PERIOD →
       let g101' := (middleware req early g100).2 in
       (∃ t, connectionMap g101' !! clientIp req = Some t
             ∧ connections t = 101 ∧ c_isBlocked t = false)
       ∧ (middleware req next g101').1
         = ConnectionAdmitted (setupConnectionTimeouts (clientIp req) next)).
Proof.
  intros Hnd Hfresh Hlen Hall Hafter Hnow' g100 g101 retryAfter.
  assert (g100 = run (map (OpMiddleware req) times)
                   (with_connectionMap
                      (<[clientIp req :=
                           c_touch t0 (newConnectionTracker (clientIp req) t0)]>
                         (connectionMap g)) g)) as Hg100.
  { subst g100. change (run (map (OpMiddleware req) (t0 :: times)) g)
      with (run (map (OpMiddleware req) times) (middleware req t0 g).2).
    rewrite (middleware_fresh req Hnd t0 g Hfresh). simpl.
    rewrite grace_tracker; [done|]. simpl. unfold SLOW_LORIS_GRACE_PERIOD. lia. }
  clearbody g100. subst g100.
  edestruct (registers_within_grace req Hnd times
               (with_connectionMap
                  (<[clientIp req :=
                       c_touch t0 (newConnectionTracker (clientIp req) t0)]>
                     (connectionMap g)) g)
               (c_touch t0 (newConnectionTracker (clientIp req) t0)))
    as (t & Hl & Hc & Hr & Ht & Hf & Hb).
  { simpl. apply lookup_insert_eq. }
  { done. }
  { done. }
  simpl in Hc, Hr, Ht, Hf. rewrite Hlen in Hc, Hr.
  set (g100 := run (map (OpMiddleware req) times) _) in *.
  assert (shouldBlock now (c_touch now t) = true) as Hsb.
  { apply shouldBlock_true. simpl. rewrite Hc, Hf.
    unfold MAX_CONCURRENT_CONNECTIONS, MAX_SLOW_CONNECTIONS. lia. }
  assert (middleware req now g100
          = (ConnectionAdmitted (setupConnectionTimeouts (clientIp req) now),
             with_connectionMap
               (<[clientIp req :=
                    c_block (now + SLOW_LORIS_BLOCK_DURATION) (c_touch now t)]>
                  (connectionMap g100)) g100)) as Hmw.
  { rewrite (middleware_not_blocked req Hnd now g100 t Hl Hb).
    unfold addConnection_tracker. by rewrite Hsb. }
  assert (∀ early next,
            early - t0 <= SLOW_LORIS_GRACE_PERIOD →
            (∃ t', connectionMap (middleware req early g100).2 !! clientIp req
                   = Some t'
                   ∧ connections t' = 101 ∧ c_isBlocked t' = false)
            ∧ (middleware req next (middleware req early g100).2).1
              = ConnectionAdmitted (setupConnectionTimeouts (clientIp req) next))
    as Hearly.
  { intros early next He.
    rewrite (middleware_not_blocked req Hnd early g100 t Hl Hb). cbn [snd].
    rewrite grace_tracker by (by rewrite Hf).
    split.
    - eexists. split; [simpl; apply lookup_insert_eq|]. simpl. split; [lia|done].
    - erewrite (middleware_not_blocked req Hnd); [done|simpl; apply lookup_insert_eq|done]. }
  subst g101. rewrite Hmw. simpl.
  split; [exists t; split; [done|split; [lia|done]]|].
  split; [by eexists|].
  split.
  { eexists. split; [apply lookup_insert_eq|]. simpl. split; [lia|done]. }
  split.
  { rewrite (middleware_blocked req Hnd now' _
               (c_block (now + SLOW_LORIS_BLOCK_DURATION) (c_touch now t)));
      [done|simpl; apply lookup_insert_eq|done|simpl; lia]. }
  change (SLOW_LORIS_BLOCK_DURATION / 1000) with 600. subst retryAfter.
  unfold SLOW_LORIS_BLOCK_DURATION in *. split; [|split].
  - apply ceil_div_1000_bounds. lia.
  - intros Hsoon. apply ceil_div_1000_top. lia.
  - exact Hearly.
Qed.

Lemma blocked_on_101st_register_after_grace_witness :
  (middleware (get "10.0.0.1" "/health") 40500
     (middleware (get "10.0.0.1" "/health") 40000
        (run (map (OpMiddleware (get "10.0.0.1" "/health"))
                  (1000 :: replicate 99 1001)) guard_init)).2).1
  = Rejected 429 600.
Proof.
  assert (connectionMap guard_init !! clientIp (get "10.0.0.1" "/health") = None)
    as Hfresh by reflexivity.
  assert (length (replicate 99 1001) = 99%nat) as Hlen by reflexivity.
  assert (Forall (λ x, x - 1000 <= SLOW_LORIS_GRACE_PERIOD) (replicate 99 1001))
    as Hall by (apply Forall_replicate; unfold SLOW_LORIS_GRACE_PERIOD; lia).
  assert (40000 - 1000 > SLOW_LORIS_GRACE_PERIOD)
    as Hafter by (unfold SLOW_LORIS_GRACE_PERIOD; lia).
  assert (40000 <= 40500 < 40000 + SLOW_LORIS_BLOCK_DURATION)
    as Hnow by (unfold SLOW_LORIS_BLOCK_DURATION; lia).
  destruct (blocked_on_101st_register_after_grace
              (get "10.0.0.1" "/health") guard_init
              1000 (replicate 99 1001) 40000 40500
              eq_refl Hfresh Hlen Hall Hafter Hnow)
    as (_ & _ & _ & H & _ & _ & _).
  rewrite H. reflexivity.
Defined.

(** C2, as stated, fails: a fresh client first seen at time 1000 registers
    101 concurrent connections, one per millisecond, all inside the
    30-second grace period.  The 101st register leaves [isBlocked] false
    and the next request of that client is admitted. *)
Lemma flood_within_grace_is_not_blocked :
  let rq := get "10.0.0.1" "/health" in
  let g := run (map (λ n, OpMiddleware rq (1000 + Z.of_nat n)) (seq 0 101))
               guard_init in
  (∃ t, connectionMap g !! "10.0.0.1" = Some t
        ∧ connections t = 101 ∧ firstConnection t = 1000
        ∧ c_lastActivity t = 1100 ∧ c_isBlocked t = false)
  ∧ (middleware rq 1101 g).1
    = ConnectionAdmitted (setupConnectionTimeouts "10.0.0.1" 1101).
Proof.
  intros rq g. split.
  - eexists. split; [vm_compute; reflexivity|]. repeat split.
  - vm_compute; reflexivity.
Qed.

(** ** The unregister path *)

Lemma removeConnection_at_zero ip now g t :
  connectionMap g !! ip = Some t → connections t <= 0 →
  removeConnection ip now g = g.
Proof.
  intros Hl Hz. unfold removeConnection. rewrite Hl.
  by apply Z.ltb_ge in Hz as ->.
Qed.

Lemma removeConnection_positive ip now g t :
  connectionMap g !! ip = Some t → 0 < connections t →
  connectionMap (removeConnection ip now g) !! ip = Some (c_release now t).
Proof.
  intros Hl Hp. unfold removeConnection. rewrite Hl.
  apply Z.ltb_lt in Hp as ->. simpl. apply lookup_insert_eq.
Qed.

Lemma removeConnection_absent ip now g :
  connectionMap g !! ip = None → removeConnection ip now g = g.
Proof. intros Hl. unfold removeConnection. by rewrite Hl. Qed.

(** C4 (as the code has it): the listeners of 'finish' and of 'close'
    both call [removeConnection], which decrements a positive counter
    and leaves a counter of 0 alone.  When they run one after the other
    for the same request, the second run leaves the guard unchanged only
    if the client's counter is 0 (or the client has no entry) after the
    first; if the counter is still positive after the first, the second
    run decrements it again.  Together the two runs take a counter
    [c >= 0] to [max 0 (c - 2)], whatever else the client has open. *)
Theorem second_unregister_decrements_unless_zero
    (r : ConnectionRequest) (now1 now2 : Z) (g : Guard) :
  let first := on_finish r now1 g in
  let second := on_close first.1 now2 first.2 in
  (connectionMap first.2 !! cr_ip r = None → second.2 = first.2)
  ∧ (∀ t1, connectionMap first.2 !! cr_ip r = Some t1 →
       (connections t1 <= 0 → second.2 = first.2)
       ∧ (0 < connections t1 →
          ∃ t2, connectionMap second.2 !! cr_ip r = Some t2
                ∧ connections t2 = connections t1 - 1))
  ∧ (∀ t0, connectionMap g !! cr_ip r = Some t0 →
       (connections t0 <= 0 → first.2 = g)
       ∧ (0 < connections t0 →
          ∃ t1, connectionMap first.2 !! cr_ip r = Some t1
                ∧ connections t1 = connections t0 - 1)
       ∧ (0 <= connections t0 →
          ∃ t2, connectionMap second.2 !! cr_ip r = Some t2
                ∧ connections t2 = Z.max 0 (connections t0 - 2)))
  ∧ (connectionMap g !! cr_ip r = None → first.2 = g ∧ second.2 = g).
Proof.
  intros first second. subst first second. simpl. split; [|split; [|split]].
  4:{ intros E. rewrite (removeConnection_absent _ now1 g E).
      split; [done|]. by apply removeConnection_absent. }
  - by apply removeConnection_absent.
  - intros t1 E. split.
    + intros Hz. by eapply removeConnection_at_zero.
    + intros Hp. exists (c_release now2 t1). split; [|done].
      by apply removeConnection_positive.
  - intros t0 E. split; [|split].
    + intros Hz. by eapply removeConnection_at_zero.
    + intros Hp. exists (c_release now1 t0). split; [|done].
      by apply removeConnection_positive.
    + intros Hnn. destruct (Z.le_gt_cases (connections t0) 0) as [Hz|Hp].
      * rewrite (removeConnection_at_zero _ now1 g t0 E Hz).
        rewrite (removeConnection_at_zero _ now2 g t0 E Hz).
        exists t0. split; [done|lia].
      * pose proof (removeConnection_positive _ now1 g t0 E Hp) as E1.
        destruct (Z.le_gt_cases (connections (c_release now1 t0)) 0) as [Hz1|Hp1].
        -- rewrite (removeConnection_at_zero _ now2 _ _ E1 Hz1).
           exists (c_release now1 t0). split; [done|]. simpl in *. lia.
        -- exists (c_release now2 (c_release now1 t0)).
           split; [by apply removeConnection_positive|]. simpl in *. lia.
Qed.

Lemma second_unregister_decrements_unless_zero_witness :
  ∃ t2, connectionMap
          (on_close
             (on_finish (setupConnectionTimeouts "10.0.0.1" 0) 10
                (run (replicate 3 (OpAddConnection "10.0.0.1" 0)) guard_init)).1
             11
             (on_finish (setupConnectionTimeouts "10.0.0.1" 0) 10
                (run (replicate 3 (OpAddConnection "10.0.0.1" 0)) guard_init)).2).2
          !! "10.0.0.1" = Some t2
        ∧ connections t2 = 2 - 1.
Proof.
  refine (proj2 (proj1 (proj2 (second_unregister_decrements_unless_zero
                          (setupConnectionTimeouts "10.0.0.1" 0) 10 11
                          (run (replicate 3 (OpAddConnection "10.0.0.1" 0)) guard_init)))
                   {| c_ip := "10.0.0.1"; connections := 2; slowConnections := 0;
                      c_lastActivity := 10; c_isBlocked := false; c_blockUntil := 0;
                      firstConnection := 0; requestCount := 3; timeoutCount := 0 |}
                   _) _).
  - vm_compute; reflexivity.
  - simpl; lia.
Defined.

(** C4, as stated, fails: a client has two requests registered; the first
    one completes, its 'finish' listener brings the counter from 2 to 1,
    and its 'close' listener, the second run for the same request, brings
    it from 1 to 0 while the other request is still open. *)
Lemma second_unregister_changes_counter :
  let rq := get "10.0.0.1" "/health" in
  let g := run [OpMiddleware rq 0; OpMiddleware rq 1] guard_init in
  let r := setupConnectionTimeouts "10.0.0.1" 0 in
  let first := on_finish r 10 g in
  let second := on_close first.1 11 first.2 in
  (middleware rq 0 guard_init).1 = ConnectionAdmitted r
  ∧ connections <$> (connectionMap g !! "10.0.0.1") = Some 2
  ∧ connections <$> (connectionMap first.2 !! "10.0.0.1") = Some 1
  ∧ connections <$> (connectionMap second.2 !! "10.0.0.1") = Some 0.
Proof. repeat split; vm_compute; reflexivity. Qed.

(** ** The cap on concurrent downloads *)

Section DownloadCap.
Variable req : Request.
Hypothesis Hdownload : isSnapshotGet req = true.

Lemma download_middleware_admits now g l t :
  downloadRef (clientIp req) g = Some (l, t) →
  d_isBlocked t = false →
  middleware req now g
  = (DownloadAdmitted
       {| dr_ip := clientIp req;
          dr_monitor :=
            Some {| m_tracker := l; bytesTransferred := 0; startTime := now;
                    downloadTimeout := Armed (now + MAX_DOWNLOAD_DURATION) |} |},
     store l (addDownload_tracker now t) g).
Proof.
  intros Hr Hb. unfold middleware, handleDownloadProtection, isDownloadBlocked.
  rewrite Hdownload, Hr, Hb. simpl.
  unfold addDownload, setupDownloadMonitoring. rewrite Hr.
  by rewrite (store_downloadRef _ _ _ _ _ Hr).
Qed.

Lemma download_middleware_rejects now g l t :
  downloadRef (clientIp req) g = Some (l, t) →
  d_isBlocked t = true → now < d_blockUntil t →
  middleware req now g
  = (Rejected 429 (ceil_div_1000 (d_blockUntil t - now)), g).
Proof.
  intros Hr Hb Hlt.
  unfold middleware, handleDownloadProtection, isDownloadBlocked,
    getDownloadBlockTime.
  rewrite Hdownload, Hr, Hb. apply Z.ltb_lt in Hlt. rewrite Hlt. simpl.
  by rewrite Hr.
Qed.

End DownloadCap.

(** C5 (as the code has it): with MAX_SLOW_DOWNLOADS = 5, when a client
    that is not blocked has 5 active downloads, its 6th concurrent
    download request is admitted ([next()] is called and the download
    is monitored); the register of that 6th download sets the client
    blocked with [blockUntil = now + BLOCK_DURATION].  The following
    download request of the client, at [now'] before [blockUntil], is
    denied before anything is registered, with a 429 whose
    [retryAfter] is [ceil((blockUntil - now') / 1000)]. *)
Theorem sixth_download_admitted_seventh_denied
    (req : Request) (g : Guard) (l : nat) (t : DownloadTracker) (now now' : Z) :
  isSnapshotGet req = true →
  downloadRef (clientIp req) g = Some (l, t) →
  activeDownloads t = MAX_SLOW_DOWNLOADS →
  d_isBlocked t = false →
  now <= now' < now + BLOCK_DURATION →
  let sixth := middleware req now g in
  let seventh := middleware req now' sixth.2 in
  MAX_SLOW_DOWNLOADS = 5
  ∧ (∃ m, sixth.1 = DownloadAdmitted {| dr_ip := clientIp req; dr_monitor := Some m |})
  ∧ (∃ t6, downloadRef (clientIp req) sixth.2 = Some (l, t6)
           ∧ activeDownloads t6 = 6 ∧ d_isBlocked t6 = true
           ∧ d_blockUntil t6 = now + BLOCK_DURATION)
  ∧ seventh.1 = Rejected 429 (ceil_div_1000 (now + BLOCK_DURATION - now'))
  ∧ seventh.2 = sixth.2.
Proof.
  intros Hget Hr Hn Hb Hnow sixth seventh. subst seventh sixth.
  rewrite (download_middleware_admits req Hget now g l t Hr Hb). simpl.
  assert (addDownload_tracker now t
          = set_d_block true (now + BLOCK_DURATION)
              (set_lastTransferTime now
                 (set_downloadStartTime now
                    (set_d_lastActivity now
                       (set_activeDownloads (activeDownloads t + 1) t))))) as Ht6.
  { unfold addDownload_tracker. simpl. rewrite Hn. done. }
  set (t6 := addDownload_tracker now t) in *.
  assert (downloadRef (clientIp req) (store l t6 g) = Some (l, t6)) as Hr6
    by (by eapply store_downloadRef).
  assert (d_isBlocked t6 = true ∧ d_blockUntil t6 = now + BLOCK_DURATION
          ∧ activeDownloads t6 = 6) as (Hb6 & Hu6 & Ha6).
  { rewrite Ht6. simpl. rewrite Hn. done. }
  split; [done|]. split; [by eexists|].
  split; [by exists t6|].
  rewrite (download_middleware_rejects req Hget now' _ l t6 Hr6 Hb6) by lia.
  simpl. by rewrite Hu6.
Qed.

Lemma sixth_download_admitted_seventh_denied_witness :
  (middleware (get "10.0.0.1" "/snapshots/snapshot_1.gz") 7
     (middleware (get "10.0.0.1" "/snapshots/snapshot_1.gz") 6
        (run (replicate 5 (OpAddDownload "10.0.0.1" 0)) guard_init)).2).1
  = Rejected 429 300.
Proof.
  assert (∃ t, downloadRef "10.0.0.1"
                 (run (replicate 5 (OpAddDownload "10.0.0.1" 0)) guard_init)
               = Some (0%nat, t)
               ∧ activeDownloads t = MAX_SLOW_DOWNLOADS ∧ d_isBlocked t = false)
    as (t & Hr & Hn & Hb).
  { eexists. split; [vm_compute; reflexivity|]. split; reflexivity. }
  assert (6 <= 7 < 6 + BLOCK_DURATION) as Hnow by (unfold BLOCK_DURATION; lia).
  destruct (sixth_download_admitted_seventh_denied
              (get "10.0.0.1" "/snapshots/snapshot_1.gz")
              _ _ _ 6 7 eq_refl Hr Hn Hb Hnow) as (_ & _ & _ & H & _).
  rewrite H. reflexivity.
Defined.

(** C5, as stated, fails: six download requests of one client arrive one
    millisecond apart and none has completed.  The sixth is admitted with
    its monitoring installed, although its register has blocked the
    client; the first denial is the seventh. *)
Lemma sixth_concurrent_download_is_admitted :
  let rq := get "10.0.0.1" "/snapshots/snapshot_1.gz" in
  let g5 := run (map (λ n, OpMiddleware rq (Z.of_nat n)) (seq 0 5)) guard_init in
  let sixth := middleware rq 5 g5 in
  activeDownloads <$> downloadTracker "10.0.0.1" g5 = Some 5
  ∧ sixth.1 = DownloadAdmitted
                {| dr_ip := "10.0.0.1";
                   dr_monitor :=
                     Some {| m_tracker := 0; bytesTransferred := 0; startTime := 5;
                             downloadTimeout := Armed 3600005 |} |}
  ∧ activeDownloads <$> downloadTracker "10.0.0.1" sixth.2 = Some 6
  ∧ (middleware rq 6 sixth.2).1 = Rejected 429 300.
Proof. repeat split; vm_compute; reflexivity. Qed.

(** ** The slow-download watchdog *)




Lemma res_end_monitor chunk m g res :
  m_tracker (res_end chunk m g res).1.1 = m_tracker m
  ∧ downloadTimeout (res_end chunk m g res).1.1 = downloadTimeout m.
Proof. by destruct chunk. Qed.


Lemma store_length l t g :
  length (trackerHeap (store l t g)) = length (trackerHeap g).
Proof. apply length_insert. Qed.

Lemma isDownloadBlocked_length ip now g :
  length (trackerHeap (isDownloadBlocked ip now g).2) = length (trackerHeap g).
Proof.
  unfold isDownloadBlocked. repeat case_match; simpl; try done.
  apply length_insert.
Qed.


Lemma res_end_length chunk m g res :
  length (trackerHeap (res_end chunk m g res).1.2) = length (trackerHeap g).
Proof.
  unfold res_end. repeat case_match; simpl; try done. apply length_insert.
Qed.

Lemma res_write_length chunk now m g res :
  length (trackerHeap (res_write chunk now m g res).1.2) = length (trackerHeap g).
Proof.
  unfold res_write. repeat case_match; simpl; try done. apply length_insert.
Qed.

Lemma downloadTimeout_callback_length now body m g res :
  length (trackerHeap (downloadTimeout_callback now body m g res).1.2)
  = length (trackerHeap g).
Proof.
  unfold downloadTimeout_callback.
  destruct (trackerHeap g !! m_tracker m) as [t|]; [|done].
  destruct (JsNum.ltb (transferRate t) MIN_TRANSFER_RATE); [|done].
  destruct (negb (headersSent res)).
  - unfold res_status_json.
    destruct (res_end body m _ (set_status 408 res)) as [[m2 g2] res2] eqn:E.
    rewrite res_end_length.
    replace g2 with (res_end body m
      (store (m_tracker m) (set_d_block true (now + BLOCK_DURATION) t) g)
      (set_status 408 res)).1.2 by (by rewrite E).
    by rewrite res_end_length, store_length.
  - by rewrite res_end_length, store_length.
Qed.


(** Every reference of [downloadMap] is allocated, at every moment. *)
Lemma heap_wf_same g g' :
  downloadMap g' = downloadMap g →
  length (trackerHeap g') = length (trackerHeap g) →
  heap_wf g → heap_wf g'.
Proof. unfold heap_wf. by intros -> ->. Qed.

Lemma res_end_downloadMap chunk m g res :
  downloadMap (res_end chunk m g res).1.2 = downloadMap g.
Proof. unfold res_end. by repeat case_match. Qed.

Lemma res_write_downloadMap chunk now m g res :
  downloadMap (res_write chunk now m g res).1.2 = downloadMap g.
Proof. unfold res_write. by repeat case_match. Qed.

Lemma isDownloadBlocked_downloadMap ip now g :
  downloadMap (isDownloadBlocked ip now g).2 = downloadMap g.
Proof. unfold isDownloadBlocked. by repeat case_match. Qed.

Lemma downloadTimeout_callback_downloadMap now body m g res :
  downloadMap (downloadTimeout_callback now body m g res).1.2 = downloadMap g.
Proof.
  unfold downloadTimeout_callback.
  destruct (trackerHeap g !! m_tracker m) as [t|]; [|done].
  destruct (JsNum.ltb (transferRate t) MIN_TRANSFER_RATE); [|done].
  destruct (negb (headersSent res)).
  - unfold res_status_json.
    destruct (res_end body m _ (set_status 408 res)) as [[m2 g2] res2] eqn:E.
    rewrite res_end_downloadMap.
    replace g2 with (res_end body m
      (store (m_tracker m) (set_d_block true (now + BLOCK_DURATION) t) g)
      (set_status 408 res)).1.2 by (by rewrite E).
    by rewrite res_end_downloadMap.
  - by rewrite res_end_downloadMap.
Qed.

Lemma addDownload_wf ip now g : heap_wf g → heap_wf (addDownload ip now g).
Proof.
  intros Hwf. unfold addDownload.
  destruct (downloadRef ip g) as [[l t]|].
  - apply (heap_wf_same g); [done|apply store_length|done].
  - unfold heap_wf; simpl. rewrite length_app; simpl.
    apply map_Forall_insert_2; [lia|].
    eapply map_Forall_impl; [exact Hwf|]. simpl. intros _ l Hl. lia.
Qed.

Lemma step_heap_wf g op : heap_wf g → heap_wf (step g op).
Proof.
  intros Hwf. destruct op; simpl.
  - unfold isIpBlocked. by repeat case_match.
  - done.
  - unfold removeConnection. by repeat case_match.
  - unfold recordTimeout. by repeat case_match.
  - apply (heap_wf_same g);
      [apply isDownloadBlocked_downloadMap|apply isDownloadBlocked_length|done].
  - by apply addDownload_wf.
  - unfold removeDownload. repeat case_match; try done.
    apply (heap_wf_same g); [done|apply store_length|done].
  - apply (heap_wf_same g);
      [apply res_write_downloadMap|apply res_write_length|done].
  - apply (heap_wf_same g); [apply res_end_downloadMap|apply res_end_length|done].
  - apply (heap_wf_same g);
      [apply downloadTimeout_callback_downloadMap
      |apply downloadTimeout_callback_length|done].
  - unfold middleware, handleDownloadProtection.
    destruct (isSnapshotGet req).
    + assert (heap_wf (isDownloadBlocked (clientIp req) now g).2) as H
        by (apply (heap_wf_same g);
              [apply isDownloadBlocked_downloadMap
              |apply isDownloadBlocked_length|done]).
      destruct (isDownloadBlocked (clientIp req) now g) as [[] g1]; simpl in *;
        [done|by apply addDownload_wf].
    + assert (heap_wf (isIpBlocked (clientIp req) now g).2) as H
        by (unfold isIpBlocked; by repeat case_match).
      by destruct (isIpBlocked (clientIp req) now g) as [[] g1].
  - unfold heap_wf; simpl. by apply map_Forall_foldr_delete.
  - unfold heap_wf; simpl. apply map_Forall_empty.
Qed.

Lemma run_heap_wf ops : heap_wf (run ops guard_init).
Proof.
  assert (heap_wf guard_init) as H0 by apply map_Forall_empty.
  revert H0. generalize guard_init.
  induction ops as [|op ops IH]; intros g Hg; [done|].
  simpl. apply IH. by apply step_heap_wf.
Qed.

(** So a key of [downloadMap] always has its tracker. *)
Lemma downloadRef_None ops ip :
  downloadRef ip (run ops guard_init) = None ↔
  downloadMap (run ops guard_init) !! ip = None.
Proof.
  pose proof (run_heap_wf ops) as Hwf. unfold downloadRef.
  destruct (downloadMap (run ops guard_init) !! ip) as [l|] eqn:E; [|done].
  destruct (lookup_lt_is_Some_2 (trackerHeap (run ops guard_init)) l) as [t ->];
    [exact (Hwf ip l E)|done].
Qed.







(** ** Sampling of the transfer rate *)

Lemma measuredRate_finite bytes now start :
  start < now →
  ∃ q, measuredRate bytes now start = JsNum.Fin q
       ∧ (q == inject_Z (bytes * 1000) / inject_Z (now - start))%Q.
Proof.
  intros Hlt. unfold measuredRate, JsNum.div.
  destruct (Qeq_bool (inject_Z (now - start) / inject_Z 1000) 0) eqn:E.
  - apply Qeq_bool_eq in E. unfold Qeq, Qdiv, Qmult, Qinv, inject_Z in E.
    simpl in E. lia.
  - eexists. split; [reflexivity|]. rewrite Qred_correct.
    unfold Qeq, Qdiv, Qmult, Qinv, inject_Z. simpl.
    destruct (now - start) as [|d|d] eqn:Hd; try lia. simpl. lia.
Qed.

(** C8 (as the code has it): a write of a Buffer of [len] bytes adds
    [len] to the download's [bytesTransferred] and to the tracker's
    [totalBytesTransferred]; [transferRate] is recomputed only when more
    than 1000 ms have passed since [lastTransferTime], and is then the
    bytes this download has written since its start divided by the
    seconds since its start, [bytesTransferred / ((now - startTime) / 1000)];
    when the recomputed rate is below SLOW_DOWNLOAD_THRESHOLD,
    [slowDownloads] grows by exactly one, and otherwise it is unchanged. *)
Theorem write_samples_cumulative_rate
    (len : N) (now : Z) (m : DownloadMonitor) (g : Guard) (res : Response)
    (t : DownloadTracker) :
  trackerHeap g !! m_tracker m = Some t →
  let out := res_write (Buf len) now m g res in
  let bytes := bytesTransferred m + Z.of_N len in
  let rate := measuredRate bytes now (startTime m) in
  bytesTransferred out.1.1 = bytes
  ∧ (startTime m < now →
       ∃ q, rate = JsNum.Fin q
            ∧ (q == inject_Z (bytes * 1000) / inject_Z (now - startTime m))%Q)
  ∧ ∃ t', trackerHeap out.1.2 !! m_tracker m = Some t'
      ∧ totalBytesTransferred t' = totalBytesTransferred t + Z.of_N len
      ∧ (now - lastTransferTime t <= 1000 →
         transferRate t' = transferRate t
         ∧ slowDownloads t' = slowDownloads t
         ∧ lastTransferTime t' = lastTransferTime t)
      ∧ (now - lastTransferTime t > 1000 →
         transferRate t' = rate
         ∧ lastTransferTime t' = now
         ∧ slowDownloads t'
           = slowDownloads t
             + (if JsNum.ltb rate SLOW_DOWNLOAD_THRESHOLD then 1 else 0)).
Proof.
  intros Hl out bytes rate. subst out. unfold res_write. rewrite Hl.
  cbn [fst snd]. split; [done|]. split; [apply measuredRate_finite|].
  eexists. split; [by eapply store_lookup|].
  unfold sample. cbn [lastTransferTime set_totalBytesTransferred].
  fold bytes. fold rate.
  destruct (1000 <? now - lastTransferTime t) eqn:E.
  - apply Z.ltb_lt in E. cbn [transferRate set_lastTransferTime set_transferRate].
    destruct (JsNum.ltb rate SLOW_DOWNLOAD_THRESHOLD); simpl;
      (split; [done|]); (split; [lia|]); intros _;
      (split; [done|]); (split; [done|]); lia.
  - apply Z.ltb_ge in E. simpl.
    split; [done|]. split; [done|]. lia.
Qed.

Lemma write_samples_cumulative_rate_witness :
  ∃ t', trackerHeap second_sample.1.2 !! 0%nat = Some t'
        ∧ transferRate t' = measuredRate (1000 + 100) 4000 0
        ∧ slowDownloads t' = 0.
Proof.
  edestruct (write_samples_cumulative_rate 100 4000
               first_sample.1.1 first_sample.1.2 first_sample.2)
    as (_ & _ & t' & Ht' & _ & _ & Hrecomputed).
  - vm_compute; reflexivity.
  - exists t'. split; [exact Ht'|].
    destruct Hrecomputed as (Hrate & _ & Hslow); [simpl; lia|].
    split; [exact Hrate|]. rewrite Hslow. reflexivity.
Defined.

(** C8, as stated, fails: a download writes 1000 bytes during its first
    two seconds and 100 bytes during the next two.  At the second sample
    the window holds 100 bytes in 2 seconds, 50 bytes per second, which is
    below SLOW_DOWNLOAD_THRESHOLD; the code records 1100 bytes over 4
    seconds, 275 bytes per second, and does not count a slow
    occurrence. *)
Lemma second_sample_is_not_the_window_rate :
  (middleware (get "10.0.0.1" "/snapshots/snapshot_1.gz") 0 guard_init).1
  = DownloadAdmitted {| dr_ip := "10.0.0.1"; dr_monitor := Some first_monitor |}
  ∧ (lastTransferTime <$> trackerHeap first_sample.1.2 !! 0%nat) = Some 2000
  ∧ (transferRate <$> trackerHeap second_sample.1.2 !! 0%nat)
    = Some (JsNum.Fin 275)
  ∧ (slowDownloads <$> trackerHeap second_sample.1.2 !! 0%nat) = Some 0
  ∧ spec_windowRate 100 (4000 - 2000) = JsNum.Fin 50
  ∧ JsNum.ltb (spec_windowRate 100 (4000 - 2000)) SLOW_DOWNLOAD_THRESHOLD = true
  ∧ ¬ JsNum.same (JsNum.Fin 275) (spec_windowRate 100 (4000 - 2000)).
Proof.
  repeat split; try (vm_compute; reflexivity).
  vm_compute. discriminate.
Qed.

(** ** The server as constructed *)

Lemma foldr_delete_empty {A} (ks : list string) :
  foldr delete (∅ : gmap string A) ks = ∅.
Proof. induction ks as [|k ks IH]; [done|]. simpl. by rewrite IH, delete_empty. Qed.

Lemma tick_empty now g :
  connectionMap g = ∅ → downloadMap g = ∅ →
  connectionMap (tick now g) = ∅ ∧ downloadMap (tick now g) = ∅
  ∧ cleanupInterval (tick now g) = cleanupInterval g.
Proof.
  intros Hc Hd. unfold tick. destruct (cleanupInterval g) eqn:E; [|done].
  simpl. rewrite Hc, Hd. by rewrite !foldr_delete_empty.
Qed.

(** The middleware of [setupMiddleware] touch the limiter only. *)
Lemma pipeline_setupMiddleware req now s :
  let s' := (pipeline setupMiddleware req now s).2 in
  guard s' = guard s ∧ inflight s' = inflight s
  ∧ isShuttingDown s' = isShuttingDown s ∧ exited s' = exited s
  ∧ hits s' = (rateLimit RATE_LIMIT req (hits s)).2.
Proof.
  unfold setupMiddleware. cbn [pipeline apply_middleware].
  destruct (rateLimit RATE_LIMIT req (hits s)) as [[|status] h]; cbn [snd]; [|done].
  by destruct (isRequestValid req).
Qed.

Lemma server_init_inv : server_inv server_init.
Proof. by repeat split. Qed.

Lemma server_step_inv s e :
  server_inv s → server_inv (server_step setupMiddleware s e).
Proof.
  intros Hinv. unfold server_step.
  destruct (exited s) eqn:Hex; [done|].
  pose proof Hinv as (Hc & Hd & Hi & He & Hs).
  destruct e.
  - destruct (pipeline_setupMiddleware req now s) as (Hg & Hi' & Hs' & He' & _).
    unfold server_inv. by rewrite Hg, Hi', Hs', He'.
  - unfold completion. rewrite Hi. by repeat split.
  - unfold completion. rewrite Hi. by repeat split.
  - destruct (tick_empty now (guard s) Hc Hd) as (Hc' & Hd' & Ht).
    unfold server_inv; simpl. rewrite Ht. by repeat split.
  - unfold gracefulShutdown. destruct (isShuttingDown s) eqn:E.
    + unfold server_inv; simpl. rewrite E. by repeat split.
    + repeat split; done.
  - destruct (isShuttingDown s) eqn:E; [|done].
    unfold server_inv; simpl. rewrite E. by repeat split.
  - destruct (isShuttingDown s) eqn:E; [|done].
    unfold server_inv; simpl. rewrite E. by repeat split.
Qed.

Lemma server_run_inv es s :
  server_inv s → server_inv (server_run setupMiddleware es s).
Proof.
  revert s. induction es as [|e es IH]; intros s Hs; [done|].
  simpl. apply IH. by apply server_step_inv.
Qed.

(** C9: [setupMiddleware] does not install the guard's middleware, so
    whatever requests, completions, cleanup ticks and signals the process
    sees, both tracker maps of the guard are empty and no request has the
    guard's listeners; still the first termination signal runs
    [SlowLorisProtection.destroy()], after which the cleanup interval is
    cancelled. *)
Theorem guard_is_never_installed (es : list Event) :
  let s := server_run setupMiddleware es server_init in
  (SlowLorisMiddleware ∉ setupMiddleware)
  ∧ connectionMap (guard s) = ∅
  ∧ downloadMap (guard s) = ∅
  ∧ inflight s = []
  ∧ (isShuttingDown s = false →
     guard (server_step setupMiddleware s Signal) = destroy (guard s))
  ∧ cleanupInterval
      (guard (server_run setupMiddleware (es ++ [Signal]) server_init)) = false.
Proof.
  intros s.
  destruct (server_run_inv es server_init server_init_inv)
    as (Hc & Hd & Hi & He & Hs). fold s in Hc, Hd, Hi, He, Hs.
  split.
  { unfold setupMiddleware. intros H.
    repeat (apply elem_of_cons in H as [H|H]; [discriminate|]).
    by apply elem_of_nil in H. }
  do 3 (split; [done|]). split.
  - intros Hns. unfold server_step, gracefulShutdown. by rewrite (He Hns), Hns.
  - assert (server_run setupMiddleware (es ++ [Signal]) server_init
            = server_step setupMiddleware s Signal) as ->
      by (unfold server_run; by rewrite foldl_app).
    unfold server_step, gracefulShutdown.
    destruct (isShuttingDown s) eqn:E.
    + destruct (exited s); simpl; by apply Hs.
    + by rewrite (He eq_refl).
Qed.

Lemma guard_is_never_installed_witness :
  guard (server_step setupMiddleware
           (server_run setupMiddleware
              [Incoming (get "10.0.0.1" "/snapshots/snapshot_1.gz") 0;
               CleanupTick 30000] server_init) Signal)
  = destroy (guard (server_run setupMiddleware
                      [Incoming (get "10.0.0.1" "/snapshots/snapshot_1.gz") 0;
                       CleanupTick 30000] server_init)).
Proof.
  apply (guard_is_never_installed
           [Incoming (get "10.0.0.1" "/snapshots/snapshot_1.gz") 0;
            CleanupTick 30000]).
  vm_compute; reflexivity.
Defined.

(** Had line 32 of BackupServer.ts not been a comment, the first request
    would have created a tracker. *)
Lemma guard_installed_would_track :
  let mws := [Helmet; SlowLorisMiddleware; Morgan; Limiter; JsonParser;
              UrlencodedParser; RequestValidation] in
  let s := server_run mws [Incoming (get "10.0.0.1" "/health") 0] server_init in
  connections <$> (connectionMap (guard s) !! "10.0.0.1") = Some 1
  ∧ length (inflight s) = 1%nat.
Proof. split; vm_compute; reflexivity. Qed.

(** ** The request-rate limit and the snapshot routes *)

(** C10: a GET request whose path starts with [/snapshots/] is skipped by
    the rate limiter: [skip] answers true, the limiter lets it through
    without adding a hit, whatever the hits already recorded under its
    key, and the hit table of the server is the same after the request. *)
Theorem snapshot_gets_skip_the_rate_limit
    (req : Request) (rest : string) (now : Z) (s : Server) :
  req_method req = "GET" →
  req_path req = String.append "/snapshots/" rest →
  skip RATE_LIMIT req = true
  ∧ (∀ h, rateLimit RATE_LIMIT req h = (Continue, h))
  ∧ apply_middleware Limiter req now s = (Continue, s)
  ∧ hits (server_step setupMiddleware s (Incoming req now)) = hits s.
Proof.
  intros Hm Hp.
  assert (skip RATE_LIMIT req = true) as Hskip.
  { unfold RATE_LIMIT; cbn [skip]. rewrite Hm, Hp. by destruct rest. }
  assert (∀ h, rateLimit RATE_LIMIT req h = (Continue, h)) as Hrl.
  { intros h. unfold rateLimit. by rewrite Hskip. }
  split; [done|]. split; [done|]. split.
  - cbn [apply_middleware]. rewrite Hrl. by destruct s.
  - unfold server_step. destruct (exited s); [done|].
    destruct (pipeline_setupMiddleware req now s) as (_ & _ & _ & _ & ->).
    by rewrite Hrl.
Qed.

Lemma snapshot_gets_skip_the_rate_limit_witness :
  rateLimit RATE_LIMIT (get "10.0.0.1" "/snapshots/snapshot_1.gz")
    {[ Some "10.0.0.1" := 5000 ]}
  = (Continue, {[ Some "10.0.0.1" := 5000 ]}).
Proof.
  apply (snapshot_gets_skip_the_rate_limit
           (get "10.0.0.1" "/snapshots/snapshot_1.gz") "snapshot_1.gz" 0 server_init);
    reflexivity.
Defined.

(** The listing requested as [/snapshots], without the trailing slash, and
    any other route are counted, and refused beyond [max] hits. *)
Lemma other_requests_are_counted :
  skip RATE_LIMIT (get "10.0.0.1" "/snapshots") = false
  ∧ rateLimit RATE_LIMIT (get "10.0.0.1" "/snapshots") ∅
    = (Continue, {[ Some "10.0.0.1" := 1 ]})
  ∧ rateLimit RATE_LIMIT (get "10.0.0.1" "/health") {[ Some "10.0.0.1" := 200 ]}
    = (Replied 429, {[ Some "10.0.0.1" := 201 ]}).
Proof. repeat split; vm_compute; reflexivity. Qed.

(** * Further properties of the guard *)

(** ** The admit decision *)

Lemma isIpBlocked_true ip now g :
  (isIpBlocked ip now g).1 = true ↔
  ∃ t, connectionMap g !! ip = Some t ∧ c_isBlocked t = true ∧ now < c_blockUntil t.
Proof.
  unfold isIpBlocked. destruct (connectionMap g !! ip) as [t|]; simpl.
  - destruct (c_isBlocked t) eqn:Hb; simpl.
    + destruct (now <? c_blockUntil t) eqn:Hlt; simpl.
      * apply Z.ltb_lt in Hlt. split; [|done]. intros _. by exists t.
      * apply Z.ltb_ge in Hlt. split; [by destruct (c_blockUntil t <=? now)|].
        intros (t' & Ht' & _ & Hlt'). simplify_eq. lia.
    + split; [done|]. intros (t' & Ht' & Hb' & _). simplify_eq. congruence.
  - split; [done|]. by intros (t' & Ht' & _).
Qed.

Lemma isIpBlocked_true_guard ip now g :
  (isIpBlocked ip now g).1 = true → (isIpBlocked ip now g).2 = g.
Proof. unfold isIpBlocked. by repeat case_match. Qed.

Lemma isDownloadBlocked_true ip now g :
  (isDownloadBlocked ip now g).1 = true ↔
  ∃ t, downloadTracker ip g = Some t ∧ d_isBlocked t = true ∧ now < d_blockUntil t.
Proof.
  setoid_rewrite downloadTracker_ref.
  unfold isDownloadBlocked. destruct (downloadRef ip g) as [[l t]|]; simpl.
  - destruct (d_isBlocked t) eqn:Hb; simpl.
    + destruct (now <? d_blockUntil t) eqn:Hlt; simpl.
      * apply Z.ltb_lt in Hlt. split; [|done]. intros _. exists t. eauto.
      * apply Z.ltb_ge in Hlt. split; [by destruct (d_blockUntil t <=? now)|].
        intros (t' & [l' Ht'] & _ & Hlt'). simplify_eq. lia.
    + split; [done|]. intros (t' & [l' Ht'] & Hb' & _). simplify_eq. congruence.
  - split; [done|]. by intros (t' & [l' Ht'] & _).
Qed.

Lemma isDownloadBlocked_true_guard ip now g :
  (isDownloadBlocked ip now g).1 = true → (isDownloadBlocked ip now g).2 = g.
Proof. unfold isDownloadBlocked. by repeat case_match. Qed.

(** The verdict of the middleware in terms of the two block tests. *)
Lemma middleware_verdict req now g :
  let blocked := if isSnapshotGet req
                 then (isDownloadBlocked (clientIp req) now g).1
                 else (isIpBlocked (clientIp req) now g).1 in
  (blocked = true →
     middleware req now g
     = (Rejected 429
          (ceil_div_1000
             ((if isSnapshotGet req then getDownloadBlockTime (clientIp req) g
               else getBlockTime (clientIp req) g) - now)), g))
  ∧ (blocked = false → ∀ s r, (middleware req now g).1 ≠ Rejected s r).
Proof.
  unfold middleware, handleDownloadProtection. destruct (isSnapshotGet req).
  - pose proof (isDownloadBlocked_true_guard (clientIp req) now g) as Hg.
    destruct (isDownloadBlocked (clientIp req) now g) as [[] g1]; simpl in *.
    + rewrite (Hg eq_refl). by split.
    + by split.
  - pose proof (isIpBlocked_true_guard (clientIp req) now g) as Hg.
    destruct (isIpBlocked (clientIp req) now g) as [[] g1]; simpl in *.
    + rewrite (Hg eq_refl). by split.
    + by split.
Qed.

(** X1: the middleware denies a request exactly when the client has an
    entry in the tracker map of the request's kind (download map for a
    GET under [/snapshots/], connection map otherwise) that is blocked
    with [now < blockUntil]; in every other case, unknown client, not
    blocked, or block lapsed, the request is admitted. *)
Theorem middleware_denies_iff_blocked (req : Request) (now : Z) (g : Guard) :
  (∃ status retryAfter, (middleware req now g).1 = Rejected status retryAfter)
  ↔ if isSnapshotGet req
    then ∃ t, downloadTracker (clientIp req) g = Some t
              ∧ d_isBlocked t = true ∧ now < d_blockUntil t
    else ∃ t, connectionMap g !! clientIp req = Some t
              ∧ c_isBlocked t = true ∧ now < c_blockUntil t.
Proof.
  destruct (middleware_verdict req now g) as [Hyes Hno].
  destruct (isSnapshotGet req).
  - rewrite <- isDownloadBlocked_true.
    destruct ((isDownloadBlocked (clientIp req) now g).1).
    + split; [done|]. intros _. rewrite (Hyes eq_refl). by eexists _, _.
    + split; [|done]. intros (s & r & H). by destruct (Hno eq_refl s r).
  - rewrite <- isIpBlocked_true.
    destruct ((isIpBlocked (clientIp req) now g).1).
    + split; [done|]. intros _. rewrite (Hyes eq_refl). by eexists _, _.
    + split; [|done]. intros (s & r & H). by destruct (Hno eq_refl s r).
Qed.

(** X2: a denial has status 429 and changes nothing in the guard: no
    entry is created, no counter, timestamp or flag of any tracker is
    written, so a denied request is neither registered nor counted, and
    the client's [lastActivity] is not refreshed by it. *)
Theorem rejection_is_inert
    (req : Request) (now : Z) (g : Guard) (status retryAfter : Z) :
  (middleware req now g).1 = Rejected status retryAfter →
  status = 429
  ∧ (middleware req now g).2 = g
  ∧ connectionMap (middleware req now g).2 = connectionMap g
  ∧ downloadMap (middleware req now g).2 = downloadMap g
  ∧ trackerHeap (middleware req now g).2 = trackerHeap g.
Proof.
  intros Hrej. destruct (middleware_verdict req now g) as [Hyes Hno].
  assert (status = 429 ∧ (middleware req now g).2 = g) as [-> Hg].
  { destruct (isSnapshotGet req) eqn:Hget.
    - destruct ((isDownloadBlocked (clientIp req) now g).1) eqn:Hb;
        [|by destruct (Hno eq_refl status retryAfter)].
      rewrite (Hyes eq_refl) in Hrej |- *. simpl in *. by simplify_eq.
    - destruct ((isIpBlocked (clientIp req) now g).1) eqn:Hb;
        [|by destruct (Hno eq_refl status retryAfter)].
      rewrite (Hyes eq_refl) in Hrej |- *. simpl in *. by simplify_eq. }
  by rewrite Hg.
Qed.

Lemma rejection_is_inert_witness :
  let g := run (OpAddConnection "10.0.0.1" 0
                :: replicate 50 (OpAddConnection "10.0.0.1" 40000)) guard_init in
  (middleware (get "10.0.0.1" "/health") 639999 g).2 = g.
Proof.
  intros g.
  refine (proj1 (proj2 (rejection_is_inert (get "10.0.0.1" "/health") 639999 g
                          429 1 _))).
  vm_compute; reflexivity.
Defined.

(** X3: a block expires by itself.  For a client whose entry is blocked
    with [blockUntil <= now], the block test answers false and resets
    [isBlocked] to false and [blockUntil] to 0, and the request is
    admitted and registered on the unblocked tracker; the same holds on
    the download path. *)
Theorem lapsed_block_is_lifted (req : Request) (now : Z) (g : Guard) :
  (∀ t, isSnapshotGet req = false →
        connectionMap g !! clientIp req = Some t →
        c_isBlocked t = true → c_blockUntil t <= now →
        isIpBlocked (clientIp req) now g
        = (false, with_connectionMap
                    (<[clientIp req := c_unblock t]> (connectionMap g)) g)
        ∧ (middleware req now g).1
          = ConnectionAdmitted (setupConnectionTimeouts (clientIp req) now)
        ∧ connectionMap (middleware req now g).2 !! clientIp req
          = Some (addConnection_tracker now (c_unblock t)))
  ∧ (∀ l t, isSnapshotGet req = true →
        downloadRef (clientIp req) g = Some (l, t) →
        d_isBlocked t = true → d_blockUntil t <= now →
        isDownloadBlocked (clientIp req) now g
        = (false, store l (set_d_block false 0 t) g)
        ∧ (∃ m, (middleware req now g).1
                = DownloadAdmitted {| dr_ip := clientIp req; dr_monitor := Some m |})
        ∧ downloadRef (clientIp req) (middleware req now g).2
          = Some (l, addDownload_tracker now (set_d_block false 0 t))).
Proof.
  split.
  - intros t Hnd Hl Hb Hle.
    assert (isIpBlocked (clientIp req) now g
            = (false, with_connectionMap
                        (<[clientIp req := c_unblock t]> (connectionMap g)) g)) as Hib.
    { unfold isIpBlocked. rewrite Hl, Hb. simpl.
      apply Z.leb_le in Hle as Hle'. rewrite Hle'.
      by replace (now <? c_blockUntil t) with false by (symmetry; apply Z.ltb_ge; lia). }
    split; [done|]. unfold middleware. rewrite Hnd, Hib. simpl.
    split; [done|]. unfold addConnection; simpl.
    by rewrite !lookup_insert_eq.
  - intros l t Hget Hr Hb Hle.
    assert (isDownloadBlocked (clientIp req) now g
            = (false, store l (set_d_block false 0 t) g)) as Hib.
    { unfold isDownloadBlocked. rewrite Hr, Hb. simpl.
      apply Z.leb_le in Hle as Hle'. rewrite Hle'.
      by replace (now <? d_blockUntil t) with false by (symmetry; apply Z.ltb_ge; lia). }
    split; [done|]. unfold middleware, handleDownloadProtection.
    rewrite Hget, Hib.
    pose proof (store_downloadRef _ _ (set_d_block false 0 t) _ _ Hr) as Hr1.
    unfold addDownload, setupDownloadMonitoring. rewrite Hr1.
    rewrite (store_downloadRef _ _ (addDownload_tracker now (set_d_block false 0 t)) _ _ Hr1).
    split; [by eexists|]. cbn [snd].
    by apply (store_downloadRef _ _ _ _ _ Hr1).
Qed.

Lemma lapsed_block_is_lifted_witness :
  let g := run (OpAddConnection "10.0.0.1" 0
                :: replicate 50 (OpAddConnection "10.0.0.1" 40000)) guard_init in
  (middleware (get "10.0.0.1" "/health") 640000 g).1
  = ConnectionAdmitted (setupConnectionTimeouts "10.0.0.1" 640000).
Proof.
  intros g.
  refine (proj1 (proj2 (proj1 (lapsed_block_is_lifted
                                 (get "10.0.0.1" "/health") 640000 g)
     {| c_ip := "10.0.0.1"; connections := 51; slowConnections := 0;
        c_lastActivity := 40000; c_isBlocked := true; c_blockUntil := 640000;
        firstConnection := 0; requestCount := 51; timeoutCount := 0 |}
     eq_refl _ eq_refl _))).
  - vm_compute; reflexivity.
  - simpl; lia.
Defined.

(** ** Consistency of the tracker maps *)

Lemma guard_ok_insert ip t g :
  guard_ok g → connection_tracker_ok ip t →
  guard_ok (with_connectionMap (<[ip := t]> (connectionMap g)) g).
Proof.
  intros (Hc & Hd & Hw & Hi) Ht. split; [|done].
  by apply map_Forall_insert_2.
Qed.

Lemma guard_ok_connection g ip t :
  guard_ok g → connectionMap g !! ip = Some t → connection_tracker_ok ip t.
Proof. intros (Hc & _) Hl. exact (Hc ip t Hl). Qed.

Lemma guard_ok_download g l t :
  guard_ok g → trackerHeap g !! l = Some t → download_tracker_ok t.
Proof. intros (_ & Hd & _) Hl. exact (Forall_lookup_1 _ _ _ _ Hd Hl). Qed.

Lemma guard_ok_store l t t0 g :
  guard_ok g → trackerHeap g !! l = Some t0 →
  download_tracker_ok t → d_ip t = d_ip t0 →
  guard_ok (store l t g).
Proof.
  intros (Hc & Hd & Hw & Hi) Hl Ht Hip. split; [done|]. split; [|split].
  - simpl. by apply Forall_insert.
  - by apply (heap_wf_same g); [|apply store_length|].
  - intros ip l' t' Hm Hl'. simpl in Hm, Hl'.
    destruct (decide (l' = l)) as [->|Hne].
    + rewrite list_lookup_insert_eq in Hl' by (by eapply lookup_lt_Some).
      simplify_eq. rewrite Hip. by eapply Hi.
    + rewrite list_lookup_insert_ne in Hl' by done. by eapply Hi.
Qed.

Lemma addConnection_tracker_ok ip now t :
  connection_tracker_ok ip t → connection_tracker_ok ip (addConnection_tracker now t).
Proof.
  intros (Hip & Hc & Ht & Hs & Hb). unfold addConnection_tracker.
  destruct (shouldBlock now (c_touch now t)); repeat split; simpl; try done; lia.
Qed.

Lemma newConnectionTracker_ok ip now :
  connection_tracker_ok ip (newConnectionTracker ip now).
Proof. by repeat split. Qed.

Lemma isIpBlocked_ok ip now g : guard_ok g → guard_ok (isIpBlocked ip now g).2.
Proof.
  intros Hg. unfold isIpBlocked.
  destruct (connectionMap g !! ip) as [t|] eqn:E; [|done].
  destruct (guard_ok_connection _ _ _ Hg E) as (Hip & Hc & Ht & Hs & Hb).
  repeat case_match; simpl; try done.
  apply guard_ok_insert; [done|]. repeat split; simpl; try done; lia.
Qed.

Lemma addConnection_ok ip now g : guard_ok g → guard_ok (addConnection ip now g).
Proof.
  intros Hg. unfold addConnection. apply guard_ok_insert; [done|].
  apply addConnection_tracker_ok.
  destruct (connectionMap g !! ip) as [t|] eqn:E.
  - by eapply guard_ok_connection.
  - apply newConnectionTracker_ok.
Qed.

Lemma removeConnection_ok ip now g : guard_ok g → guard_ok (removeConnection ip now g).
Proof.
  intros Hg. unfold removeConnection.
  destruct (connectionMap g !! ip) as [t|] eqn:E; [|done].
  destruct (guard_ok_connection _ _ _ Hg E) as (Hip & Hc & Ht & Hs & Hb).
  destruct (0 <? connections t) eqn:Hpos; [|done].
  apply Z.ltb_lt in Hpos. apply guard_ok_insert; [done|].
  repeat split; simpl; try done; lia.
Qed.

Lemma recordTimeout_ok ip now g : guard_ok g → guard_ok (recordTimeout ip now g).
Proof.
  intros Hg. unfold recordTimeout.
  destruct (connectionMap g !! ip) as [t|] eqn:E; [|done].
  destruct (guard_ok_connection _ _ _ Hg E) as (Hip & Hc & Ht & Hs & Hb).
  apply guard_ok_insert; [done|].
  case_match; repeat split; simpl; try done; lia.
Qed.

Lemma isDownloadBlocked_ok ip now g : guard_ok g → guard_ok (isDownloadBlocked ip now g).2.
Proof.
  intros Hg. unfold isDownloadBlocked.
  destruct (downloadRef ip g) as [[l t]|] eqn:E; [|done].
  apply downloadRef_Some in E as [_ E].
  destruct (guard_ok_download _ _ _ Hg E) as (Ha & Hs & Hb & Hu).
  repeat case_match; simpl; try done.
  eapply guard_ok_store; [done|done| |done]. by repeat split.
Qed.

Lemma addDownload_tracker_ok now t :
  download_tracker_ok t → download_tracker_ok (addDownload_tracker now t).
Proof.
  intros (Ha & Hs & Hb & Hu). unfold addDownload_tracker.
  case_match; repeat split; simpl; try done; lia.
Qed.

Lemma addDownload_tracker_ip now t : d_ip (addDownload_tracker now t) = d_ip t.
Proof. unfold addDownload_tracker. by case_match. Qed.

Lemma addDownload_ok ip now g : guard_ok g → guard_ok (addDownload ip now g).
Proof.
  intros Hg. unfold addDownload.
  destruct (downloadRef ip g) as [[l t]|] eqn:E.
  - apply downloadRef_Some in E as [_ E].
    eapply guard_ok_store; [done|done| |apply addDownload_tracker_ip].
    apply addDownload_tracker_ok. by eapply guard_ok_download.
  - pose proof (addDownload_wf ip now g) as Hwf.
    unfold addDownload in Hwf. rewrite E in Hwf.
    destruct Hg as (Hc & Hd & Hw & Hi).
    split; [done|]. split; [|split; [by apply Hwf|]].
    + simpl. apply Forall_app. split; [done|]. constructor; [|constructor].
      apply addDownload_tracker_ok. by repeat split.
    + intros ip' l t Hm Hl. simpl in Hm, Hl.
      destruct (decide (ip = ip')) as [->|Hne].
      * rewrite lookup_insert_eq in Hm. simplify_eq.
        rewrite lookup_app_r, Nat.sub_diag in Hl by done. simpl in Hl.
        simplify_eq. by rewrite addDownload_tracker_ip.
      * rewrite lookup_insert_ne in Hm by done.
        pose proof (Hw ip' l Hm) as Hlt. simpl in Hlt.
        rewrite lookup_app_l in Hl by done. by eapply Hi.
Qed.

Lemma removeDownload_ok ip now g : guard_ok g → guard_ok (removeDownload ip now g).
Proof.
  intros Hg. unfold removeDownload.
  destruct (downloadRef ip g) as [[l t]|] eqn:E; [|done].
  apply downloadRef_Some in E as [_ E].
  destruct (guard_ok_download _ _ _ Hg E) as (Ha & Hs & Hb & Hu).
  destruct (0 <? activeDownloads t) eqn:Hpos; [|done].
  apply Z.ltb_lt in Hpos.
  eapply guard_ok_store; [done|done| |done]. repeat split; simpl; try done; lia.
Qed.

Lemma sample_ok len bytes now start t :
  download_tracker_ok t → download_tracker_ok (sample len bytes now start t).
Proof.
  intros (Ha & Hs & Hb & Hu). unfold sample.
  repeat case_match; repeat split; simpl; try done; lia.
Qed.

Lemma sample_ip len bytes now start t : d_ip (sample len bytes now start t) = d_ip t.
Proof. unfold sample. by repeat case_match. Qed.

Lemma res_write_ok chunk now m g res :
  guard_ok g → guard_ok (res_write chunk now m g res).1.2.
Proof.
  intros Hg. unfold res_write. destruct chunk; simpl; try done.
  destruct (trackerHeap g !! m_tracker m) as [t|] eqn:E; [|done].
  eapply guard_ok_store; [done|done| |apply sample_ip].
  apply sample_ok. by eapply guard_ok_download.
Qed.

Lemma res_end_ok chunk m g res :
  guard_ok g → guard_ok (res_end chunk m g res).1.2.
Proof.
  intros Hg. unfold res_end. destruct chunk; simpl; try done.
  destruct (trackerHeap g !! m_tracker m) as [t|] eqn:E; [|done].
  destruct (guard_ok_download _ _ _ Hg E) as (Ha & Hs & Hb & Hu).
  eapply guard_ok_store; [done|done| |done]. repeat split; simpl; try done; lia.
Qed.

Lemma downloadTimeout_callback_ok now body m g res :
  guard_ok g → guard_ok (downloadTimeout_callback now body m g res).1.2.
Proof.
  intros Hg. unfold downloadTimeout_callback.
  destruct (trackerHeap g !! m_tracker m) as [t|] eqn:E; [|done].
  destruct (JsNum.ltb (transferRate t) MIN_TRANSFER_RATE); [|done].
  destruct (guard_ok_download _ _ _ Hg E) as (Ha & Hs & Hb & Hu).
  assert (guard_ok
            (store (m_tracker m) (set_d_block true (now + BLOCK_DURATION) t) g)) as Hg1.
  { eapply guard_ok_store; [done|done| |done]. by repeat split. }
  destruct (negb (headersSent res)).
  - unfold res_status_json.
    pose proof (res_end_ok body m _ (set_status 408 res) Hg1) as H2.
    destruct (res_end body m _ (set_status 408 res)) as [[m2 g2] res2].
    by apply res_end_ok.
  - by apply res_end_ok.
Qed.

Lemma cleanup_ok now g : guard_ok g → guard_ok (cleanupExpiredConnections now g).
Proof.
  intros (Hc & Hd & Hw & Hi). split; [|split; [done|split]].
  - by apply map_Forall_foldr_delete.
  - unfold heap_wf; simpl. by apply map_Forall_foldr_delete.
  - intros ip l t Hm Hl. simpl in Hm, Hl.
    apply lookup_foldr_delete_Some in Hm as [_ Hm]. by eapply Hi.
Qed.

Lemma destroy_ok g : guard_ok g → guard_ok (destroy g).
Proof.
  intros (Hc & Hd & Hw & Hi). split; [apply map_Forall_empty|].
  split; [done|]. split; [apply map_Forall_empty|].
  intros ip l t Hm. simpl in Hm. by rewrite lookup_empty in Hm.
Qed.

Lemma middleware_ok req now g : guard_ok g → guard_ok (middleware req now g).2.
Proof.
  intros Hg. unfold middleware, handleDownloadProtection.
  destruct (isSnapshotGet req).
  - pose proof (isDownloadBlocked_ok (clientIp req) now g Hg) as H1.
    destruct (isDownloadBlocked (clientIp req) now g) as [[] g1]; simpl in *;
      [done|]. by apply addDownload_ok.
  - pose proof (isIpBlocked_ok (clientIp req) now g Hg) as H1.
    destruct (isIpBlocked (clientIp req) now g) as [[] g1]; simpl in *;
      [done|]. by apply addConnection_ok.
Qed.

Lemma step_ok g op : guard_ok g → guard_ok (step g op).
Proof.
  intros Hg. destruct op; simpl;
    eauto using isIpBlocked_ok, addConnection_ok, removeConnection_ok,
      recordTimeout_ok, isDownloadBlocked_ok, addDownload_ok, removeDownload_ok,
      res_write_ok, res_end_ok, downloadTimeout_callback_ok, middleware_ok,
      cleanup_ok, destroy_ok.
Qed.

Lemma guard_init_ok : guard_ok guard_init.
Proof.
  split; [apply map_Forall_empty|]. split; [constructor|].
  split; [apply map_Forall_empty|]. intros ip l t Hm. simpl in Hm.
  by rewrite lookup_empty in Hm.
Qed.

Lemma run_ok ops g : guard_ok g → guard_ok (run ops g).
Proof.
  revert g. induction ops as [|op ops IH]; intros g Hg; [done|].
  simpl. apply IH. by apply step_ok.
Qed.

(** Two clients never share a download tracker. *)
Lemma guard_ok_inj g ip1 ip2 l :
  guard_ok g → downloadMap g !! ip1 = Some l → downloadMap g !! ip2 = Some l →
  ip1 = ip2.
Proof.
  intros (_ & _ & Hw & Hi) H1 H2.
  destruct (lookup_lt_is_Some_2 (trackerHeap g) l) as [t Ht]; [exact (Hw ip1 l H1)|].
  by rewrite <- (Hi ip1 l t H1 Ht), <- (Hi ip2 l t H2 Ht).
Qed.

(** X4: in every state the guard can reach, a connection tracker is
    stored under its own [ip], its open connections never exceed the
    requests it has counted, [slowConnections] equals [timeoutCount], and
    an entry that is not blocked has [blockUntil = 0]; a download entry
    refers to the tracker of its own [ip], with non-negative byte and
    slow-sample counts and [blockUntil = 0] while it is not blocked. *)
Theorem reachable_trackers_are_consistent (ops : list Op) :
  let g := run ops guard_init in
  (∀ ip t, connectionMap g !! ip = Some t →
     c_ip t = ip
     ∧ 0 <= connections t <= requestCount t
     ∧ slowConnections t = timeoutCount t
     ∧ (c_isBlocked t = false → c_blockUntil t = 0))
  ∧ (∀ ip t, downloadTracker ip g = Some t →
     d_ip t = ip
     ∧ 0 <= slowDownloads t
     ∧ 0 <= totalBytesTransferred t
     ∧ (d_isBlocked t = false → d_blockUntil t = 0))
  ∧ (∀ ip1 ip2 l, downloadMap g !! ip1 = Some l → downloadMap g !! ip2 = Some l →
     ip1 = ip2).
Proof.
  intros g. assert (guard_ok g) as Hg by apply run_ok, guard_init_ok.
  split; [|split].
  - intros ip t Hl.
    destruct (guard_ok_connection _ _ _ Hg Hl) as (Hip & Hc & Ht & Hs & Hb). done.
  - intros ip t [l [Hm Hl]%downloadRef_Some]%downloadTracker_ref.
    destruct (guard_ok_download _ _ _ Hg Hl) as (Ha & Hs & Hb & Hu).
    destruct Hg as (_ & _ & _ & Hi). split; [by eapply Hi|done].
  - intros ip1 ip2 l. by apply guard_ok_inj.
Qed.

Lemma reachable_trackers_are_consistent_witness :
  ∃ t, connectionMap
         (run [OpAddConnection "10.0.0.1" 0; OpRecordTimeout "10.0.0.1" 60000;
               OpRemoveConnection "10.0.0.1" 60001] guard_init) !! "10.0.0.1"
       = Some t
       ∧ 0 <= connections t <= requestCount t
       ∧ slowConnections t = timeoutCount t.
Proof.
  eexists. split; [vm_compute; reflexivity|].
  edestruct (proj1 (reachable_trackers_are_consistent
                      [OpAddConnection "10.0.0.1" 0;
                       OpRecordTimeout "10.0.0.1" 60000;
                       OpRemoveConnection "10.0.0.1" 60001]) "10.0.0.1")
    as (_ & Hc & Hs & _); [vm_compute; reflexivity|].
  split; [exact Hc|exact Hs].
Defined.

(** ** Clients do not interfere *)

Lemma downloadTracker_store_ne g ip ip' l t :
  guard_ok g → downloadMap g !! ip = Some l → ip ≠ ip' →
  downloadTracker ip' (store l t g) = downloadTracker ip' g.
Proof.
  intros Hg Hm Hne. unfold downloadTracker; simpl.
  destruct (downloadMap g !! ip') as [l'|] eqn:E; [|done].
  apply list_lookup_insert_ne. intros ->. apply Hne. by eapply guard_ok_inj.
Qed.

Lemma isDownloadBlocked_other ip ip' now g :
  guard_ok g → ip ≠ ip' →
  downloadTracker ip' (isDownloadBlocked ip now g).2 = downloadTracker ip' g
  ∧ connectionMap (isDownloadBlocked ip now g).2 = connectionMap g.
Proof.
  intros Hg Hne. unfold isDownloadBlocked.
  destruct (downloadRef ip g) as [[l t]|] eqn:E; [|done].
  apply downloadRef_Some in E as [Hm _].
  repeat case_match; simpl; try done.
  split; [|done]. by eapply downloadTracker_store_ne.
Qed.

Lemma addDownload_other ip ip' now g :
  guard_ok g → ip ≠ ip' →
  downloadTracker ip' (addDownload ip now g) = downloadTracker ip' g
  ∧ connectionMap (addDownload ip now g) = connectionMap g.
Proof.
  intros Hg Hne. unfold addDownload.
  destruct (downloadRef ip g) as [[l t]|] eqn:E.
  - apply downloadRef_Some in E as [Hm _].
    split; [|done]. by eapply downloadTracker_store_ne.
  - split; [|done]. unfold downloadTracker; simpl.
    rewrite lookup_insert_ne by done.
    destruct (downloadMap g !! ip') as [l'|] eqn:E'; [|done].
    destruct Hg as (_ & _ & Hw & _). apply lookup_app_l. exact (Hw ip' l' E').
Qed.

Lemma removeDownload_other ip ip' now g :
  guard_ok g → ip ≠ ip' →
  downloadTracker ip' (removeDownload ip now g) = downloadTracker ip' g
  ∧ connectionMap (removeDownload ip now g) = connectionMap g.
Proof.
  intros Hg Hne. unfold removeDownload.
  destruct (downloadRef ip g) as [[l t]|] eqn:E; [|done].
  apply downloadRef_Some in E as [Hm _].
  case_match; [|done]. split; [|done]. by eapply downloadTracker_store_ne.
Qed.

Lemma isIpBlocked_other ip ip' now g :
  ip ≠ ip' →
  connectionMap (isIpBlocked ip now g).2 !! ip' = connectionMap g !! ip'
  ∧ downloadTracker ip' (isIpBlocked ip now g).2 = downloadTracker ip' g.
Proof.
  intros Hne. unfold isIpBlocked. repeat case_match; simpl; try done.
  split; [by apply lookup_insert_ne|done].
Qed.

Lemma addConnection_other ip ip' now g :
  ip ≠ ip' →
  connectionMap (addConnection ip now g) !! ip' = connectionMap g !! ip'
  ∧ downloadTracker ip' (addConnection ip now g) = downloadTracker ip' g.
Proof. intros Hne. split; [by apply lookup_insert_ne|done]. Qed.

Lemma removeConnection_other ip ip' now g :
  ip ≠ ip' →
  connectionMap (removeConnection ip now g) !! ip' = connectionMap g !! ip'
  ∧ downloadTracker ip' (removeConnection ip now g) = downloadTracker ip' g.
Proof.
  intros Hne. unfold removeConnection. repeat case_match; simpl; try done.
  split; [by apply lookup_insert_ne|done].
Qed.

Lemma recordTimeout_other ip ip' now g :
  ip ≠ ip' →
  connectionMap (recordTimeout ip now g) !! ip' = connectionMap g !! ip'
  ∧ downloadTracker ip' (recordTimeout ip now g) = downloadTracker ip' g.
Proof.
  intros Hne. unfold recordTimeout.
  destruct (connectionMap g !! ip); [|done].
  split; [by apply lookup_insert_ne|done].
Qed.

(** X5: in every reachable state, what the guard does for one client
    (admitting and registering a request, the 'finish'/'close' listeners
    of either path, a recorded timeout) leaves the connection entry and
    the download tracker of every other client exactly as they were. *)
Theorem other_clients_are_untouched
    (ops : list Op) (req : Request) (ip ip' : string) (now : Z) :
  let g := run ops guard_init in
  ip ≠ ip' →
  (clientIp req = ip →
   connectionMap (middleware req now g).2 !! ip' = connectionMap g !! ip'
   ∧ downloadTracker ip' (middleware req now g).2 = downloadTracker ip' g)
  ∧ (connectionMap (removeConnection ip now g) !! ip' = connectionMap g !! ip'
     ∧ downloadTracker ip' (removeConnection ip now g) = downloadTracker ip' g)
  ∧ (connectionMap (removeDownload ip now g) !! ip' = connectionMap g !! ip'
     ∧ downloadTracker ip' (removeDownload ip now g) = downloadTracker ip' g)
  ∧ (connectionMap (recordTimeout ip now g) !! ip' = connectionMap g !! ip'
     ∧ downloadTracker ip' (recordTimeout ip now g) = downloadTracker ip' g).
Proof.
  intros g Hne. assert (guard_ok g) as Hg by apply run_ok, guard_init_ok.
  split; [|split; [|split]].
  - intros <-. unfold middleware, handleDownloadProtection.
    destruct (isSnapshotGet req).
    + destruct (isDownloadBlocked_other (clientIp req) ip' now g Hg Hne) as [Hd Hc].
      pose proof (isDownloadBlocked_ok (clientIp req) now g Hg) as Hg1.
      destruct (isDownloadBlocked (clientIp req) now g) as [[] g1];
        cbn [fst snd] in *.
      * by rewrite Hc.
      * destruct (addDownload_other (clientIp req) ip' now g1 Hg1 Hne) as [Hd' Hc'].
        by rewrite Hd', Hc', Hd, Hc.
    + destruct (isIpBlocked_other (clientIp req) ip' now g Hne) as [Hc Hd].
      destruct (isIpBlocked (clientIp req) now g) as [[] g1];
        cbn [fst snd] in *; [done|].
      destruct (addConnection_other (clientIp req) ip' now g1 Hne) as [Hc' Hd'].
      by rewrite Hc', Hd', Hc, Hd.
  - by apply removeConnection_other.
  - destruct (removeDownload_other ip ip' now g Hg Hne) as [Hd Hc].
    by rewrite Hd, Hc.
  - by apply recordTimeout_other.
Qed.

Lemma other_clients_are_untouched_witness :
  let g := run [OpMiddleware (get "10.0.0.2" "/snapshots/snapshot_1.gz") 0;
                OpMiddleware (get "10.0.0.1" "/snapshots/snapshot_1.gz") 1]
               guard_init in
  downloadTracker "10.0.0.2"
    (middleware (get "10.0.0.1" "/snapshots/snapshot_2.gz") 2 g).2
  = downloadTracker "10.0.0.2" g.
Proof.
  intros g.
  refine (proj2 (proj1 (other_clients_are_untouched
            [OpMiddleware (get "10.0.0.2" "/snapshots/snapshot_1.gz") 0;
             OpMiddleware (get "10.0.0.1" "/snapshots/snapshot_1.gz") 1]
            (get "10.0.0.1" "/snapshots/snapshot_2.gz") "10.0.0.1" "10.0.0.2" 2 _)
            eq_refl)).
  discriminate.
Defined.

(** ** Entries disappear only through the cleanup *)

Lemma isDownloadBlocked_keeps ip now g :
  downloadMap (isDownloadBlocked ip now g).2 = downloadMap g
  ∧ connectionMap (isDownloadBlocked ip now g).2 = connectionMap g.
Proof. unfold isDownloadBlocked. by repeat case_match. Qed.

Lemma addDownload_keeps ip ip' now g l :
  heap_wf g → downloadMap g !! ip' = Some l →
  downloadMap (addDownload ip now g) !! ip' = Some l.
Proof.
  intros Hw Hm. unfold addDownload.
  destruct (downloadRef ip g) as [[l0 t]|] eqn:E; [done|]. simpl.
  destruct (decide (ip = ip')) as [->|Hne]; [|by rewrite lookup_insert_ne].
  unfold downloadRef in E. rewrite Hm in E.
  destruct (lookup_lt_is_Some_2 (trackerHeap g) l) as [t Ht]; [exact (Hw ip' l Hm)|].
  by rewrite Ht in E.
Qed.

Lemma res_end_connectionMap chunk m g res :
  connectionMap (res_end chunk m g res).1.2 = connectionMap g.
Proof. unfold res_end. by repeat case_match. Qed.

Lemma downloadTimeout_callback_connectionMap now body m g res :
  connectionMap (downloadTimeout_callback now body m g res).1.2 = connectionMap g.
Proof.
  unfold downloadTimeout_callback.
  destruct (trackerHeap g !! m_tracker m) as [t|]; [|done].
  destruct (JsNum.ltb (transferRate t) MIN_TRANSFER_RATE); [|done].
  destruct (negb (headersSent res)).
  - unfold res_status_json.
    destruct (res_end body m _ (set_status 408 res)) as [[m2 g2] res2] eqn:E.
    rewrite res_end_connectionMap.
    replace g2 with (res_end body m
      (store (m_tracker m) (set_d_block true (now + BLOCK_DURATION) t) g)
      (set_status 408 res)).1.2 by (by rewrite E).
    by rewrite res_end_connectionMap.
  - by rewrite res_end_connectionMap.
Qed.

(** X6: no operation of the guard other than the periodic cleanup and
    [destroy] removes an entry: along any reachable state, after admitting
    a request, a listener, a timeout, a write, an end or a watchdog, every
    client that had a connection entry still has one, and every download
    entry still refers to the same tracker object. *)
Theorem only_the_cleanup_removes_entries (ops : list Op) (op : Op) :
  let g := run ops guard_init in
  (∀ now, op ≠ OpCleanup now) → op ≠ OpDestroy →
  (∀ ip, is_Some (connectionMap g !! ip) → is_Some (connectionMap (step g op) !! ip))
  ∧ (∀ ip l, downloadMap g !! ip = Some l → downloadMap (step g op) !! ip = Some l).
Proof.
  intros g Hnc Hnd. assert (guard_ok g) as Hg by apply run_ok, guard_init_ok.
  assert (heap_wf g) as Hw by (by destruct Hg as (_ & _ & Hw & _)).
  assert (∀ ip0 now0 g0 ip,
            is_Some (connectionMap g0 !! ip) →
            is_Some (connectionMap (addConnection ip0 now0 g0) !! ip)) as Hadd.
  { intros ip0 now0 g0 ip Hs. unfold addConnection; simpl.
    destruct (decide (ip0 = ip)) as [->|Hne];
      [rewrite lookup_insert_eq; eauto|by rewrite lookup_insert_ne]. }
  assert (∀ ip0 now0 g0 ip,
            is_Some (connectionMap g0 !! ip) →
            is_Some (connectionMap (isIpBlocked ip0 now0 g0).2 !! ip)) as Hblk.
  { intros ip0 now0 g0 ip Hs. unfold isIpBlocked.
    repeat case_match; simpl; try done.
    destruct (decide (ip0 = ip)) as [->|Hne];
      [rewrite lookup_insert_eq; eauto|by rewrite lookup_insert_ne]. }
  destruct op; simpl.
  - split; [by apply Hblk|]. intros ip' l. unfold isIpBlocked. by repeat case_match.
  - split; [by apply Hadd|done].
  - split; [|unfold removeConnection; by repeat case_match].
    intros ip' Hs. unfold removeConnection. repeat case_match; simpl; try done.
    destruct (decide (ip = ip')) as [->|Hne];
      [rewrite lookup_insert_eq; eauto|by rewrite lookup_insert_ne].
  - split; [|unfold recordTimeout; by repeat case_match].
    intros ip' Hs. unfold recordTimeout.
    destruct (connectionMap g !! ip) eqn:E; [|done]. simpl.
    destruct (decide (ip = ip')) as [->|Hne];
      [rewrite lookup_insert_eq; eauto|by rewrite lookup_insert_ne].
  - destruct (isDownloadBlocked_keeps ip now g) as [-> ->]. done.
  - split; [unfold addDownload; by repeat case_match|].
    intros ip' l. by apply addDownload_keeps.
  - unfold removeDownload. by repeat case_match.
  - rewrite res_write_downloadMap. split; [|done].
    unfold res_write. by repeat case_match.
  - rewrite res_end_downloadMap. split; [|done].
    unfold res_end. by repeat case_match.
  - by rewrite downloadTimeout_callback_downloadMap,
      downloadTimeout_callback_connectionMap.
  - unfold middleware, handleDownloadProtection. destruct (isSnapshotGet req).
    + destruct (isDownloadBlocked_keeps (clientIp req) now g) as [Hd Hc].
      assert (heap_wf (isDownloadBlocked (clientIp req) now g).2) as Hw1
        by (apply (heap_wf_same g);
              [done|apply isDownloadBlocked_length|done]).
      destruct (isDownloadBlocked (clientIp req) now g) as [[] g1]; simpl in *.
      * by rewrite Hd, Hc.
      * split.
        -- intros ip' Hs. unfold addDownload. rewrite <- Hc in Hs.
           by repeat case_match.
        -- intros ip' l Hm. apply addDownload_keeps; [done|]. by rewrite Hd.
    + split.
      * intros ip' Hs. pose proof (Hblk (clientIp req) now g ip' Hs) as Hs1.
        destruct (isIpBlocked (clientIp req) now g) as [[] g1]; simpl in *;
          [done|by apply Hadd].
      * intros ip' l Hm.
        assert (downloadMap (isIpBlocked (clientIp req) now g).2 = downloadMap g)
          as Heq by (unfold isIpBlocked; by repeat case_match).
        destruct (isIpBlocked (clientIp req) now g) as [[] g1]; simpl in *;
          by rewrite Heq.
  - by destruct (Hnc now).
  - done.
Qed.

Lemma only_the_cleanup_removes_entries_witness :
  let g := run [OpMiddleware (get "10.0.0.1" "/health") 0] guard_init in
  is_Some (connectionMap (step g (OpRemoveConnection "10.0.0.1" 5)) !! "10.0.0.1").
Proof.
  intros g.
  refine (proj1 (only_the_cleanup_removes_entries
                   [OpMiddleware (get "10.0.0.1" "/health") 0]
                   (OpRemoveConnection "10.0.0.1" 5) _ _) "10.0.0.1" _).
  - discriminate.
  - discriminate.
  - vm_compute. eauto.
Defined.

(** ** Register and unregister compose *)

(** X7: registering a request and then unregistering it brings the
    client's active-unit counter back to where it was (0 for a client
    first seen by that register) while the request stays counted in
    [requestCount]; [lastActivity] is the time of the unregister.  This
    holds for connections and for downloads alike. *)
Theorem register_unregister_round_trip (ip : string) (now1 now2 : Z) (g : Guard) :
  (∀ t, connectionMap g !! ip = Some t → 0 <= connections t) →
  (∀ l t, downloadRef ip g = Some (l, t) → 0 <= activeDownloads t) →
  let before := default (newConnectionTracker ip now1) (connectionMap g !! ip) in
  let active := match downloadRef ip g with
                | Some (_, t) => activeDownloads t
                | None => 0
                end in
  (∃ t', connectionMap (removeConnection ip now2 (addConnection ip now1 g)) !! ip
         = Some t'
         ∧ connections t' = connections before
         ∧ requestCount t' = requestCount before + 1
         ∧ c_lastActivity t' = now2)
  ∧ (∃ t', downloadTracker ip (removeDownload ip now2 (addDownload ip now1 g))
           = Some t'
           ∧ activeDownloads t' = active
           ∧ d_lastActivity t' = now2).
Proof.
  intros Hc Hd before active. split.
  - set (t1 := addConnection_tracker now1 before).
    assert (connectionMap (addConnection ip now1 g) !! ip = Some t1) as Hl.
    { unfold addConnection; simpl. rewrite lookup_insert_eq. subst t1 before.
      by destruct (connectionMap g !! ip). }
    assert (0 < connections t1) as Hpos.
    { subst t1. rewrite addConnection_tracker_connections. subst before.
      destruct (connectionMap g !! ip) as [t|] eqn:E; simpl; [|lia].
      specialize (Hc t eq_refl). lia. }
    exists (c_release now2 t1). split; [by apply removeConnection_positive|].
    simpl. subst t1. rewrite addConnection_tracker_connections.
    split; [lia|]. split; [|done].
    unfold addConnection_tracker. by case_match.
  - assert (∃ l t1, downloadRef ip (addDownload ip now1 g) = Some (l, t1)
                    ∧ activeDownloads t1 = active + 1) as (l & t1 & Hr & Ha).
    { unfold addDownload. subst active.
      destruct (downloadRef ip g) as [[l t]|] eqn:E.
      - exists l, (addDownload_tracker now1 t).
        split; [by eapply store_downloadRef|].
        by rewrite addDownload_tracker_activeDownloads.
      - exists (length (trackerHeap g)),
               (addDownload_tracker now1 (newDownloadTracker ip now1)).
        split; [|by rewrite addDownload_tracker_activeDownloads].
        apply downloadRef_intro; simpl; [apply lookup_insert_eq|].
        by rewrite lookup_app_r, Nat.sub_diag. }
    assert (0 < activeDownloads t1) as Hpos.
    { rewrite Ha. subst active.
      destruct (downloadRef ip g) as [[l0 t]|] eqn:E; [|lia].
      specialize (Hd l0 t eq_refl). lia. }
    unfold removeDownload. rewrite Hr. apply Z.ltb_lt in Hpos as ->.
    eexists. split.
    + apply downloadTracker_ref. exists l. by eapply store_downloadRef.
    + simpl. split; [lia|done].
Qed.

Lemma register_unregister_round_trip_witness :
  ∃ t', connectionMap
          (removeConnection "10.0.0.1" 9 (addConnection "10.0.0.1" 5 guard_init))
          !! "10.0.0.1" = Some t'
        ∧ connections t' = 0 ∧ requestCount t' = 1.
Proof.
  destruct (register_unregister_round_trip "10.0.0.1" 5 9 guard_init)
    as [(t' & Hl & Hc & Hr & _) _].
  - intros t H. vm_compute in H. discriminate.
  - intros l t H. vm_compute in H. discriminate.
  - exists t'. split; [exact Hl|]. split; [exact Hc|exact Hr].
Defined.

(** ** Timeouts *)

Lemma ratio_gt_7_10 a b :
  0 < b → Qgtb (ratio a b) (7 # 10) = true ↔ 7 * b < 10 * a.
Proof.
  intros Hb. rewrite Qgtb_true. unfold ratio, Qlt, Qdiv, Qmult, Qinv, inject_Z.
  destruct b as [|p|p]; try lia. simpl. lia.
Qed.

(** X8: a timeout recorded for an unknown client changes nothing.  For a
    known client it adds one to [timeoutCount] and [slowConnections] and
    blocks the client for SLOW_LORIS_BLOCK_DURATION exactly when the new
    [timeoutCount] exceeds 10 and exceeds 70% of [max(requestCount, 1)];
    otherwise the block fields are left alone.  A client with fewer than
    10 earlier timeouts is therefore never blocked by a timeout. *)
Theorem recordTimeout_blocks_after_ten (ip : string) (now : Z) (g : Guard) :
  (connectionMap g !! ip = None → recordTimeout ip now g = g)
  ∧ (∀ t, connectionMap g !! ip = Some t →
       let n := timeoutCount t + 1 in
       let penalised := n > 10 ∧ 10 * n > 7 * Z.max (requestCount t) 1 in
       ∃ t', connectionMap (recordTimeout ip now g) !! ip = Some t'
         ∧ timeoutCount t' = n
         ∧ slowConnections t' = slowConnections t + 1
         ∧ connections t' = connections t
         ∧ requestCount t' = requestCount t
         ∧ (penalised →
            c_isBlocked t' = true
            ∧ c_blockUntil t' = now + SLOW_LORIS_BLOCK_DURATION)
         ∧ (¬ penalised →
            c_isBlocked t' = c_isBlocked t ∧ c_blockUntil t' = c_blockUntil t)
         ∧ (timeoutCount t < 10 →
            c_isBlocked t' = c_isBlocked t ∧ c_blockUntil t' = c_blockUntil t)).
Proof.
  split.
  - intros Hl. unfold recordTimeout. by rewrite Hl.
  - intros t Hl n penalised. unfold recordTimeout. rewrite Hl. simpl.
    rewrite lookup_insert_eq. eexists. split; [reflexivity|].
    pose proof (ratio_gt_7_10 (timeoutCount t + 1) (Z.max (requestCount t) 1)
                  ltac:(lia)) as Hr.
    unfold timeoutRatio. simpl.
    destruct (Qgtb (ratio (timeoutCount t + 1) (Z.max (requestCount t) 1)) (7 # 10))
      eqn:Hq; simpl.
    + assert (7 * Z.max (requestCount t) 1 < 10 * (timeoutCount t + 1)) as Hineq
        by (by apply Hr).
      destruct (10 <? timeoutCount t + 1) eqn:Hten; simpl.
      * apply Z.ltb_lt in Hten. do 4 (split; [done|]).
        split; [done|]. split.
        -- intros Hn. destruct Hn. subst penalised n. lia.
        -- intros Hlt. lia.
      * apply Z.ltb_ge in Hten. do 4 (split; [done|]).
        split; [|done]. intros [Hn _]. subst n. lia.
    + assert (¬ 7 * Z.max (requestCount t) 1 < 10 * (timeoutCount t + 1)) as Hineq
        by (intros H; apply Hr in H; congruence).
      do 4 (split; [done|]). split; [|done].
      intros [_ Hn]. subst n. lia.
Qed.

Lemma recordTimeout_blocks_after_ten_witness :
  let g := run (OpAddConnection "10.0.0.1" 0
                :: replicate 10 (OpRecordTimeout "10.0.0.1" 60000)) guard_init in
  ∃ t', connectionMap (recordTimeout "10.0.0.1" 61000 g) !! "10.0.0.1" = Some t'
        ∧ c_isBlocked t' = true ∧ c_blockUntil t' = 61000 + SLOW_LORIS_BLOCK_DURATION.
Proof.
  intros g.
  edestruct (proj2 (recordTimeout_blocks_after_ten "10.0.0.1" 61000 g))
    as (t' & Hl & _ & _ & _ & _ & Hyes & _).
  - vm_compute; reflexivity.
  - exists t'. split; [exact Hl|]. apply Hyes. simpl. lia.
Defined.

(** ** More on the cleanup and on the teardown *)

Lemma cleanup_connectionMap_lookup now g ip :
  connectionMap (cleanupExpiredConnections now g) !! ip
  = match connectionMap g !! ip with
    | Some t => if connectionExpired now t then None else Some t
    | None => None
    end.
Proof.
  destruct (connectionMap g !! ip) as [t|] eqn:E.
  - by apply cleanup_connection_lookup.
  - simpl. destruct (foldr delete (connectionMap g) (expiredIps now g) !! ip)
      as [t|] eqn:E'; [|done].
    apply lookup_foldr_delete_Some in E' as [_ E']. congruence.
Qed.

Lemma cleanup_downloadMap_lookup now g ip :
  downloadMap (cleanupExpiredConnections now g) !! ip
  = match downloadMap g !! ip with
    | Some l => if downloadExpiredAt now g l then None else Some l
    | None => None
    end.
Proof.
  simpl. destruct (downloadMap g !! ip) as [l|] eqn:E.
  - destruct (downloadExpiredAt now g l) eqn:Hexp.
    + apply lookup_foldr_delete, elem_of_expiredDownloadIps. by exists l.
    + rewrite lookup_foldr_delete_not_elem_of; [done|].
      intros [l' [Hl' Hexp']]%elem_of_expiredDownloadIps. congruence.
  - destruct (foldr delete (downloadMap g) (expiredDownloadIps now g) !! ip)
      as [l|] eqn:E'; [|done].
    apply lookup_foldr_delete_Some in E' as [_ E']. congruence.
Qed.

Lemma guard_eq g g' :
  connectionMap g = connectionMap g' → downloadMap g = downloadMap g' →
  trackerHeap g = trackerHeap g' → cleanupInterval g = cleanupInterval g' →
  g = g'.
Proof. destruct g, g'; simpl. by intros -> -> -> ->. Qed.

(** X9: after a sweep at time [now] no entry left in either map is
    expired at [now], the entries that were not expired are kept as they
    were, no tracker object is modified, and a second sweep at the same
    time changes nothing. *)
Theorem cleanup_is_idempotent (now : Z) (g : Guard) :
  let g' := cleanupExpiredConnections now g in
  (∀ ip t, connectionMap g' !! ip = Some t →
     connectionMap g !! ip = Some t ∧ connectionExpired now t = false)
  ∧ (∀ ip l t, downloadRef ip g' = Some (l, t) →
     downloadRef ip g = Some (l, t) ∧ downloadExpired now t = false)
  ∧ trackerHeap g' = trackerHeap g
  ∧ cleanupExpiredConnections now g' = g'.
Proof.
  intros g'.
  assert (∀ ip t, connectionMap g' !! ip = Some t →
            connectionMap g !! ip = Some t ∧ connectionExpired now t = false) as Hc.
  { intros ip t. subst g'. rewrite cleanup_connectionMap_lookup.
    destruct (connectionMap g !! ip) as [t0|]; [|done].
    destruct (connectionExpired now t0) eqn:E; [done|]. by intros [= ->]. }
  assert (∀ ip l, downloadMap g' !! ip = Some l →
            downloadMap g !! ip = Some l ∧ downloadExpiredAt now g l = false) as Hd.
  { intros ip l. subst g'. rewrite cleanup_downloadMap_lookup.
    destruct (downloadMap g !! ip) as [l0|]; [|done].
    destruct (downloadExpiredAt now g l0) eqn:E; [done|]. by intros [= ->]. }
  split; [done|]. split; [|split; [done|]].
  - intros ip l t [Hm Hh]%downloadRef_Some.
    destruct (Hd ip l Hm) as [Hm' Hexp]. simpl in Hh.
    split; [by apply downloadRef_intro|].
    unfold downloadExpiredAt in Hexp. by rewrite Hh in Hexp.
  - apply guard_eq; [| |done|done]; apply map_eq; intros ip.
    + rewrite cleanup_connectionMap_lookup.
      destruct (connectionMap g' !! ip) as [t|] eqn:E; [|done].
      destruct (Hc ip t E) as [_ ->]. done.
    + rewrite cleanup_downloadMap_lookup.
      destruct (downloadMap g' !! ip) as [l|] eqn:E; [|done].
      destruct (Hd ip l E) as [_ Hexp].
      assert (downloadExpiredAt now g' l = downloadExpiredAt now g l) as -> by done.
      by rewrite Hexp.
Qed.

Lemma cleanup_is_idempotent_witness :
  let g := run [OpAddConnection "10.0.0.1" 0; OpAddConnection "10.0.0.2" 700000]
               guard_init in
  connectionMap g !! "10.0.0.2"
  = connectionMap (cleanupExpiredConnections 700001 g) !! "10.0.0.2"
  ∧ is_Some (connectionMap g !! "10.0.0.2").
Proof.
  intros g.
  assert (∃ t, connectionMap (cleanupExpiredConnections 700001 g) !! "10.0.0.2"
               = Some t) as [t Ht] by (eexists; vm_compute; reflexivity).
  destruct (proj1 (cleanup_is_idempotent 700001 g) "10.0.0.2" t Ht) as [Hl _].
  rewrite Ht, Hl. eauto.
Defined.

Lemma step_cleanupInterval g op :
  cleanupInterval g = false → cleanupInterval (step g op) = false.
Proof.
  intros Hi. destruct op; simpl; try done.
  - unfold isIpBlocked. by repeat case_match.
  - unfold removeConnection. by repeat case_match.
  - unfold recordTimeout. by repeat case_match.
  - unfold isDownloadBlocked. by repeat case_match.
  - unfold addDownload. by repeat case_match.
  - unfold removeDownload. by repeat case_match.
  - unfold res_write. by repeat case_match.
  - unfold res_end. by repeat case_match.
  - unfold downloadTimeout_callback, res_status_json, res_end.
    repeat case_match; simplify_eq; done.
  - unfold middleware, handleDownloadProtection, isDownloadBlocked, isIpBlocked,
      addDownload.
    repeat case_match; simplify_eq; done.
Qed.

(** X10: [destroy] empties both maps and cancels the cleanup interval for
    good: destroying twice is destroying once, and whatever the guard
    does afterwards, the interval callback never runs again, so entries
    created after [destroy] are never swept. *)
Theorem destroy_stops_the_cleanup (ops : list Op) (g : Guard) (now : Z) :
  connectionMap (destroy g) = ∅
  ∧ downloadMap (destroy g) = ∅
  ∧ destroy (destroy g) = destroy g
  ∧ cleanupInterval (run ops (destroy g)) = false
  ∧ tick now (run ops (destroy g)) = run ops (destroy g).
Proof.
  assert (cleanupInterval (run ops (destroy g)) = false) as Hi.
  { assert (cleanupInterval (destroy g) = false) as H0 by done.
    revert H0. generalize (destroy g).
    induction ops as [|op ops IH]; intros g0 H0; [done|].
    simpl. apply IH. by apply step_cleanupInterval. }
  do 4 (split; [done|]). unfold tick. by rewrite Hi.
Qed.

(** ** The statistics snapshot *)

Lemma count_if_bounds {A} (p : A → bool) (l : list A) :
  0 <= foldr (λ x, count_if (p x)) 0 l <= Z.of_nat (length l).
Proof.
  induction l as [|x l IH]; simpl; [lia|]. unfold count_if at 1 3.
  destruct (p x); lia.
Qed.

Lemma count_positive_le_sum {A} (f : A → Z) (l : list A) :
  Forall (λ x, 0 <= f x) l →
  foldr (λ x, count_if (0 <? f x)) 0 l <= foldr (λ x acc, acc + f x) 0 l.
Proof.
  induction 1 as [|x l Hx _ IH]; simpl; [lia|]. unfold count_if at 1.
  destruct (0 <? f x) eqn:E; [apply Z.ltb_lt in E|]; lia.
Qed.

Lemma omap_length_le {A B} (f : A → option B) (l : list A) :
  (length (omap f l) ≤ length l)%nat.
Proof.
  induction l as [|x l IH]; simpl; [lia|].
  change (list_omap A B f l) with (omap f l). destruct (f x); simpl; lia.
Qed.

Lemma connection_values_nonneg g :
  counters_nonneg g →
  Forall (λ t, 0 <= connections t) (map_to_list (connectionMap g)).*2.
Proof.
  intros [Hc _]. apply Forall_fmap, Forall_forall. intros [ip t] Hin.
  apply elem_of_map_to_list in Hin. exact (Hc ip t Hin).
Qed.

Lemma download_values_nonneg g :
  counters_nonneg g → Forall (λ t, 0 <= activeDownloads t) (downloadTrackers g).
Proof.
  intros [_ Hd]. apply Forall_forall. intros t Hin. unfold downloadTrackers in Hin.
  apply list_elem_of_omap in Hin as ([ip l] & _ & Hl). simpl in Hl.
  exact (Forall_lookup_1 _ _ _ _ Hd Hl).
Qed.

(** X11: in every reachable state the snapshot of [getStats] is coherent:
    the number of clients with an open connection is at most the total of
    open connections, likewise for downloads, and the numbers of blocked
    and of active clients are between 0 and the number of entries of their
    map. *)
Theorem getStats_is_coherent (ops : list Op) (now : Z) :
  let g := run ops guard_init in
  let s := getStats now g in
  0 <= Stats.activeIps s <= Stats.totalConnections s
  ∧ 0 <= Stats.activeDownloadIps s <= Stats.totalDownloads s
  ∧ 0 <= Stats.blockedIps s <= Z.of_nat (size (connectionMap g))
  ∧ Stats.activeIps s <= Z.of_nat (size (connectionMap g))
  ∧ 0 <= Stats.blockedDownloadIps s <= Z.of_nat (size (downloadMap g))
  ∧ Stats.activeDownloadIps s <= Z.of_nat (size (downloadMap g)).
Proof.
  intros g s. assert (counters_nonneg g) as Hg by apply run_counters, guard_init_counters.
  assert (length (map_to_list (connectionMap g)).*2 = size (connectionMap g)) as Hlc
    by (by rewrite length_fmap, length_map_to_list).
  assert (length (downloadTrackers g) ≤ size (downloadMap g))%nat as Hld.
  { unfold downloadTrackers. rewrite <- length_map_to_list. apply omap_length_le. }
  subst s. simpl.
  pose proof (count_if_bounds (λ t, 0 <? connections t)
                (map_to_list (connectionMap g)).*2) as H1.
  pose proof (count_positive_le_sum connections _ (connection_values_nonneg g Hg)) as H2.
  pose proof (count_if_bounds (λ t, 0 <? activeDownloads t) (downloadTrackers g)) as H3.
  pose proof (count_positive_le_sum activeDownloads _ (download_values_nonneg g Hg)) as H4.
  pose proof (count_if_bounds (λ t, c_isBlocked t && (now <? c_blockUntil t))
                (map_to_list (connectionMap g)).*2) as H5.
  pose proof (count_if_bounds (λ t, d_isBlocked t && (now <? d_blockUntil t))
                (downloadTrackers g)) as H6.
  rewrite Hlc in H1, H5. lia.
Qed.

(** ** Tracker objects only grow *)

Lemma tracker_grows_refl t : tracker_grows t t.
Proof. by repeat split. Qed.

Lemma tracker_grows_trans t1 t2 t3 :
  tracker_grows t1 t2 → tracker_grows t2 t3 → tracker_grows t1 t3.
Proof.
  intros (Hi & Hb & Hs) (Hi' & Hb' & Hs'). split; [congruence|]. split; lia.
Qed.

Lemma store_grows g l0 t0 t0' l t :
  trackerHeap g !! l0 = Some t0 → tracker_grows t0 t0' →
  trackerHeap g !! l = Some t →
  ∃ t', trackerHeap (store l0 t0' g) !! l = Some t' ∧ tracker_grows t t'.
Proof.
  intros Hl0 Hg Hl. simpl. destruct (decide (l = l0)) as [->|Hne].
  - exists t0'. split; [|by simplify_eq].
    apply list_lookup_insert_eq. by eapply lookup_lt_Some.
  - exists t. split; [by rewrite list_lookup_insert_ne|apply tracker_grows_refl].
Qed.

Lemma sample_grows len bytes now start t :
  tracker_grows t (sample len bytes now start t).
Proof. unfold sample. repeat case_match; repeat split; simpl; lia. Qed.

Lemma addDownload_tracker_grows now t : tracker_grows t (addDownload_tracker now t).
Proof. unfold addDownload_tracker. case_match; repeat split; simpl; lia. Qed.

Lemma res_end_grows chunk m g res l t :
  trackerHeap g !! l = Some t →
  ∃ t', trackerHeap (res_end chunk m g res).1.2 !! l = Some t' ∧ tracker_grows t t'.
Proof.
  intros Hl. unfold res_end. destruct chunk; simpl;
    try (exists t; split; [done|apply tracker_grows_refl]).
  destruct (trackerHeap g !! m_tracker m) as [t0|] eqn:E;
    [|exists t; split; [done|apply tracker_grows_refl]].
  eapply store_grows; [done| |done]. repeat split; simpl; lia.
Qed.

Lemma step_grows g op l t :
  trackerHeap g !! l = Some t →
  ∃ t', trackerHeap (step g op) !! l = Some t' ∧ tracker_grows t t'.
Proof.
  intros Hl.
  assert (∀ g', trackerHeap g' = trackerHeap g →
            ∃ t', trackerHeap g' !! l = Some t' ∧ tracker_grows t t') as Hsame.
  { intros g' ->. exists t. split; [done|apply tracker_grows_refl]. }
  assert (∀ ip now g0 t0,
            trackerHeap g0 !! l = Some t0 →
            ∃ t', trackerHeap (isDownloadBlocked ip now g0).2 !! l = Some t'
                  ∧ tracker_grows t0 t') as Hblk.
  { intros ip now g0 t0 Hl0. unfold isDownloadBlocked.
    destruct (downloadRef ip g0) as [[l1 t1]|] eqn:E;
      [|exists t0; split; [done|apply tracker_grows_refl]].
    apply downloadRef_Some in E as [_ E].
    repeat case_match; simpl;
      try (exists t0; split; [done|apply tracker_grows_refl]).
    eapply (store_grows g0); [done| |done]. by repeat split. }
  assert (∀ ip now g0 t0,
            trackerHeap g0 !! l = Some t0 →
            ∃ t', trackerHeap (addDownload ip now g0) !! l = Some t'
                  ∧ tracker_grows t0 t') as Hadd.
  { intros ip now g0 t0 Hl0. unfold addDownload.
    destruct (downloadRef ip g0) as [[l1 t1]|] eqn:E.
    - apply downloadRef_Some in E as [_ E].
      eapply (store_grows g0); [done|apply addDownload_tracker_grows|done].
    - exists t0. split; [|apply tracker_grows_refl]. simpl.
      apply lookup_app_l_Some. done. }
  destruct op; simpl.
  - apply Hsame. unfold isIpBlocked. by repeat case_match.
  - by apply Hsame.
  - apply Hsame. unfold removeConnection. by repeat case_match.
  - apply Hsame. unfold recordTimeout. by repeat case_match.
  - by apply Hblk.
  - by apply Hadd.
  - unfold removeDownload.
    destruct (downloadRef ip g) as [[l1 t1]|] eqn:E; [|by apply Hsame].
    apply downloadRef_Some in E as [_ E].
    case_match; [|by apply Hsame].
    eapply store_grows; [done| |done]. by repeat split.
  - unfold res_write. destruct chunk; simpl; try by apply Hsame.
    destruct (trackerHeap g !! m_tracker m) as [t0|] eqn:E; [|by apply Hsame].
    eapply store_grows; [done|apply sample_grows|done].
  - by apply res_end_grows.
  - unfold downloadTimeout_callback.
    destruct (trackerHeap g !! m_tracker m) as [t0|] eqn:E; [|by apply Hsame].
    destruct (JsNum.ltb (transferRate t0) MIN_TRANSFER_RATE); [|by apply Hsame].
    destruct (store_grows g (m_tracker m) t0
                (set_d_block true (now + BLOCK_DURATION) t0) l t E)
      as (t1 & Hl1 & Hg1); [by repeat split|done|].
    destruct (negb (headersSent res)).
    + unfold res_status_json.
      destruct (res_end_grows body m _ (set_status 408 res) l t1 Hl1)
        as (t2 & Hl2 & Hg2).
      destruct (res_end body m _ (set_status 408 res)) as [[m2 g2] res2].
      destruct (res_end_grows NoChunk m2 g2 res2 l t2 Hl2) as (t3 & Hl3 & Hg3).
      exists t3. split; [done|]. eauto using tracker_grows_trans.
    + destruct (res_end_grows NoChunk m _ res l t1 Hl1) as (t2 & Hl2 & Hg2).
      exists t2. split; [done|]. eauto using tracker_grows_trans.
  - unfold middleware, handleDownloadProtection. destruct (isSnapshotGet req).
    + destruct (Hblk (clientIp req) now g t Hl) as (t1 & Hl1 & Hg1).
      destruct (isDownloadBlocked (clientIp req) now g) as [[] g1];
        cbn [fst snd] in *; [by exists t1|].
      destruct (Hadd (clientIp req) now g1 t1 Hl1) as (t2 & Hl2 & Hg2).
      exists t2. split; [done|]. eauto using tracker_grows_trans.
    + assert (trackerHeap (isIpBlocked (clientIp req) now g).2 = trackerHeap g)
        as Heq by (unfold isIpBlocked; by repeat case_match).
      destruct (isIpBlocked (clientIp req) now g) as [[] g1]; cbn [fst snd] in *;
        by apply Hsame.
  - by apply Hsame.
  - by apply Hsame.
Qed.

(** X12: a download tracker object is never freed nor reset: whatever the
    guard does afterwards (also a cleanup that drops the client's entry,
    or [destroy]), the object a closure holds is still there, belongs to
    the same client, and its [totalBytesTransferred] and [slowDownloads]
    have not decreased. *)
Theorem tracker_objects_only_grow
    (ops : list Op) (g : Guard) (l : nat) (t : DownloadTracker) :
  trackerHeap g !! l = Some t →
  ∃ t', trackerHeap (run ops g) !! l = Some t'
        ∧ d_ip t' = d_ip t
        ∧ totalBytesTransferred t <= totalBytesTransferred t'
        ∧ slowDownloads t <= slowDownloads t'.
Proof.
  revert g t. induction ops as [|op ops IH]; intros g t Hl.
  - exists t. simpl. split; [done|]. split; [done|]. lia.
  - destruct (step_grows g op l t Hl) as (t1 & Hl1 & Hg1).
    destruct (IH (step g op) t1 Hl1) as (t2 & Hl2 & Hi & Hb & Hs).
    destruct Hg1 as (Hi1 & Hb1 & Hs1).
    exists t2. simpl. split; [done|]. split; [congruence|]. lia.
Qed.

Lemma tracker_objects_only_grow_witness :
  ∃ t', trackerHeap
          (run [OpWrite first_monitor (Buf 4096) 1500; OpCleanup 9000000; OpDestroy]
               (addDownload "10.0.0.1" 0 guard_init)) !! 0%nat = Some t'
        ∧ d_ip t' = "10.0.0.1"
        ∧ 0 <= totalBytesTransferred t'.
Proof.
  edestruct (tracker_objects_only_grow
               [OpWrite first_monitor (Buf 4096) 1500; OpCleanup 9000000; OpDestroy]
               (addDownload "10.0.0.1" 0 guard_init) 0%nat)
    as (t' & Hl & Hi & Hb & _).
  - vm_compute; reflexivity.
  - exists t'. split; [exact Hl|]. split; [exact Hi|exact Hb].
Defined.

(** ** The watchdog runs once *)

Lemma downloadTimeout_callback_timer now body m g res :
  downloadTimeout (downloadTimeout_callback now body m g res).1.1
  = downloadTimeout m.
Proof.
  unfold downloadTimeout_callback.
  destruct (trackerHeap g !! m_tracker m) as [t|]; [|done].
  destruct (JsNum.ltb (transferRate t) MIN_TRANSFER_RATE); [|done].
  destruct (negb (headersSent res)).
  - unfold res_status_json.
    pose proof (proj2 (res_end_monitor body m
      (store (m_tracker m) (set_d_block true (now + BLOCK_DURATION) t) g)
      (set_status 408 res))) as H1.
    destruct (res_end body m _ (set_status 408 res)) as [[m2 g2] res2].
    rewrite (proj2 (res_end_monitor NoChunk m2 g2 res2)). done.
  - by rewrite (proj2 (res_end_monitor NoChunk m _ res)).
Qed.

(** X13: the watchdog of a download runs at most once.  Once it has run
    (fast client or slow), its timer is spent and any later firing leaves
    the monitor, the guard and the response exactly as they are; and a
    timer cleared by 'finish' or 'close' stays cleared. *)
Theorem watchdog_runs_at_most_once
    (now later : Z) (body body' : Chunk)
    (m : DownloadMonitor) (g : Guard) (res : Response) (due : Z) :
  downloadTimeout m = Armed due → due <= now →
  let out := downloadTimeout_fire now body m g res in
  downloadTimeout out.1.1 = Fired
  ∧ downloadTimeout_fire later body' out.1.1 out.1.2 out.2 = out
  ∧ monitor_completed (monitor_completed m) = monitor_completed m
  ∧ downloadTimeout (monitor_completed out.1.1) = Fired.
Proof.
  intros Ha Hdue out.
  assert (downloadTimeout out.1.1 = Fired) as Hf.
  { subst out. unfold downloadTimeout_fire. rewrite Ha.
    apply Z.leb_le in Hdue as ->. by rewrite downloadTimeout_callback_timer. }
  split; [done|]. split; [|split].
  - unfold downloadTimeout_fire at 1. rewrite Hf. by destruct out as [[? ?] ?].
  - unfold monitor_completed. simpl. by destruct (downloadTimeout m).
  - unfold monitor_completed. simpl. by rewrite Hf.
Qed.

Lemma watchdog_runs_at_most_once_witness :
  let out := downloadTimeout_fire 3600000 NoChunk trickle.1.1 trickle.1.2 trickle.2 in
  downloadTimeout_fire 3700000 NoChunk out.1.1 out.1.2 out.2 = out.
Proof.
  intros out.
  refine (proj1 (proj2 (watchdog_runs_at_most_once
            3600000 3700000 NoChunk NoChunk trickle.1.1 trickle.1.2 trickle.2
            3600000 _ _))).
  - vm_compute; reflexivity.
  - lia.
Defined.

(** * Further properties of the server *)

(** ** Shutdown *)

Lemma apply_middleware_process mw req now s :
  isShuttingDown (apply_middleware mw req now s).2 = isShuttingDown s
  ∧ exited (apply_middleware mw req now s).2 = exited s.
Proof.
  destruct mw; simpl; try done.
  - by destruct (middleware req now (guard s)) as [[] ?].
  - by destruct (rateLimit RATE_LIMIT req (hits s)).
Qed.

Lemma pipeline_process mws req now s :
  isShuttingDown (pipeline mws req now s).2 = isShuttingDown s
  ∧ exited (pipeline mws req now s).2 = exited s.
Proof.
  revert s. induction mws as [|mw mws IH]; intros s; [done|]. simpl.
  pose proof (apply_middleware_process mw req now s) as [H1 H2].
  destruct (apply_middleware mw req now s) as [[|status] s']; simpl in *.
  - destruct (IH s') as [-> ->]. done.
  - done.
Qed.

Lemma completion_process i now s :
  isShuttingDown (completion i now s) = isShuttingDown s
  ∧ exited (completion i now s) = exited s.
Proof. unfold completion. by repeat case_match. Qed.

Lemma server_run_snoc mws es e s :
  server_run mws (es ++ [e]) s = server_step mws (server_run mws es s) e.
Proof. unfold server_run. by rewrite foldl_app. Qed.

(** X14: whatever middleware is installed and whatever happens, the
    process exits only after a termination signal: with code 0 only once
    [server.close] has called back, with code 1 otherwise (a second signal
    or the 5-second timer).  A second signal while shutting down exits
    with code 1 at once, and nothing runs after the exit. *)
Theorem exit_only_after_a_signal (mws : list Middleware) (es : list Event) :
  let s := server_run mws es server_init in
  (isShuttingDown s = true → Signal ∈ es)
  ∧ (∀ c, exited s = Some c →
       isShuttingDown s = true
       ∧ (c = 0 ∧ ServerClosed ∈ es ∨ c = 1))
  ∧ (isShuttingDown s = true → exited s = None →
     exited (server_step mws s Signal) = Some 1)
  ∧ (∀ e, is_Some (exited s) → server_step mws s e = s).
Proof.
  intros s.
  assert ((isShuttingDown s = true → Signal ∈ es)
          ∧ (∀ c, exited s = Some c →
               isShuttingDown s = true ∧ (c = 0 ∧ ServerClosed ∈ es ∨ c = 1)))
    as [Hsig Hexit].
  { subst s. induction es as [|e es IH] using rev_ind; [by split|].
    rewrite server_run_snoc. destruct IH as [IH1 IH2].
    set (s := server_run mws es server_init) in *.
    setoid_rewrite elem_of_app. setoid_rewrite list_elem_of_singleton.
    unfold server_step. destruct (exited s) as [c0|] eqn:Hex.
    { split; [by auto|]. intros c Hc. rewrite Hex in Hc. simplify_eq.
      destruct (IH2 c eq_refl) as [H1 [[-> H2]| ->]]; (split; [done|]);
        [left; auto|by right]. }
    destruct e.
    - destruct (pipeline_process mws req now s) as [-> ->]. rewrite Hex.
      split; [by auto|done].
    - destruct (completion_process i now s) as [-> ->]. rewrite Hex.
      split; [by auto|done].
    - destruct (completion_process i now s) as [-> ->]. rewrite Hex.
      split; [by auto|done].
    - simpl. rewrite Hex. split; [by auto|done].
    - split; [by auto|]. unfold gracefulShutdown.
      destruct (isShuttingDown s) eqn:E; simpl.
      + intros c [= <-]. rewrite E. by auto.
      + by rewrite Hex.
    - destruct (isShuttingDown s) eqn:E; simpl.
      + rewrite E. split; [by auto|]. intros c [= <-]. by auto.
      + rewrite E, Hex. by split.
    - destruct (isShuttingDown s) eqn:E; simpl.
      + rewrite E. split; [by auto|]. intros c [= <-]. by auto.
      + rewrite E, Hex. by split. }
  split; [done|]. split; [done|]. split.
  - intros Hs Hex. unfold server_step, gracefulShutdown. by rewrite Hex, Hs.
  - intros e [c Hc]. unfold server_step. by rewrite Hc.
Qed.

Lemma exit_only_after_a_signal_witness :
  exited (server_step setupMiddleware
            (server_run setupMiddleware
               [Incoming (get "10.0.0.1" "/health") 0; Signal] server_init)
            Signal) = Some 1.
Proof.
  refine (proj1 (proj2 (proj2 (exit_only_after_a_signal setupMiddleware
            [Incoming (get "10.0.0.1" "/health") 0; Signal]))) _ _);
    vm_compute; reflexivity.
Defined.

(** ** Request validation in the pipeline *)

Lemma isRequestValid_true req :
  isRequestValid req = true ↔
  ∃ ua, req_userAgent req = Some ua
        ∧ ua ≠ ""
        ∧ (String.length ua ≤ 500)%nat
        ∧ (∀ a, req_accept req = Some a → (String.length a ≤ 1000)%nat).
Proof.
  unfold isRequestValid. destruct (req_userAgent req) as [ua|];
    [|split; [done|by intros (? & ? & _)]].
  destruct (String.eqb_spec ua "") as [->|Hne]; simpl;
    [split; [done|by intros (ua' & [= <-] & ? & _)]|].
  destruct (500 <? Z.of_nat (String.length ua)) eqn:Hlen;
    [apply Z.ltb_lt in Hlen|apply Z.ltb_ge in Hlen].
  { split; [done|]. intros (ua' & [= <-] & _ & Hle & _). lia. }
  destruct (req_accept req) as [a|].
  - destruct (String.eqb_spec a "") as [->|Hane]; simpl.
    + split; [|done]. intros _. exists ua. repeat split; try done; try lia.
      intros a' [= <-]. simpl. lia.
    + destruct (1000 <? Z.of_nat (String.length a)) eqn:Ha;
        [apply Z.ltb_lt in Ha|apply Z.ltb_ge in Ha]; simpl.
      * split; [done|]. intros (ua' & _ & _ & _ & Hacc).
        specialize (Hacc a eq_refl). lia.
      * split; [|done]. intros _. exists ua. repeat split; try done; try lia.
        intros a' [= <-]. lia.
  - split; [|done]. intros _. exists ua. repeat split; try done; lia.
Qed.

(** X15: with the middleware of [setupMiddleware], a request reaches the
    route handlers only if it carries a non-empty User-Agent of at most
    500 characters and no Accept header longer than 1000; a request that
    fails this check is never handed to a route, whatever the limiter has
    counted; and the pipeline leaves the slow-loris guard as it is. *)
Theorem only_valid_requests_reach_the_routes
    (req : Request) (now : Z) (s : Server) :
  ((pipeline setupMiddleware req now s).1 = Continue →
   ∃ ua, req_userAgent req = Some ua
         ∧ ua ≠ ""
         ∧ (String.length ua ≤ 500)%nat
         ∧ (∀ a, req_accept req = Some a → (String.length a ≤ 1000)%nat))
  ∧ (isRequestValid req = false →
     (pipeline setupMiddleware req now s).1 ≠ Continue)
  ∧ guard (pipeline setupMiddleware req now s).2 = guard s.
Proof.
  unfold setupMiddleware. cbn [pipeline apply_middleware].
  unfold rateLimit. destruct (skip RATE_LIMIT req) eqn:Hskip; cbn [fst snd].
  - destruct (isRequestValid req) eqn:Hv; cbn [fst snd].
    + split; [intros _; by apply isRequestValid_true|]. by split.
    + by repeat split.
  - destruct (max RATE_LIMIT <? default 0 (hits s !! keyGenerator RATE_LIMIT req) + 1);
      cbn [fst snd].
    + by repeat split.
    + destruct (isRequestValid req) eqn:Hv; cbn [fst snd].
      * split; [intros _; by apply isRequestValid_true|]. by split.
      * by repeat split.
Qed.

Lemma only_valid_requests_reach_the_routes_witness :
  (pipeline setupMiddleware
     {| req_ip := Some "10.0.0.1"; req_remoteAddress := None;
        req_path := "/snapshots/snapshot_1.gz"; req_method := "GET";
        req_userAgent := None; req_accept := None |} 0 server_init).1
  ≠ Continue.
Proof.
  apply (proj1 (proj2 (only_valid_requests_reach_the_routes _ 0 server_init))).
  reflexivity.
Defined.

(** * File names *)

(** ** The matcher decides the denotation *)

Lemma matches_seq_inv r1 r2 l :
  matches (RSeq r1 r2) l →
  ∃ l1 l2 : list ascii, l = (l1 ++ l2)%list ∧ matches r1 l1 ∧ matches r2 l2.
Proof. inversion 1; subst; eauto. Qed.

Lemma matches_alt_inv r1 r2 l :
  matches (RAlt r1 r2) l → matches r1 l ∨ matches r2 l.
Proof. inversion 1; subst; auto. Qed.

Lemma matches_char_inv c l : matches (RChar c) l → l = [c].
Proof. by inversion 1. Qed.

Lemma matches_class_inv p l :
  matches (RClass p) l → ∃ c, l = [c] ∧ p c = true.
Proof. inversion 1; subst; eauto. Qed.

Lemma matches_eps_inv l : matches REps l → l = [].
Proof. by inversion 1. Qed.

Lemma nullable_matches r : nullable r = true ↔ matches r [].
Proof.
  induction r as [| | | |r1 IH1 r2 IH2|r1 IH1 r2 IH2|r IH]; simpl.
  - split; [done|inversion 1].
  - split; [constructor|done].
  - split; [done|inversion 1].
  - split; [done|inversion 1].
  - rewrite andb_true_iff, IH1, IH2. split.
    + intros [H1 H2]. apply (MSeq _ _ [] [] H1 H2).
    + intros (l1 & l2 & E & H1 & H2)%matches_seq_inv.
      destruct l1, l2; try discriminate. done.
  - rewrite orb_true_iff, IH1, IH2. split.
    + intros [H|H]; [by apply MAltL|by apply MAltR].
    + apply matches_alt_inv.
  - split; [constructor|done].
Qed.

Lemma matches_seq_cons r1 r2 c l :
  matches (RSeq r1 r2) (c :: l) →
  (matches r1 [] ∧ matches r2 (c :: l))
  ∨ ∃ l1 l2 : list ascii,
      l = (l1 ++ l2)%list ∧ matches r1 (c :: l1) ∧ matches r2 l2.
Proof.
  intros (l1 & l2 & E & H1 & H2)%matches_seq_inv.
  destruct l1 as [|c' l1]; simpl in E.
  - subst. by left.
  - injection E as -> ->. right. eauto.
Qed.

Lemma matches_star_cons r c l :
  matches (RStar r) (c :: l) →
  ∃ l1 l2 : list ascii,
    l = (l1 ++ l2)%list ∧ matches r (c :: l1) ∧ matches (RStar r) l2.
Proof.
  intros H. remember (RStar r) as s eqn:Es. remember (c :: l) as cl eqn:El.
  revert l El.
  induction H as [| | | | | | |r' l1 l2 H1 _ H2 IH2]; try discriminate; intros l El.
  injection Es as ->. destruct l1 as [|c' l1]; simpl in El.
  - by apply IH2.
  - injection El as -> <-. eauto.
Qed.

Lemma deriv_matches c r l : matches (deriv c r) l ↔ matches r (c :: l).
Proof.
  revert l. induction r as [| |d|p|r1 IH1 r2 IH2|r1 IH1 r2 IH2|r IH]; intros l; simpl.
  - split; inversion 1.
  - split; inversion 1.
  - destruct (Ascii.eqb_spec c d) as [->|Hne].
    + split.
      * intros ->%matches_eps_inv. constructor.
      * intros [= ->]%matches_char_inv. constructor.
    + split; [inversion 1|]. intros [= ? ?]%matches_char_inv. done.
  - destruct (p c) eqn:Hp.
    + split.
      * intros ->%matches_eps_inv. by constructor.
      * intros (c' & [= -> ->] & _)%matches_class_inv. constructor.
    + split; [inversion 1|].
      intros (c' & [= -> ->] & Hc)%matches_class_inv. congruence.
  - destruct (nullable r1) eqn:Hn.
    + split.
      * intros [(l1 & l2 & -> & Ha & Hb)%matches_seq_inv|H1]%matches_alt_inv.
        -- apply IH1 in Ha. apply (MSeq _ _ (c :: l1) l2 Ha Hb).
        -- apply IH2 in H1. apply nullable_matches in Hn.
           apply (MSeq _ _ [] (c :: l) Hn H1).
      * intros [[_ H2]|(l1 & l2 & -> & H1 & H2)]%matches_seq_cons.
        -- apply MAltR. by apply IH2.
        -- apply MAltL. apply MSeq; [by apply IH1|done].
    + split.
      * intros (l1 & l2 & -> & Ha & Hb)%matches_seq_inv.
        apply IH1 in Ha. apply (MSeq _ _ (c :: l1) l2 Ha Hb).
      * intros [[H1 _]|(l1 & l2 & -> & H1 & H2)]%matches_seq_cons.
        -- apply nullable_matches in H1. congruence.
        -- apply MSeq; [by apply IH1|done].
  - split.
    + intros [H|H]%matches_alt_inv; [apply MAltL; by apply IH1|apply MAltR; by apply IH2].
    + intros [H|H]%matches_alt_inv; [apply MAltL; by apply IH1|apply MAltR; by apply IH2].
  - split.
    + intros (l1 & l2 & -> & Ha & Hb)%matches_seq_inv.
      apply IH in Ha. apply (MStarApp _ (c :: l1) l2 Ha Hb).
    + intros (l1 & l2 & -> & H1 & H2)%matches_star_cons.
      apply MSeq; [by apply IH|done].
Qed.

Lemma test_chars_matches r l : test_chars r l = true ↔ matches r l.
Proof.
  revert r. induction l as [|c l IH]; intros r.
  - apply nullable_matches.
  - rewrite <- deriv_matches, <- IH. done.
Qed.

Lemma matches_RLit w l : matches (RLit w) l ↔ l = w.
Proof.
  revert l. induction w as [|c w IH]; intros l; simpl.
  - split; [apply matches_eps_inv|intros ->; constructor].
  - split.
    + intros (l1 & l2 & -> & ->%matches_char_inv & ->%IH)%matches_seq_inv. done.
    + intros ->. apply (MSeq _ _ [c] w); [constructor|by apply IH].
Qed.

Lemma matches_star_class p l :
  matches (RStar (RClass p)) l ↔ Forall (λ c, p c = true) l.
Proof.
  split.
  - intros H. remember (RStar (RClass p)) as s eqn:Es.
    induction H as [| | | | | | |r' l1 l2 H1 _ H2 IH2]; try discriminate.
    + constructor.
    + injection Es as ->. apply matches_class_inv in H1 as (c & -> & Hc).
      constructor; [done|by apply IH2].
  - induction 1 as [|c l Hc _ IH]; [constructor|].
    apply (MStarApp _ [c] l); [by constructor|done].
Qed.

(** ** Strings *)

Lemma chars_length s : length (chars s) = String.length s.
Proof. induction s as [|c s IH]; simpl; [done|by rewrite IH]. Qed.

Lemma chars_of_list l : chars (string_of_list_ascii l) = l.
Proof. apply list_ascii_of_string_of_list_ascii. Qed.

Lemma of_list_chars s : string_of_list_ascii (chars s) = s.
Proof. apply string_of_list_ascii_of_string. Qed.

Lemma chars_inj s1 s2 : chars s1 = chars s2 → s1 = s2.
Proof. intros H. by rewrite <- (of_list_chars s1), H, of_list_chars. Qed.

Lemma startsWith_chars_spec x l :
  startsWith_chars x l = true ↔ ∃ t : list ascii, l = (x ++ t)%list.
Proof.
  revert l. induction x as [|a x IH]; intros l; simpl.
  - split; [eauto|done].
  - destruct l as [|b l].
    + split; [done|]. by intros [t ?].
    + rewrite andb_true_iff, IH. split.
      * intros [->%Ascii.eqb_eq [t ->]]. eauto.
      * intros [t [= -> ->]]. split; [apply Ascii.eqb_refl|eauto].
Qed.

Lemma endsWith_chars_spec x l :
  endsWith_chars x l = true ↔ ∃ p : list ascii, l = (p ++ x)%list.
Proof.
  unfold endsWith_chars. rewrite startsWith_chars_spec. split.
  - intros [t Ht]. exists (rev t).
    rewrite <- (rev_involutive l), Ht, rev_app_distr, rev_involutive. done.
  - intros [p ->]. exists (rev p). by rewrite rev_app_distr.
Qed.

Lemma includes_chars_spec x l :
  includes_chars x l = true ↔ ∃ a b : list ascii, l = (a ++ x ++ b)%list.
Proof.
  induction l as [|c l IH]; simpl.
  - rewrite orb_false_r, startsWith_chars_spec. split.
    + intros [t ->]. by exists [], t.
    + intros (a & b & E). destruct a; [by eauto|done].
  - rewrite orb_true_iff, startsWith_chars_spec, IH. split.
    + intros [[t ->]|(a & b & ->)].
      * by exists [], t.
      * by exists (c :: a), b.
    + intros (a & b & E). destruct a as [|c' a]; simpl in E.
      * left. eauto.
      * injection E as -> ->. right. eauto.
Qed.

Lemma includes_chars_single c l :
  includes_chars [c] l = true → c ∈ l.
Proof.
  intros (a & b & ->)%includes_chars_spec.
  rewrite !elem_of_app, list_elem_of_singleton. auto.
Qed.

Lemma no_dangerous_char l c :
  Forall (λ c, filenameChar c = true) l → filenameChar c = false →
  includes_chars [c] l = false.
Proof.
  intros Hall Hc. destruct (includes_chars [c] l) eqn:E; [|done].
  apply includes_chars_single in E.
  rewrite Forall_forall in Hall. specialize (Hall _ E). congruence.
Qed.

(** ** [FILENAME_REGEX] *)

Lemma matches_FILENAME_REGEX l :
  matches FILENAME_REGEX l ↔
  ∃ stem : list ascii,
    stem ≠ []
    ∧ Forall (λ c, filenameChar c = true) stem
    ∧ (l = (stem ++ chars ".gz")%list
       ∨ l = (stem ++ chars ".tar.gz")%list
       ∨ l = (stem ++ chars ".header.json")%list).
Proof.
  unfold FILENAME_REGEX, RPlus. split.
  - intros (l1 & l2 & -> & H1 & H2)%matches_seq_inv.
    apply matches_seq_inv in H1 as (a & b & -> & (c & -> & Hc)%matches_class_inv
                                      & Hb%matches_star_class).
    apply matches_seq_inv in H2 as (d & e & -> & ->%matches_char_inv & He).
    exists (c :: b). split; [done|]. split; [by constructor|].
    apply matches_alt_inv in He as [->%matches_RLit|He]; [by left|].
    apply matches_alt_inv in He as [->%matches_RLit| ->%matches_RLit];
      [right; by left|right; by right].
  - intros (stem & Hne & Hall & Hl).
    destruct stem as [|c stem]; [done|]. inversion Hall as [|? ? Hc Hall']; subst.
    assert (matches (RSeq (RClass filenameChar) (RStar (RClass filenameChar)))
              (c :: stem)) as Hstem.
    { apply (MSeq _ _ [c] stem); [by constructor|by apply matches_star_class]. }
    assert (∀ ext, ext ∈ [chars "gz"; chars "tar.gz"; chars "header.json"] →
              matches (RSeq (RChar ".")
                         (RAlt (RLit (chars "gz"))
                            (RAlt (RLit (chars "tar.gz"))
                               (RLit (chars "header.json")))))
                      ("."%char :: ext)) as Hext.
    { intros ext Hin. apply (MSeq _ _ ["."%char] ext); [constructor|].
      rewrite !elem_of_cons in Hin. destruct Hin as [->|[->|[->|Hin]]].
      - apply MAltL. by apply matches_RLit.
      - apply MAltR, MAltL. by apply matches_RLit.
      - apply MAltR, MAltR. by apply matches_RLit.
      - by apply elem_of_nil in Hin. }
    destruct Hl as [-> |[-> | ->]]; (apply MSeq; [exact Hstem|apply Hext]);
      rewrite !elem_of_cons; auto.
Qed.

(** The alternative [tar\.gz] adds nothing: such a name already ends
    with [.gz], after a longer stem. *)
Lemma FILENAME_REGEX_shape l :
  matches FILENAME_REGEX l ↔
  ∃ stem : list ascii,
    stem ≠ []
    ∧ Forall (λ c, filenameChar c = true) stem
    ∧ (l = (stem ++ chars ".gz")%list ∨ l = (stem ++ chars ".header.json")%list).
Proof.
  rewrite matches_FILENAME_REGEX. split.
  - intros (stem & Hne & Hall & [-> |[-> | ->]]).
    + exists stem. auto.
    + exists (stem ++ chars ".tar")%list. split; [by destruct stem|].
      split; [apply Forall_app; split; [done|by repeat constructor]|].
      left. by rewrite <- app_assoc.
    + exists stem. auto.
  - intros (stem & Hne & Hall & [->| ->]); exists stem; auto.
Qed.

Lemma isValidFilename_true filename :
  isValidFilename filename = true ↔
  (String.length filename ≤ 255)%nat
  ∧ Forall (λ c, filenameChar c = true) (chars filename)
  ∧ includes filename ".." = false
  ∧ ∃ stem : list ascii,
      stem ≠ []
      ∧ (chars filename = (stem ++ chars ".gz")%list
         ∨ chars filename = (stem ++ chars ".header.json")%list).
Proof.
  unfold isValidFilename, MAX_FILENAME_LENGTH, test. split.
  - destruct (String.eqb_spec filename "") as [->|Hne]; [done|]. simpl orb.
    destruct (255 <? Z.of_nat (String.length filename)) eqn:Hlen; [done|].
    apply Z.ltb_ge in Hlen.
    destruct (test_chars FILENAME_REGEX (chars filename)) eqn:Ht; [|done].
    apply test_chars_matches, FILENAME_REGEX_shape in Ht
      as (stem & Hstem & Hall & Hl).
    simpl negb. intros Hd. apply negb_true_iff in Hd.
    unfold dangerousChars in Hd. cbn [existsb] in Hd.
    apply orb_false_iff in Hd as [Hdots _].
    split; [lia|]. split.
    { destruct Hl as [-> | ->]; (apply Forall_app; split; [done|]);
        by repeat constructor. }
    split; [done|]. eauto.
  - intros (Hlen & Hall & Hdots & stem & Hstem & Hl).
    destruct (String.eqb_spec filename "") as [->|Hne].
    { destruct Hl as [Hl|Hl]; by destruct stem. }
    simpl orb.
    destruct (255 <? Z.of_nat (String.length filename)) eqn:Hl255;
      [apply Z.ltb_lt in Hl255; lia|].
    assert (test_chars FILENAME_REGEX (chars filename) = true) as ->.
    { apply test_chars_matches, FILENAME_REGEX_shape. exists stem.
      split; [done|]. split; [|done].
      destruct Hl as [Hl|Hl]; rewrite Hl in Hall;
        by apply Forall_app in Hall as [? _]. }
    simpl negb. apply negb_true_iff.
    unfold dangerousChars. cbn [existsb]. rewrite Hdots. unfold includes.
    cbn [chars list_ascii_of_string].
    rewrite !(no_dangerous_char _ _ Hall) by reflexivity. done.
Qed.

(** X16: [isValidFilename] accepts exactly the names of at most 255
    characters, all of them letters, digits, dots, underscores or hyphens,
    with no two dots in a row, that consist of a non-empty stem followed
    by [.gz] or [.header.json].  The alternative [tar.gz] of the pattern
    and the nine single dangerous characters never change the answer. *)
Theorem isValidFilename_accepts_exactly (filename : string) :
  isValidFilename filename = true ↔
  (String.length filename ≤ 255)%nat
  ∧ Forall (λ c, filenameChar c = true) (chars filename)
  ∧ includes filename ".." = false
  ∧ ∃ stem : list ascii,
      stem ≠ []
      ∧ (chars filename = (stem ++ chars ".gz")%list
         ∨ chars filename = (stem ++ chars ".header.json")%list).
Proof. apply isValidFilename_true. Qed.

(** ** [sanitizeFilename] *)

Lemma filter_all_id (p : ascii → bool) l :
  List.filter p l = l ↔ Forall (λ c, p c = true) l.
Proof.
  induction l as [|c l IH]; simpl; [by split|].
  destruct (p c) eqn:Hp.
  - split.
    + intros [= E]. constructor; [done|by apply IH].
    + inversion 1; subst. f_equal. by apply IH.
  - split.
    + intros E. pose proof (List.filter_length_le p l) as Hle.
      rewrite E in Hle. simpl in Hle. lia.
    + inversion 1; subst. congruence.
Qed.

Lemma filter_all (p : ascii → bool) l :
  Forall (λ c, p c = true) (List.filter p l).
Proof.
  apply Forall_forall. intros c Hc%list_elem_of_In%filter_In. by destruct Hc.
Qed.

Lemma sanitizeFilename_id filename :
  sanitizeFilename filename = filename ↔
  Forall (λ c, filenameChar c = true) (chars filename).
Proof.
  unfold sanitizeFilename. rewrite <- filter_all_id. split.
  - intros E. rewrite <- E at 2. by rewrite chars_of_list.
  - intros ->. apply of_list_chars.
Qed.

(** X17: what [sanitizeFilename] returns consists of letters, digits,
    dots, underscores and hyphens only, so it holds no separator, quote
    or control character; it is never longer than its argument;
    sanitising twice is sanitising once; a name comes back unchanged
    exactly when all its characters are of that kind, which is the case
    of every name [isValidFilename] accepts. *)
Theorem sanitizeFilename_is_a_projection (filename : string) :
  Forall (λ c, filenameChar c = true) (chars (sanitizeFilename filename))
  ∧ (∀ c, filenameChar c = false →
       includes (sanitizeFilename filename) (String c EmptyString) = false)
  ∧ (String.length (sanitizeFilename filename) ≤ String.length filename)%nat
  ∧ sanitizeFilename (sanitizeFilename filename) = sanitizeFilename filename
  ∧ (sanitizeFilename filename = filename ↔
     Forall (λ c, filenameChar c = true) (chars filename))
  ∧ (isValidFilename filename = true → sanitizeFilename filename = filename).
Proof.
  assert (Forall (λ c, filenameChar c = true) (chars (sanitizeFilename filename)))
    as Hall.
  { unfold sanitizeFilename. rewrite chars_of_list. apply filter_all. }
  split; [done|]. split.
  { intros c Hc. unfold includes. by apply no_dangerous_char. }
  split.
  { rewrite <- !chars_length. unfold sanitizeFilename. rewrite chars_of_list.
    apply List.filter_length_le. }
  split; [by apply sanitizeFilename_id|].
  split; [apply sanitizeFilename_id|].
  intros (_ & H & _)%isValidFilename_true. by apply sanitizeFilename_id.
Qed.

Lemma sanitizeFilename_is_a_projection_witness :
  sanitizeFilename "snapshot_12_2024-01-01_00-00-00.tar.gz"
  = "snapshot_12_2024-01-01_00-00-00.tar.gz".
Proof.
  apply (proj2 (proj2 (proj2 (proj2 (proj2
           (sanitizeFilename_is_a_projection
              "snapshot_12_2024-01-01_00-00-00.tar.gz")))))).
  vm_compute. reflexivity.
Defined.

(** ** Extensions and the route checks *)

Lemma chars_toLowerCase s : chars (toLowerCase s) = map lowerChar (chars s).
Proof. unfold toLowerCase. apply chars_of_list. Qed.

Lemma lowerChar_idemp c : lowerChar (lowerChar c) = lowerChar c.
Proof. destruct c as [[] [] [] [] [] [] [] []]; reflexivity. Qed.

Lemma toLowerCase_idemp s : toLowerCase (toLowerCase s) = toLowerCase s.
Proof.
  apply chars_inj. rewrite !chars_toLowerCase, map_map.
  apply map_ext. intros c. apply lowerChar_idemp.
Qed.

Lemma isValidFileExtension_gz filename :
  isValidFileExtension filename = endsWith (toLowerCase filename) ".gz".
Proof.
  unfold isValidFileExtension, ALLOWED_EXTENSIONS. cbn [existsb].
  rewrite orb_false_r.
  destruct (endsWith (toLowerCase filename) ".tar.gz") eqn:E; [|apply orb_false_r].
  apply endsWith_chars_spec in E as [p E].
  assert (endsWith (toLowerCase filename) ".gz" = true) as ->; [|done].
  apply endsWith_chars_spec. exists (p ++ chars ".tar")%list.
  rewrite E, <- app_assoc. done.
Qed.

Lemma isValidFileExtension_true filename :
  isValidFileExtension filename = true ↔
  ∃ stem : list ascii, chars (toLowerCase filename) = (stem ++ chars ".gz")%list.
Proof. rewrite isValidFileExtension_gz. apply endsWith_chars_spec. Qed.

(** X18: the listing and the routes keep a name by its extension exactly
    when the lower-cased name ends with [.gz]; the entry [.tar.gz] of
    [ALLOWED_EXTENSIONS] never decides, and the answer does not depend on
    the case of the letters. *)
Theorem isValidFileExtension_is_gz_ignoring_case (filename : string) :
  (isValidFileExtension filename = true ↔
   ∃ stem : list ascii,
     chars (toLowerCase filename) = (stem ++ chars ".gz")%list)
  ∧ isValidFileExtension filename = endsWith (toLowerCase filename) ".gz"
  ∧ isValidFileExtension (toLowerCase filename) = isValidFileExtension filename.
Proof.
  split; [apply isValidFileExtension_true|].
  split; [apply isValidFileExtension_gz|].
  by rewrite !isValidFileExtension_gz, toLowerCase_idemp.
Qed.

Lemma validateMimeType_true extname filename :
  validateMimeType extname filename = true.
Proof.
  unfold validateMimeType, getMimeType.
  by destruct (String.eqb (toLowerCase (extname filename)) ".gz"),
       (String.eqb (toLowerCase (extname filename)) ".tar.gz").
Qed.

(** The names that pass both the name check and the extension check. *)
Lemma name_and_extension filename :
  isValidFilename filename = true ∧ isValidFileExtension filename = true ↔
  (String.length filename ≤ 255)%nat
  ∧ Forall (λ c, filenameChar c = true) (chars filename)
  ∧ includes filename ".." = false
  ∧ ∃ stem : list ascii,
      stem ≠ [] ∧ chars filename = (stem ++ chars ".gz")%list.
Proof.
  rewrite isValidFilename_true, isValidFileExtension_gz. unfold endsWith.
  rewrite chars_toLowerCase. split.
  - intros [(Hlen & Hall & Hdots & stem & Hstem & [Hl|Hl]) Hext].
    + eauto 10.
    + rewrite Hl, map_app in Hext. unfold endsWith_chars in Hext.
      rewrite rev_app_distr in Hext. done.
  - intros (Hlen & Hall & Hdots & stem & Hstem & Hl).
    split; [eauto 10|]. rewrite Hl, map_app. unfold endsWith_chars.
    by rewrite rev_app_distr.
Qed.

Lemma snapshotRoute_checks_None extname fileName :
  snapshotRoute_checks extname fileName = None ↔
  isValidFilename fileName = true ∧ isValidFileExtension fileName = true.
Proof.
  unfold snapshotRoute_checks. rewrite validateMimeType_true.
  destruct (isValidFilename fileName), (isValidFileExtension fileName);
    simpl; split; try done; by intros [? ?].
Qed.

Lemma headerRoute_checks_None fileName :
  headerRoute_checks fileName = None ↔
  isValidFilename fileName = true ∧ isValidFileExtension fileName = true.
Proof.
  unfold headerRoute_checks.
  change (existsb _ ALLOWED_EXTENSIONS) with (isValidFileExtension fileName).
  destruct (isValidFilename fileName), (isValidFileExtension fileName);
    simpl; split; try done; by intros [? ?].
Qed.

(** X19: the download route lets a file name through to the checks on
    the file itself exactly when the name has at most 255 characters, all
    of them letters, digits, dots, underscores or hyphens, holds no two
    dots in a row and is a non-empty stem followed by [.gz]; a name that
    ends with [.header.json] passes [isValidFilename] and is refused by
    the extension check.  Whatever [path.extname] returns, the MIME check
    refuses nothing: the answer [Invalid file type.] is never given.  For
    a name let through, [sanitizeFilename] is the identity, so the
    Content-Disposition header carries the name as requested. *)
Theorem snapshotRoute_checks_pass_exactly
    (extname : string → string) (fileName : string) :
  (snapshotRoute_checks extname fileName = None ↔
   (String.length fileName ≤ 255)%nat
   ∧ Forall (λ c, filenameChar c = true) (chars fileName)
   ∧ includes fileName ".." = false
   ∧ ∃ stem : list ascii,
       stem ≠ [] ∧ chars fileName = (stem ++ chars ".gz")%list)
  ∧ snapshotRoute_checks extname fileName ≠ Some "Invalid file type."
  ∧ (snapshotRoute_checks extname fileName = None →
     sanitizeFilename fileName = fileName).
Proof.
  split; [by rewrite snapshotRoute_checks_None, name_and_extension|].
  split.
  - unfold snapshotRoute_checks. rewrite validateMimeType_true.
    by destruct (isValidFilename fileName), (isValidFileExtension fileName).
  - intros [(_ & H & _)%isValidFilename_true _]%snapshotRoute_checks_None.
    by apply sanitizeFilename_id.
Qed.

Lemma snapshotRoute_checks_pass_exactly_witness :
  sanitizeFilename "snapshot_12_2024-01-01_00-00-00.tar.gz"
  = "snapshot_12_2024-01-01_00-00-00.tar.gz".
Proof.
  apply (proj2 (proj2 (snapshotRoute_checks_pass_exactly (λ _, ".gz")
                         "snapshot_12_2024-01-01_00-00-00.tar.gz"))).
  vm_compute. reflexivity.
Defined.

(** X20: the header route and the download route let the same file
    names through: a name is refused by one exactly when it is refused
    by the other. *)
Theorem header_and_download_routes_agree
    (extname : string → string) (fileName : string) :
  headerRoute_checks fileName = None ↔
  snapshotRoute_checks extname fileName = None.
Proof. by rewrite headerRoute_checks_None, snapshotRoute_checks_None. Qed.

(** * Block numbers *)

Lemma chars_app s1 s2 : chars (s1 ++ s2) = (chars s1 ++ chars s2)%list.
Proof. induction s1 as [|c s1 IH]; simpl; [done|]. by rewrite <- IH. Qed.

Lemma spanDigits_run ds c rest :
  Forall (λ d, isDigit d = true) ds → isDigit c = false →
  spanDigits (ds ++ c :: rest) = (ds, c :: rest).
Proof.
  intros Hds Hc. induction Hds as [|d ds Hd _ IH]; simpl.
  - by rewrite Hc.
  - by rewrite Hd, IH.
Qed.

Lemma spanDigits_digits l : Forall (λ d, isDigit d = true) (spanDigits l).1.
Proof.
  induction l as [|c l IH]; simpl; [constructor|].
  destruct (isDigit c) eqn:Hc; [|constructor].
  destruct (spanDigits l) as [ds rest]. simpl in *. by constructor.
Qed.

Lemma dropPrefix_app x l : dropPrefix x (x ++ l) = Some l.
Proof.
  induction x as [|a x IH]; simpl; [by destruct l|].
  by rewrite Ascii.eqb_refl.
Qed.

Lemma dropPrefix_Some x l rest :
  dropPrefix x l = Some rest → l = (x ++ rest)%list.
Proof.
  revert l. induction x as [|a x IH]; intros l; simpl.
  - destruct l; by intros [= <-].
  - destruct l as [|b l]; [done|].
    destruct (Ascii.eqb_spec a b) as [->|]; [|done].
    intros ->%IH. done.
Qed.

Lemma matchHere_Some l ds :
  matchHere l = Some ds →
  Forall (λ d, isDigit d = true) ds
  ∧ ∃ rest : list ascii, l = (chars "snapshot_" ++ rest)%list.
Proof.
  unfold matchHere.
  destruct (dropPrefix (chars "snapshot_") l) as [rest|] eqn:Hp; [|done].
  apply dropPrefix_Some in Hp.
  pose proof (spanDigits_digits rest) as Hds.
  destruct (spanDigits rest) as [[|d ds'] [|c tl]]; try done.
  destruct (Ascii.eqb c "_"); [|done]. intros [= <-]. eauto.
Qed.

Lemma matchFirst_here l ds : matchHere l = Some ds → matchFirst l = Some ds.
Proof. intros H. destruct l; cbn [matchFirst]; by rewrite H. Qed.

Lemma matchFirst_Some l ds :
  matchFirst l = Some ds →
  Forall (λ d, isDigit d = true) ds ∧ includes_chars (chars "snapshot_") l = true.
Proof.
  induction l as [|c l IH].
  - done.
  - cbn [matchFirst]. destruct (matchHere (c :: l)) as [ds'|] eqn:E.
    + intros [= ->]. apply matchHere_Some in E as [Hds [rest E]].
      split; [done|]. apply includes_chars_spec. by exists [], rest.
    + intros [Hds (a & b & ->)%includes_chars_spec]%IH. split; [done|].
      apply includes_chars_spec. by exists (c :: a), b.
Qed.

Lemma digitValue_bounds d : isDigit d = true → 0 ≤ digitValue d ≤ 9.
Proof.
  unfold isDigit, inRange, digitValue.
  intros [H1%N.leb_le H2%N.leb_le]%andb_true_iff. lia.
Qed.

Lemma decimalValue_from acc ds :
  Forall (λ d, isDigit d = true) ds → 0 ≤ acc →
  0 ≤ foldl (λ acc c, 10 * acc + digitValue c) acc ds.
Proof.
  intros Hds. revert acc. induction Hds as [|d ds Hd _ IH]; intros acc Hacc; simpl.
  - done.
  - apply IH. pose proof (digitValue_bounds d Hd). lia.
Qed.

Lemma extractBlockId_nonneg filename : 0 ≤ extractBlockId filename.
Proof.
  unfold extractBlockId.
  destruct (matchFirst (chars filename)) as [ds|] eqn:E; [|done].
  apply matchFirst_Some in E as [Hds _]. by apply decimalValue_from.
Qed.

(** The digits printed for a number, read back. *)
Lemma uint_digits d :
  Forall (λ c, isDigit c = true) (chars (DecimalString.NilEmpty.string_of_uint d)).
Proof. induction d; simpl; by constructor. Qed.

Lemma uint_value_acc d acc :
  foldl (λ acc c, 10 * acc + digitValue c) (Z.pos acc)
    (chars (DecimalString.NilEmpty.string_of_uint d))
  = Z.pos (Pos.of_uint_acc d acc).
Proof.
  revert acc. induction d; intros acc; cbn [DecimalString.NilEmpty.string_of_uint
    chars list_ascii_of_string foldl Pos.of_uint_acc]; [done|..];
    fold (chars (DecimalString.NilEmpty.string_of_uint d));
    rewrite <- IHd; f_equal; unfold digitValue; cbn [N_of_ascii N_of_digits]; lia.
Qed.

Lemma uint_value d :
  decimalValue (chars (DecimalString.NilEmpty.string_of_uint d))
  = Z.of_N (Pos.of_uint d).
Proof.
  unfold decimalValue.
  induction d; cbn [DecimalString.NilEmpty.string_of_uint chars
    list_ascii_of_string foldl Pos.of_uint]; [done|..];
    fold (chars (DecimalString.NilEmpty.string_of_uint d));
    [exact IHd|apply (uint_value_acc d _)..].
Qed.

Lemma decimal_of_N n :
  let ds := chars (DecimalString.NilEmpty.string_of_uint (N.to_uint n)) in
  ds ≠ [] ∧ Forall (λ c, isDigit c = true) ds ∧ decimalValue ds = Z.of_N n.
Proof.
  intros ds.
  assert (decimalValue ds = Z.of_N n) as Hv.
  { unfold ds. rewrite uint_value.
    change (Pos.of_uint (N.to_uint n)) with (N.of_uint (N.to_uint n)).
    by rewrite DecimalN.Unsigned.of_to. }
  split; [|split; [apply uint_digits|done]].
  intros E. rewrite E in Hv. destruct n as [|p]; [|done].
  unfold ds in E. done.
Qed.

Lemma extractBlockId_snapshot ds rest :
  ds ≠ [] → Forall (λ c, isDigit c = true) ds →
  extractBlockId
    (string_of_list_ascii (chars "snapshot_" ++ ds ++ "_"%char :: rest))
  = decimalValue ds.
Proof.
  intros Hne Hds. unfold extractBlockId. rewrite chars_of_list.
  rewrite (matchFirst_here _ ds); [done|].
  unfold matchHere. rewrite dropPrefix_app, spanDigits_run by done.
  by destruct ds.
Qed.

(** X21: [extractBlockId] is never negative and is 0 for a name that
    does not contain [snapshot_]; for a name that starts with
    [snapshot_], the decimal digits of a number [n] below 2^53 and an
    underscore, it is [n], whatever follows. *)
Theorem extractBlockId_reads_the_block_number (filename : string) :
  0 ≤ extractBlockId filename
  ∧ (includes filename "snapshot_" = false → extractBlockId filename = 0)
  ∧ (∀ (n : N) (rest : string),
       (n < 2 ^ 53)%N →
       filename = "snapshot_"
                  ++ DecimalString.NilEmpty.string_of_uint (N.to_uint n)
                  ++ "_" ++ rest →
       extractBlockId filename = Z.of_N n).
Proof.
  split; [apply extractBlockId_nonneg|]. split.
  - unfold extractBlockId, includes. intros Hno.
    destruct (matchFirst (chars filename)) as [ds|] eqn:E; [|done].
    apply matchFirst_Some in E as [_ E]. congruence.
  - intros n rest _ ->.
    destruct (decimal_of_N n) as (Hne & Hds & <-).
    rewrite <- (extractBlockId_snapshot _ (chars rest) Hne Hds). f_equal.
    apply chars_inj. by rewrite chars_of_list, !chars_app.
Qed.

Lemma extractBlockId_reads_the_block_number_witness :
  extractBlockId "snapshot_123456_2024-01-01_00-00-00.tar.gz" = 123456.
Proof.
  apply (proj2 (proj2 (extractBlockId_reads_the_block_number
                         "snapshot_123456_2024-01-01_00-00-00.tar.gz"))
           123456%N "2024-01-01_00-00-00.tar.gz");
    vm_compute; reflexivity.
Defined.

(** * Command line *)

Lemma indexOf_from_absent x args i : x ∉ args → indexOf_from x args i = -1.
Proof.
  revert i. induction args as [|a args IH]; intros i Hx; simpl; [done|].
  apply not_elem_of_cons in Hx as [Hne Hx].
  destruct (String.eqb_spec a x) as [->|_]; [done|]. by apply IH.
Qed.

Lemma indexOf_from_first x pre post i :
  x ∉ pre →
  indexOf_from x (pre ++ x :: post) i = i + Z.of_nat (length pre).
Proof.
  revert i. induction pre as [|a pre IH]; intros i Hx; simpl.
  - rewrite String.eqb_refl. lia.
  - apply not_elem_of_cons in Hx as [Hne Hx].
    destruct (String.eqb_spec a x) as [->|_]; [done|]. rewrite IH by done. lia.
Qed.

Lemma at_index_after pre (x v : string) post :
  at_index (pre ++ x :: v :: post) (Z.of_nat (length pre) + 1) = Some v.
Proof.
  unfold at_index.
  destruct (Z.ltb_spec (Z.of_nat (length pre) + 1) 0) as [?|_]; [lia|].
  replace (Z.to_nat (Z.of_nat (length pre) + 1)) with (length pre + 1)%nat by lia.
  rewrite lookup_app_r by lia.
  by replace (length pre + 1 - length pre)%nat with 1%nat by lia.
Qed.

(** The index the three parsers compute when the short option is absent
    and when it first occurs after the command. *)
Lemma option_index_absent short long args :
  short ∉ args → index_or (indexOf args short) (indexOf args long) = -1.
Proof. intros H. unfold indexOf. by rewrite indexOf_from_absent. Qed.

Lemma option_index_short short long pre post :
  pre ≠ [] → short ∉ pre →
  index_or (indexOf (pre ++ short :: post) short)
           (indexOf (pre ++ short :: post) long)
  = Z.of_nat (length pre).
Proof.
  intros Hne H. unfold indexOf. rewrite indexOf_from_first by done.
  unfold index_or. destruct pre; [done|]. simpl length.
  by destruct (Z.eqb_spec (0 + Z.of_nat (S (length pre))) 0); [lia|].
Qed.

(** X22: when the short option is absent, the long one is not read:
    without [-p] the port is the one of the environment (or 3000)
    whatever follows [--port], without [-r] the rate is 1 MiB/s whatever
    follows [--rate], and without [-H] the host is the one of the
    environment (or localhost) whatever follows [--host]. *)
Theorem long_options_are_not_read
    (parseInt : string → option Z) (env_PORT env_HOST : option string)
    (args : list string) :
  ("-p" ∉ args →
   parsePort parseInt env_PORT args = parseInt (or_else env_PORT "3000"))
  ∧ ("-r" ∉ args → parseDownloadRate parseInt args = 1048576)
  ∧ ("-H" ∉ args → parseHost env_HOST args = or_else env_HOST "localhost").
Proof.
  split; [|split]; intros H.
  - unfold parsePort. by rewrite option_index_absent.
  - unfold parseDownloadRate. by rewrite option_index_absent.
  - unfold parseHost. by rewrite option_index_absent.
Qed.

Lemma long_options_are_not_read_witness :
  parsePort parseDigits None
    ["serve"; "--port"; "8080"; "--rate"; "5"; "--host"; "0.0.0.0"]
  = Some 3000.
Proof.
  apply (proj1 (long_options_are_not_read parseDigits None None
                  ["serve"; "--port"; "8080"; "--rate"; "5"; "--host"; "0.0.0.0"])).
  rewrite !not_elem_of_cons. repeat split; try done. apply not_elem_of_nil.
Defined.

(** X23: a short option that first occurs after the command, followed by
    a value, is read: the port when the value parses to a number from 1
    to 65535, the rate in MiB/s when it parses to a positive number, and
    the host whatever the value is.  A port out of range falls back to
    the environment. *)
Theorem short_options_are_read
    (parseInt : string → option Z) (env_PORT env_HOST : option string)
    (pre post : list string) (v : string) :
  pre ≠ [] →
  (∀ port, "-p" ∉ pre → parseInt v = Some port →
     parsePort parseInt env_PORT (pre ++ "-p" :: v :: post)
     = if (0 <? port) && (port <=? 65535) then Some port
       else parseInt (or_else env_PORT "3000"))
  ∧ (∀ rate, "-r" ∉ pre → parseInt v = Some rate → 0 < rate →
     parseDownloadRate parseInt (pre ++ "-r" :: v :: post) = rate * 1048576)
  ∧ ("-H" ∉ pre → parseHost env_HOST (pre ++ "-H" :: v :: post) = v).
Proof.
  intros Hne.
  assert (∀ w : string,
            negb (Z.of_nat (length pre) =? -1)
            && (Z.of_nat (length pre) + 1 <? Z.of_nat (length (pre ++ w :: v :: post)))
            = true) as Hidx.
  { intros w. rewrite length_app. simpl length. apply andb_true_iff. split.
    - apply negb_true_iff, Z.eqb_neq. lia.
    - apply Z.ltb_lt. lia. }
  split; [|split].
  - intros port Hp Hv. unfold parsePort.
    rewrite option_index_short, Hidx, at_index_after, Hv by done. done.
  - intros rate Hr Hv Hpos. unfold parseDownloadRate.
    rewrite option_index_short, Hidx, at_index_after, Hv by done.
    destruct (Z.ltb_spec 0 rate); lia.
  - intros Hh. unfold parseHost.
    by rewrite option_index_short, Hidx, at_index_after by done.
Qed.

Lemma short_options_are_read_witness :
  parseHost None (["serve"] ++ "-H" :: "0.0.0.0" :: ["-d"]) = "0.0.0.0".
Proof.
  apply (proj2 (proj2 (short_options_are_read parseDigits None None
                         ["serve"] ["-d"] "0.0.0.0" ltac:(done)))).
  rewrite not_elem_of_cons. split; [done|apply not_elem_of_nil].
Defined.

(** X24: whatever the command line and whatever [parseInt] returns, the
    download rate is at least 1 MiB/s, and the port is either a number
    from 1 to 65535 or what [parseInt] makes of the environment's PORT
    (or of 3000), which is not range-checked. *)
Theorem rate_and_port_are_bounded
    (parseInt : string → option Z) (env_PORT : option string)
    (args : list string) :
  1048576 ≤ parseDownloadRate parseInt args
  ∧ (parsePort parseInt env_PORT args = parseInt (or_else env_PORT "3000")
     ∨ ∃ port, parsePort parseInt env_PORT args = Some port
               ∧ 0 < port ≤ 65535).
Proof.
  split.
  - unfold parseDownloadRate. repeat case_match; lia.
  - unfold parsePort. repeat case_match; auto.
    right. eexists. split; [done|].
    match goal with H : _ && _ = true |- _ =>
      apply andb_true_iff in H as [?%Z.ltb_lt ?%Z.leb_le] end. lia.
Qed.
